(** * Verification of the market-data pipeline

    A shallow embedding of the data pipeline of the trading terminal:

    - [src/fetch.py]      the fetch adapter ([_normalize_columns],
                          [download_history_tidy]);
    - [src/transform.py]  the transform engine ([compute_returns],
                          [compute_volatility]);
    - [app/callbacks.py]  the cached data layer ([_cached_fetch], and the key
                          built in [update_main]).

    The program is a thin layer over pandas, so the development has three
    strata: float64 values with their IEEE 754 arithmetic, a model of the
    pandas operations the program calls (frames living in a store of
    objects, because column assignment mutates its target), and the program
    itself written over these operations, line for line. *)

From Stdlib Require Import Lia ZArith Bool String Ascii DecimalString.
From Stdlib Require Import SpecFloat.
From Stdlib Require Import List Permutation Sorted.
Import ListNotations.

Set Implicit Arguments.

(* ================================================================== *)
(** * float64 values *)
(* ================================================================== *)

(** A float64 cell is an IEEE 754 binary64 value: a signed zero, a signed
    infinity, a not-a-number (pandas' marker for an absent value), or a
    finite number given by its sign, mantissa and exponent.  The operations
    are those of the standard, rounded to nearest with ties to even: a
    result too large is an infinity, a result too small a zero, and a zero
    has a sign, which a division by it passes on. *)
Module Float64.

Definition prec : Z := 53.
Definition emax : Z := 1024.

Abbreviation num := spec_float.

Abbreviation NaN := S754_nan.
Abbreviation Inf := S754_infinity.

(** [pd.isna]: only NaN is absent, an infinity is a value. *)
Definition isna (x : num) : bool :=
  match x with NaN => true | _ => false end.

Definition notna (x : num) : bool := negb (isna x).

(** [np.isfinite] *)
Definition is_finite (x : num) : bool :=
  match x with S754_zero _ | S754_finite _ _ _ => true | _ => false end.

Definition is_zero (x : num) : bool :=
  match x with S754_zero _ => true | _ => false end.

Definition fneg (x : num) : num := SFopp x.
Definition fabs (x : num) : num := SFabs x.
Definition fadd (x y : num) : num := SFadd prec emax x y.
Definition fsub (x y : num) : num := SFsub prec emax x y.
Definition fmul (x y : num) : num := SFmul prec emax x y.
Definition fdiv (x y : num) : num := SFdiv prec emax x y.
Definition fsqrt (x : num) : num := SFsqrt prec emax x.

(** [x <= y], [x < y], [x == y]: false when one of them is NaN, and the
    two zeros are equal. *)
Definition fle (x y : num) : bool := SFleb x y.
Definition flt (x y : num) : bool := SFltb x y.
Definition feq (x y : num) : bool := SFeqb x y.

(** An integer as a float64: the nearest one. *)
Definition of_Z (z : Z) : num := binary_normalize prec emax z 0 false.

Definition of_nat (n : nat) : num := of_Z (Z.of_nat n).

Definition one : num := of_Z 1.
Definition zero : num := S754_zero false.

(** [x] is a number of sign [s]: a zero, a finite number or an infinity. *)
Definition has_sign (s : bool) (x : num) : bool :=
  match x with
  | NaN => false
  | S754_zero s' | Inf s' | S754_finite s' _ _ => Bool.eqb s s'
  end.

End Float64.
Import Float64.

(* ================================================================== *)
(** * pandas: series *)
(* ================================================================== *)

Module Series.

(** A float column, by position. *)
Definition series := list num.

(** [scalar + s], [s - scalar], [s * scalar]: broadcast arithmetic. *)
Definition radd (c : num) (s : series) : series := map (fun x => fadd c x) s.
Definition sub_scalar (s : series) (c : num) : series := map (fun x => fsub x c) s.
Definition mul_scalar (s : series) (c : num) : series := map (fun x => fmul x c) s.

(** Element-wise combination of two series of the same length. *)
Fixpoint zip_with (f : num -> num -> num) (a b : series) : series :=
  match a, b with
  | x :: a', y :: b' => f x y :: zip_with f a' b'
  | _, _ => []
  end.

(** [ffill]: an absent value takes the last present value before it. *)
Fixpoint ffill_from (last : num) (s : series) : series :=
  match s with
  | [] => []
  | x :: s' =>
      let y := if isna x then last else x in
      y :: ffill_from y s'
  end.
Definition ffill : series -> series := ffill_from NaN.

(** [shift(1)]: every value moves one position down, the first is absent. *)
Definition shift1 (s : series) : series := firstn (length s) (NaN :: s).

(** [pct_change] of one group, as pandas (before 3.0) computes it:
    forward fill, then [filled / filled.shift(1) - 1]. *)
Definition pct_change (s : series) : series :=
  let filled := ffill s in
  sub_scalar (zip_with fdiv filled (shift1 filled)) one.

(** [cumprod] with [skipna=True]: an absent value yields an absent value and
    leaves the running product unchanged. *)
Fixpoint cumprod_from (acc : num) (s : series) : series :=
  match s with
  | [] => []
  | x :: s' =>
      if isna x then NaN :: cumprod_from acc s'
      else let acc' := fmul acc x in acc' :: cumprod_from acc' s'
  end.
Definition cumprod : series -> series := cumprod_from one.

(** ** [rolling(window).std()]

    pandas computes the rolling variance in one pass over the column
    ([roll_var]): a running count, mean and sum of squared differences from
    the mean, updated by Welford's method with a compensated summation when
    a row enters the window ([add_var]) and when a row leaves it
    ([remove_var]).  The deviation is the square root of the variance. *)

Definition ddof : nat := 1.

(** The state of the pass.  The count is a float64 in pandas; it holds a
    whole number, exactly up to [2 ** 53]. *)
Record var_state : Type := mk_var {
  nobs : nat;
  mean_x : num;
  ssqdm_x : num;
  compensation_add : num;
  compensation_remove : num;
  num_consecutive_same_value : nat;
  prev_value : num
}.

(** The state at the start of a window whose first value is [v]. *)
Definition fresh (v : num) : var_state := mk_var 0 zero zero zero zero 0 v.

(** [add_var]: an absent value is skipped. *)
Definition add_var (val : num) (st : var_state) : var_state :=
  if isna val then st
  else
    let n := S (nobs st) in
    let same := if feq val (prev_value st)
                then S (num_consecutive_same_value st) else 1%nat in
    let prev_mean := fsub (mean_x st) (compensation_add st) in
    let y := fsub val (compensation_add st) in
    let t := fsub y (mean_x st) in
    let compensation := fsub (fadd t (mean_x st)) y in
    let mean := fadd (mean_x st) (fdiv t (of_nat n)) in
    let ssqdm := fadd (ssqdm_x st) (fmul (fsub val prev_mean) (fsub val mean)) in
    mk_var n mean ssqdm compensation (compensation_remove st) same val.

(** [remove_var]: an absent value was never counted. *)
Definition remove_var (val : num) (st : var_state) : var_state :=
  if isna val then st
  else
    match Nat.pred (nobs st) with
    | O => mk_var 0 zero zero (compensation_add st) (compensation_remove st)
                  (num_consecutive_same_value st) (prev_value st)
    | n =>
        let prev_mean := fsub (mean_x st) (compensation_remove st) in
        let y := fsub val (compensation_remove st) in
        let t := fsub y (mean_x st) in
        let compensation := fsub (fadd t (mean_x st)) y in
        let mean := fsub (mean_x st) (fdiv t (of_nat n)) in
        let ssqdm := fsub (ssqdm_x st) (fmul (fsub val prev_mean) (fsub val mean)) in
        mk_var n mean ssqdm (compensation_add st) compensation
               (num_consecutive_same_value st) (prev_value st)
    end.

(** [calc_var]: no variance below [minp] observations or without more
    observations than [ddof]; the variance of observations that are all the
    same value is zero. *)
Definition calc_var (minp : nat) (st : var_state) : num :=
  if (minp <=? nobs st)%nat && (ddof <? nobs st)%nat
  then
    if (nobs st =? 1)%nat || (nobs st <=? num_consecutive_same_value st)%nat
    then zero
    else fdiv (ssqdm_x st) (of_nat (nobs st - ddof))
  else NaN.

(** The window of row [i] is [values[start:end]] with
    [start = max(0, i - window + 1)] and [end = i + 1]. *)
Definition window_start (window i : nat) : nat := S i - window.

(** [values[a:b]] *)
Definition slice (A : Type) (a b : nat) (l : list A) : list A :=
  skipn a (firstn b l).

(** The loop of [roll_var] from row [i] on, [st] being the state after the
    row before: the first window, and a window that starts where the one
    before ended, are built from a fresh state; otherwise the rows that
    left the window are removed, and the new row is added. *)
Fixpoint roll_var_from (window minp : nat) (values : series) (i : nat)
         (st : var_state) (todo : series) : series :=
  match todo with
  | [] => []
  | _ :: todo' =>
      let s := window_start window i in
      let e := S i in
      let st' :=
        if (i =? 0)%nat || (i <=? s)%nat
        then fold_left (fun a v => add_var v a) (slice s e values)
                       (fresh (nth s values NaN))
        else
          let removed :=
            fold_left (fun a v => remove_var v a)
                      (slice (window_start window (i - 1)) s values) st in
          fold_left (fun a v => add_var v a) (slice i e values) removed
      in
      calc_var minp st' :: roll_var_from window minp values (S i) st' todo'
  end.

Definition roll_var (window minp : nat) (values : series) : series :=
  roll_var_from window (Nat.max minp 1) values 0 (fresh NaN) values.

(** A rolling window counts an infinity as absent: pandas replaces them by
    NaN before it aggregates. *)
Definition prep_values (s : series) : series :=
  map (fun x => if is_finite x then x else NaN) s.

(** [zsqrt]: the square root, and zero for a negative number. *)
Definition zsqrt (x : num) : num := if flt x zero then zero else fsqrt x.

(** [min_periods] defaults to [window]. *)
Definition rolling_std (window : nat) (s : series) : series :=
  map zsqrt (roll_var window window (prep_values s)).

End Series.
Import Series.

(* ================================================================== *)
(** * pandas: frames, grouping, sorting *)
(* ================================================================== *)

Module Frames.

(** A row of a tidy table.  [date] is a naive instant ([None] is NaT),
    [ticker] the symbol, [vals] the float cell of every other column (NaN
    where the column has no value). *)
Record Row : Type := mkRow {
  date : option Z;
  ticker : string;
  vals : string -> num
}.

(** A DataFrame: its column labels and its rows, in order.  Index labels are
    not modelled: they are taken to be unique, so that a series computed from
    a frame and assigned to it goes back row by row. *)
Record Frame : Type := mkFrame {
  columns : list string;
  rows : list Row
}.

Definition has_column (c : string) (cols : list string) : bool :=
  existsb (String.eqb c) cols.

Definition column (c : string) (rs : list Row) : series :=
  map (fun r => vals r c) rs.

Definition tickers_of (rs : list Row) : list string := map ticker rs.

Definition set_cell (c : string) (v : num) (r : Row) : Row :=
  mkRow (date r) (ticker r)
        (fun c' => if String.eqb c' c then v else vals r c').

(** [df[c] = s] on the rows: cell by cell, by position. *)
Fixpoint assign (c : string) (s : series) (rs : list Row) : list Row :=
  match rs, s with
  | r :: rs', v :: s' => set_cell c v r :: assign c s' rs'
  | _, _ => []
  end.

(** A new label goes last, an existing one keeps its place. *)
Definition add_column (c : string) (cols : list string) : list string :=
  if has_column c cols then cols else cols ++ [c].

(** ** Sorting by (ticker, date) *)

(** Dates ascending, NaT last. *)
Definition date_leb (a b : option Z) : bool :=
  match a, b with
  | Some x, Some y => (x <=? y)%Z
  | _, None => true
  | None, Some _ => false
  end.

(** Lexicographic order on (ticker, date); symbols compare by code point,
    as Python strings do. *)
Definition key_leb (a b : Row) : bool :=
  match String.compare (ticker a) (ticker b) with
  | Lt => true
  | Gt => false
  | Eq => date_leb (date a) (date b)
  end.

Definition key_le (a b : Row) : Prop := key_leb a b = true.

(** [sort_values] on several keys is a stable sort: rows with equal keys
    keep their relative order. *)
Fixpoint insert_row (x : Row) (l : list Row) : list Row :=
  match l with
  | [] => [x]
  | y :: l' => if key_leb x y then x :: l else y :: insert_row x l'
  end.

Definition sort_rows (l : list Row) : list Row :=
  fold_right insert_row [] l.

(** ** Grouping *)

(** The values of one group, in row order. *)
Definition select (A : Type) (k : string) (kv : list (string * A)) : list A :=
  map snd (filter (fun p => String.eqb (fst p) k) kv).

(** Split, apply, combine: [f] is applied to the values of every group, and
    each result goes back to the position its input came from.  [seen]
    holds the rows before the current one. *)
Fixpoint gapply_aux (f : series -> series) (all seen rest : list (string * num))
  : series :=
  match rest with
  | [] => []
  | (k, x) :: rest' =>
      nth (length (select k seen)) (f (select k all)) NaN
        :: gapply_aux f all (seen ++ [(k, x)]) rest'
  end.

Definition gapply (f : series -> series) (keys : list string) (s : series) : series :=
  let kv := combine keys s in
  gapply_aux f kv [] kv.

(** [groupby(keys)[...].pct_change()]: pandas fills forward inside each
    group, shifts inside each group, and divides the two columns. *)
Definition groupby_pct_change (keys : list string) (s : series) : series :=
  let filled := gapply ffill keys s in
  let shifted := gapply shift1 keys filled in
  sub_scalar (zip_with fdiv filled shifted) one.

Definition groupby_cumprod (keys : list string) (s : series) : series :=
  gapply cumprod keys s.

(** [groupby(keys)[...].rolling(window).std().reset_index(level=0, drop=True)] *)
Definition groupby_rolling_std (window : nat) (keys : list string) (s : series)
  : series :=
  gapply (rolling_std window) keys s.

End Frames.
Import Frames.

(* ================================================================== *)
(** * pandas: the object store *)
(* ================================================================== *)

Module Store.

Inductive exn : Type :=
| KeyError (label : string)
| ValueError (msg : string)
| RuntimeError (msg : string).

Inductive result (A : Type) : Type :=
| Ok (a : A)
| Raise (e : exn).
Arguments Ok {A} a.
Arguments Raise {A} e.

(** DataFrame objects live in a store and are handled by reference: the
    store only grows, and a reference is the position of its object. *)
Definition ref := nat.
Definition heap := list Frame.

(** A computation reads and writes the store and may raise. *)
Definition M (A : Type) : Type := heap -> result A * heap.

Definition ret (A : Type) (a : A) : M A := fun h => (Ok a, h).

Definition bind (A B : Type) (m : M A) (k : A -> M B) : M B :=
  fun h =>
    match m h with
    | (Ok a, h') => k a h'
    | (Raise e, h') => (Raise e, h')
    end.

Definition raise (A : Type) (e : exn) : M A := fun h => (Raise e, h).
Arguments raise {A} e.

Definition deref (r : ref) : M Frame :=
  fun h =>
    match nth_error h r with
    | Some t => (Ok t, h)
    | None => (Raise (RuntimeError "dangling reference"), h)
    end.

Definition alloc (t : Frame) : M ref :=
  fun h => (Ok (length h), h ++ [t]).

Fixpoint update (h : heap) (r : ref) (t : Frame) : heap :=
  match h, r with
  | [], _ => []
  | _ :: h', O => t :: h'
  | x :: h', S r' => x :: update h' r' t
  end.

Definition store (r : ref) (t : Frame) : M unit :=
  fun h => (Ok tt, update h r t).

End Store.
Import Store.

Declare Scope pandas_scope.
Delimit Scope pandas_scope with pandas.
Notation "x <- m ;; k" := (bind m (fun x => k))
  (at level 61, m at next level, right associativity) : pandas_scope.
Notation "m ;; k" := (bind m (fun _ => k))
  (at level 61, right associativity) : pandas_scope.
Open Scope pandas_scope.

Module Pandas.

Definition require_column (c : string) (t : Frame) : M unit :=
  if has_column c (columns t) then ret tt else raise (KeyError c).

(** [df.sort_values(["ticker", "date"])]: a new frame, the argument is left
    as it is. *)
Definition sort_values_ticker_date (df : ref) : M ref :=
  t <- deref df ;;
  require_column "ticker" t ;;
  require_column "date" t ;;
  alloc (mkFrame (columns t) (sort_rows (rows t))).

(** [df.copy()] *)
Definition copy (df : ref) : M ref :=
  t <- deref df ;;
  alloc t.

(** [df[c]] *)
Definition getitem (df : ref) (c : string) : M series :=
  t <- deref df ;;
  require_column c t ;;
  ret (column c (rows t)).

(** [df["ticker"]] *)
Definition get_tickers (df : ref) : M (list string) :=
  t <- deref df ;;
  require_column "ticker" t ;;
  ret (tickers_of (rows t)).

(** [df[c] = s]: the frame object itself is changed. *)
Definition setitem (df : ref) (c : string) (s : series) : M unit :=
  t <- deref df ;;
  if (length s =? length (rows t))%nat
  then store df (mkFrame (add_column c (columns t)) (assign c s (rows t)))
  else raise (ValueError "Length of values does not match length of index").

(** [c in df.columns] *)
Definition contains (df : ref) (c : string) : M bool :=
  t <- deref df ;;
  ret (has_column c (columns t)).

End Pandas.
Import Pandas.

(* ================================================================== *)
(** * src/transform.py *)
(* ================================================================== *)

Module Transform.

(** [252 ** 0.5] *)
Definition sqrt_252 : num := fsqrt (of_Z 252).

(** [f"vol_{window}d_ann"] *)
Definition vol_column (window : nat) : string :=
  ("vol_" ++ NilEmpty.string_of_uint (Nat.to_uint window) ++ "d_ann")%string.

Definition compute_returns (long_df : ref) : M ref :=
  sorted <- sort_values_ticker_date long_df ;;
  df <- copy sorted ;;
  tk <- get_tickers df ;;
  close <- getitem df "close" ;;
  setitem df "daily_return" (groupby_pct_change tk close) ;;
  daily_return <- getitem df "daily_return" ;;
  tk' <- get_tickers df ;;
  setitem df "cum_return"
    (sub_scalar (groupby_cumprod tk' (radd one daily_return)) one) ;;
  ret df.

Definition compute_volatility (long_df : ref) (window : nat) : M ref :=
  sorted <- sort_values_ticker_date long_df ;;
  df <- copy sorted ;;
  present <- contains df "daily_return" ;;
  (if present then ret tt
   else
     tk <- get_tickers df ;;
     close <- getitem df "close" ;;
     setitem df "daily_return" (groupby_pct_change tk close)) ;;
  tk <- get_tickers df ;;
  daily_return <- getitem df "daily_return" ;;
  let roll := groupby_rolling_std window tk daily_return in
  setitem df (vol_column window) (mul_scalar roll sqrt_252) ;;
  ret df.

End Transform.
Import Transform.

(* ================================================================== *)
(** * Python strings *)
(* ================================================================== *)

Module PyStr.

Definition is_space (c : ascii) : bool :=
  let n := nat_of_ascii c in
  ((9 <=? n) && (n <=? 13) || (28 <=? n) && (n <=? 32))%nat.

Definition lower_char (c : ascii) : ascii :=
  let n := nat_of_ascii c in
  if ((65 <=? n) && (n <=? 90))%nat then ascii_of_nat (n + 32) else c.

Fixpoint map_chars (f : ascii -> ascii) (s : string) : string :=
  match s with
  | EmptyString => EmptyString
  | String c s' => String (f c) (map_chars f s')
  end.

(** [s.lower()] *)
Definition lower : string -> string := map_chars lower_char.

Fixpoint lstrip (s : string) : string :=
  match s with
  | EmptyString => EmptyString
  | String c s' => if is_space c then lstrip s' else s
  end.

Fixpoint rstrip (s : string) : string :=
  match s with
  | EmptyString => EmptyString
  | String c s' =>
      match rstrip s' with
      | EmptyString => if is_space c then EmptyString else String c EmptyString
      | rest => String c rest
      end
  end.

(** [s.strip()] *)
Definition strip (s : string) : string := rstrip (lstrip s).

(** [s.replace(a, b)] for one-character [a] and [b]. *)
Definition replace_char (a b : ascii) : string -> string :=
  map_chars (fun c => if Ascii.eqb c a then b else c).

(** [sep.join(parts)] *)
Definition join (sep : string) (parts : list string) : string :=
  String.concat sep parts.

(** [s.split(sep)] for a one-character separator: never empty. *)
Fixpoint split (sep : ascii) (s : string) : list string :=
  match s with
  | EmptyString => [EmptyString]
  | String c s' =>
      if Ascii.eqb c sep then EmptyString :: split sep s'
      else
        match split sep s' with
        | [] => [String c EmptyString]
        | w :: ws => String c w :: ws
        end
  end.

End PyStr.

(* ================================================================== *)
(** * src/fetch.py *)
(* ================================================================== *)

Module Fetch.

Local Open Scope string_scope.

(** ** What the provider returns

    [yf.Ticker(t).history(...)] returns a frame indexed by time, the index
    being named [Date] (daily and longer bars), [Datetime] (intraday bars)
    or left unnamed (a frame built empty), with float columns drawn from
    the provider's fixed vocabulary. *)

Inductive index_label : Type := IndexDate | IndexDatetime | IndexUnnamed.

Inductive ycol : Type :=
| Open | High | Low | Close | AdjClose | Volume
| Dividends | StockSplits | CapitalGains.

Definition ycol_label (c : ycol) : string :=
  match c with
  | Open => "Open" | High => "High" | Low => "Low" | Close => "Close"
  | AdjClose => "Adj Close" | Volume => "Volume"
  | Dividends => "Dividends" | StockSplits => "Stock Splits"
  | CapitalGains => "Capital Gains"
  end.

(** A bar: its instant, counted in UTC, and its values. *)
Record Bar : Type := mkBar {
  bar_time : Z;
  bar_val : ycol -> num
}.

(** A frame of the provider.  Its index is in one time zone, or naive
    ([None]). *)
Record Hist : Type := mkHist {
  index_name : index_label;
  index_tz : option string;
  hist_columns : list ycol;
  bars : list Bar
}.

(** ** Untyped frames, as [_normalize_columns] sees them *)

Inductive cell : Type :=
| CTime (t : Z)
| CNum (x : num).

Record Table : Type := mkTable {
  labels : list string;
  records : list (list cell)
}.

(** [df.reset_index()]: the index becomes the first column, under its own
    name, or under [index] when it has none. *)
Definition reset_index (h : Hist) : Table :=
  let idx := match index_name h with
             | IndexDate => "Date"
             | IndexDatetime => "Datetime"
             | IndexUnnamed => "index"
             end%string in
  mkTable (idx :: map ycol_label (hist_columns h))
          (map (fun b => CTime (bar_time b)
                           :: map (fun c => CNum (bar_val b c)) (hist_columns h))
               (bars h)).

Definition mem (c : string) (l : list string) : bool := existsb (String.eqb c) l.

(** [df.rename(columns={old: new})] *)
Definition rename (old new : string) (t : Table) : Table :=
  mkTable (map (fun l => if String.eqb l old then new else l) (labels t))
          (records t).

(** [str(c).strip().lower().replace(" ", "_")] *)
Definition normalize_label (c : string) : string :=
  PyStr.replace_char " " "_" (PyStr.lower (PyStr.strip c)).

Definition _normalize_columns (df : Hist) : Table :=
  let out := reset_index df in
  let out := mkTable (map normalize_label (labels out)) (records out) in
  let out := if negb (mem "date" (labels out)) && mem "index" (labels out)
             then rename "index" "date" out else out in
  let out := if negb (mem "close" (labels out)) && mem "adj_close" (labels out)
             then rename "adj_close" "close" out else out in
  out.

(** The cell of the first column labelled [c]. *)
Fixpoint lookup (c : string) (ls : list string) (cs : list cell) : option cell :=
  match ls, cs with
  | l :: ls', x :: cs' => if String.eqb l c then Some x else lookup c ls' cs'
  | _, _ => None
  end.

(** One record of [norm[keep]], tagged with its ticker, as a tidy row: a
    column that is not kept has no value. *)
Definition tidy_row (ls keep : list string) (t : string) (cs : list cell) : Row :=
  mkRow (if mem "date" keep
         then match lookup "date" ls cs with Some (CTime z) => Some z | _ => None end
         else None)
        t
        (fun c => if mem c keep
                  then match lookup c ls cs with Some (CNum x) => x | _ => NaN end
                  else NaN).

Definition canonical : list string :=
  ["date"; "open"; "high"; "low"; "close"; "volume"].

(** [block = norm[keep].copy(); block["ticker"] = t] *)
Definition block_of (norm : Table) (keep : list string) (t : string) : Frame :=
  mkFrame (keep ++ ["ticker"])%list
          (map (tidy_row (labels norm) keep t) (records norm)).

(** [pd.concat(frames, ignore_index=True)]: the rows one block after the
    other, under the union of the labels in order of first appearance. *)
Definition concat (frames : list Frame) : Frame :=
  mkFrame (fold_left (fun acc f => fold_left (fun a c => add_column c a) (columns f) acc)
                     frames [])
          (flat_map rows frames).

(** ** Time zones

    The rows of a table carry their dates as instants.  The zone of a date
    matters at one place, [pd.to_datetime] on the date column of the
    concatenation, and is kept beside the blocks. *)

Definition zone_eqb (a b : option string) : bool :=
  match a, b with
  | None, None => true
  | Some x, Some y => String.eqb x y
  | _, _ => false
  end.

(** The zone of every date that the block of a frame brings to the
    concatenation: none when its date column is not kept. *)
Definition block_zones (hist : Hist) (keep : list string) : list (option string) :=
  if mem "date" keep then map (fun _ => index_tz hist) (bars hist) else [].

(** [pd.to_datetime] on the date column of the concatenation.  Dates of one
    zone, or all naive, are one datetime column already.  Dates of two
    zones, or naive and zoned dates together, are a column of objects that
    cannot be converted: ValueError (its message depends on the mix). *)
Definition to_datetime_dates (zones : list (option string)) : M unit :=
  match zones with
  | [] => ret tt
  | z :: zs =>
      if forallb (zone_eqb z) zs then ret tt
      else raise (ValueError
             "Tz-aware datetime.datetime cannot be converted to datetime64 unless utc=True")
  end.

Section WithProvider.

(** [yf.Ticker(t).history(period=, interval=, auto_adjust=)] *)
Variable history : string -> string -> string -> bool -> Hist.

(** The zones of the dates collected so far, after one more ticker. *)
Definition zones_one (period interval : string) (auto_adjust : bool)
           (zones : list (option string)) (t : string) : list (option string) :=
  let hist := history t period interval auto_adjust in
  let norm := _normalize_columns hist in
  let keep := filter (fun c => mem c (labels norm)) canonical in
  (zones ++ block_zones hist keep)%list.

(** The body of the [for t in tickers] loop: [frames] after one ticker. *)
Definition fetch_one (period interval : string) (auto_adjust : bool)
           (frames : list Frame) (t : string) : list Frame :=
  let hist := history t period interval auto_adjust in
  let norm := _normalize_columns hist in
  let keep := filter (fun c => mem c (labels norm)) canonical in
  match keep with
  | [] => frames
  | _ => (frames ++ [block_of norm keep t])%list
  end.

Definition download_history_tidy (tickers : list string)
           (period interval : string) (auto_adjust : bool) : M ref :=
  let frames := fold_left (fetch_one period interval auto_adjust) tickers [] in
  let zones := fold_left (zones_one period interval auto_adjust) tickers [] in
  match frames with
  | [] => raise (RuntimeError
            "No data returned from yfinance. Check tickers/period/interval.")
  | _ =>
      df <- alloc (concat frames) ;;
      (* df["date"] = pd.to_datetime(df["date"]) *)
      _ <- getitem df "date" ;;
      to_datetime_dates zones ;;
      (* df.sort_values(["ticker", "date"]).reset_index(drop=True) *)
      df <- sort_values_ticker_date df ;;
      (* tz_convert(None): the dates are instants counted in UTC already,
         dropping their zone changes nothing *)
      ret df
  end.

End WithProvider.

End Fetch.
Import Fetch.

(* ================================================================== *)
(** * functools.lru_cache *)
(* ================================================================== *)

Module Functools.

Section LRU.

Variables K V : Type.
Variable key_eqb : K -> K -> bool.

(** The entries, the most recently used first. *)
Definition cache := list (K * V).

Definition find (k : K) (c : cache) : option V :=
  match List.find (fun e => key_eqb (fst e) k) c with
  | Some e => Some (snd e)
  | None => None
  end.

Definition remove (k : K) (c : cache) : cache :=
  filter (fun e => negb (key_eqb (fst e) k)) c.

(** A call of the wrapped function [f] at [k]: a hit returns the stored
    result and makes the entry the most recent; a miss calls [f], and
    stores its result as the most recent entry, dropping the least recent
    one when the cache is full.  Nothing is stored when [f] raises. *)
Definition lru_call (maxsize : nat) (f : K -> M V) (k : K) (c : cache)
  : heap -> (result V * cache) * heap :=
  fun h =>
    match find k c with
    | Some v => ((Ok v, (k, v) :: remove k c), h)
    | None =>
        match f k h with
        | (Ok v, h') => ((Ok v, firstn maxsize ((k, v) :: c)), h')
        | (Raise e, h') => ((Raise e, c), h')
        end
    end.

End LRU.

End Functools.

(* ================================================================== *)
(** * app/callbacks.py: the data layer *)
(* ================================================================== *)

Module Callbacks.

Local Open Scope string_scope.

Definition key : Type := (string * string)%type.

Definition key_eqb (a b : key) : bool :=
  String.eqb (fst a) (fst b) && String.eqb (snd a) (snd b).

Definition maxsize : nat := 64.

Definition fetch_cache : Type := Functools.cache key ref.

Section WithProvider.

Variable history : string -> string -> string -> bool -> Hist.

(** The body of [_cached_fetch]. *)
Definition fetch_body (k : key) : M ref :=
  let (tickers_key, interval) := k in
  let tickers := PyStr.split "," tickers_key in
  df <- download_history_tidy history tickers "12mo" interval true ;;
  df <- compute_returns df ;;
  df <- compute_volatility df 20 ;;
  ret df.

(** [@lru_cache(maxsize=64)] *)
Definition _cached_fetch (tickers_key interval : string) (c : fetch_cache)
  : heap -> (result ref * fetch_cache) * heap :=
  Functools.lru_call key_eqb maxsize fetch_body (tickers_key, interval) c.

(** The key [update_main] builds from the selected tickers. *)
Definition tickers_key_of (tickers : list string) : string :=
  PyStr.join "," tickers.

(** The data part of [update_main]: nothing is fetched for an empty
    selection. *)
Definition update_main (tickers : list string) (interval : string)
           (c : fetch_cache) : heap -> (option (result ref) * fetch_cache) * heap :=
  fun h =>
    match tickers with
    | [] => ((None, c), h)
    | _ =>
        let tickers_key := tickers_key_of tickers in
        match _cached_fetch tickers_key interval c h with
        | ((r, c'), h') => ((Some r, c'), h')
        end
    end.

End WithProvider.

End Callbacks.
Import Callbacks.

(* ================================================================== *)
(** * Vocabulary of the statements *)
(* ================================================================== *)

Module Vocabulary.

Local Open Scope string_scope.

(** A tidy table has at least the columns the transforms read. *)
Definition is_tidy (t : Frame) : bool :=
  has_column "ticker" (columns t) && has_column "date" (columns t)
  && has_column "close" (columns t).

(** The rows of one ticker, in table order. *)
Definition group (T : string) (rs : list Row) : list Row :=
  filter (fun r => String.eqb (ticker r) T) rs.

(** The sort key of a row. *)
Definition key_of (r : Row) : string * option Z := (ticker r, date r).

(** Called on a reference to [t], in any store, [m] returns normally a
    reference to [out]. *)
Definition returns_to (m : ref -> M ref) (t out : Frame) : Prop :=
  forall (h : heap) (r : ref),
    nth_error h r = Some t ->
    exists (r' : ref) (h' : heap),
      m r h = (Ok r', h') /\ nth_error h' r' = Some out.

(** The frame [compute_returns] builds, as a function of its argument. *)
Definition with_daily_return (rs : list Row) : list Row :=
  assign "daily_return"
         (groupby_pct_change (tickers_of rs) (column "close" rs)) rs.

Definition with_cum_return (rs : list Row) : list Row :=
  assign "cum_return"
         (sub_scalar (groupby_cumprod (tickers_of rs)
                                      (radd one (column "daily_return" rs))) one)
         rs.

Definition returns_frame (t : Frame) : Frame :=
  mkFrame (add_column "cum_return" (add_column "daily_return" (columns t)))
          (with_cum_return (with_daily_return (sort_rows (rows t)))).

(** The frame [compute_volatility] builds. *)
Definition with_volatility (window : nat) (rs : list Row) : list Row :=
  assign (vol_column window)
         (mul_scalar (groupby_rolling_std window (tickers_of rs)
                                          (column "daily_return" rs)) sqrt_252)
         rs.

Definition volatility_frame (window : nat) (t : Frame) : Frame :=
  if has_column "daily_return" (columns t)
  then mkFrame (add_column (vol_column window) (columns t))
               (with_volatility window (sort_rows (rows t)))
  else mkFrame (add_column (vol_column window)
                           (add_column "daily_return" (columns t)))
               (with_volatility window (with_daily_return (sort_rows (rows t)))).

(** Two tables with the same keys and the same cells. *)
Definition same_rows (l l' : list Row) : Prop :=
  map key_of l = map key_of l' /\ forall c, column c l = column c l'.

(** Every object of [h] is still in [h'], as it was. *)
Definition store_preserved (h h' : heap) : Prop :=
  forall q : ref, (q < length h)%nat -> nth_error h' q = nth_error h q.

(** [out] has the rows of [t], possibly in another order, with the same
    cell in every column that [t] has and that is not [derived]. *)
Definition same_table_except (derived : string -> bool) (t out : Frame) : Prop :=
  (forall c, has_column c (columns t) = true -> has_column c (columns out) = true)
  /\ exists l : list Row,
       Permutation l (rows t)
       /\ map key_of (rows out) = map key_of l
       /\ forall c, derived c = false -> column c (rows out) = column c l.

(** Order of two rows of one ticker by date, weak and strict. *)
Definition date_le (a b : Row) : Prop := date_leb (date a) (date b) = true.
Definition date_lt (a b : Row) : Prop := date_leb (date b) (date a) = false.

(** The blocks the loop of [download_history_tidy] has collected at its end. *)
Definition fetched_frames (history : string -> string -> string -> bool -> Hist)
           (tickers : list string) (period interval : string) (auto_adjust : bool)
  : list Frame :=
  fold_left (fetch_one history period interval auto_adjust) tickers [].

(** Product of the values of a series that are present, in their order. *)
Definition prod_present (s : series) : num :=
  fold_left fmul (filter notna s) one.

(** The last value of a series that is present, if any: what the forward
    fill puts at its end. *)
Definition last_present (s : series) : num :=
  fold_left (fun last x => if isna x then last else x) s NaN.

(** The zones of the dates of the concatenation. *)
Definition date_zones (history : string -> string -> string -> bool -> Hist)
           (tickers : list string) (period interval : string) (auto_adjust : bool)
  : list (option string) :=
  fold_left (zones_one history period interval auto_adjust) tickers [].

(** All dates are in one zone, or all are naive. *)
Definition one_zone (zones : list (option string)) : bool :=
  match zones with
  | [] => true
  | z :: zs => forallb (zone_eqb z) zs
  end.

(** The number of values of a window that are present. *)
Definition count_present (s : series) : nat := length (filter notna s).

(** The last [n] values of the first [i + 1] values of a series: the
    trailing window of row [i]. *)
Definition trailing (A : Type) (n i : nat) (s : list A) : list A :=
  skipn (S i - n) (firstn (S i) s).

(** ** Recency of access *)

(** The distinct keys of a history of accesses, the most recently accessed
    first. *)
Fixpoint distinct (l : list key) : list key :=
  match l with
  | [] => []
  | k :: l' => k :: filter (fun k' => negb (key_eqb k' k)) (distinct l')
  end.

Definition recency (hist : list key) : list key := distinct (rev hist).

Definition keys_of (c : fetch_cache) : list key := map fst c.

(** The time of the last access to [k]: the position of its last occurrence
    in the history, which starts at time [n]. *)
Fixpoint last_access_from (n : nat) (hist : list key) (k : key) : option nat :=
  match hist with
  | [] => None
  | x :: hist' =>
      match last_access_from (S n) hist' k with
      | Some t => Some t
      | None => if key_eqb x k then Some n else None
      end
  end.

Definition last_access (hist : list key) (k : key) : option nat :=
  last_access_from 0 hist k.

(** [k1] was last accessed later than [k2] was. *)
Definition accessed_after (hist : list key) (k1 k2 : key) : Prop :=
  exists t1 t2 : nat,
    last_access hist k1 = Some t1
    /\ last_access hist k2 = Some t2
    /\ (t2 < t1)%nat.

(** The cache a call leaves behind. *)
Definition cache_after (A : Type) (res : (result A * fetch_cache) * heap)
  : fetch_cache := snd (fst res).

Definition comma_free (s : string) : Prop :=
  forallb (fun c => negb (Ascii.eqb c ",")) (list_ascii_of_string s) = true.

End Vocabulary.
Import Vocabulary.

(* ================================================================== *)
(** * Sample tables *)
(* ================================================================== *)

Module Samples.

Local Open Scope string_scope.

Definition tidy_columns : list string :=
  ["date"; "open"; "high"; "low"; "close"; "volume"; "ticker"].

(** A row that only carries a close. *)
Definition bar (T : string) (d : Z) (c : Z) : Row :=
  mkRow (Some d) T (fun col => if String.eqb col "close" then of_Z c else NaN).

(** A row without a close. *)
Definition no_close (T : string) (d : Z) : Row :=
  mkRow (Some d) T (fun _ => NaN).

Definition table (rs : list Row) : Frame := mkFrame tidy_columns rs.

(** Three closes of one ticker. *)
Definition three_closes : Frame :=
  table [bar "X" 0 100; bar "X" 1 101; bar "X" 2 99].

(** The five closes 100, 101, 99, 99, 103 of one ticker. *)
Definition five_closes : Frame :=
  table [bar "X" 0 100; bar "X" 1 101; bar "X" 2 99; bar "X" 3 99; bar "X" 4 103].

(** A close of zero followed by a close of 100. *)
Definition zero_then_100 : Frame :=
  table [bar "X" 0 0; bar "X" 1 100].

(** A close of zero between two closes of one. *)
Definition one_zero_one : Frame :=
  table [bar "X" 0 1; bar "X" 1 0; bar "X" 2 1].

(** The closes 1, 3, 1. *)
Definition one_three_one : Frame :=
  table [bar "X" 0 1; bar "X" 1 3; bar "X" 2 1].

(** An absent close between the closes 1 and 2. *)
Definition one_absent_two : Frame :=
  table [bar "X" 0 1; no_close "X" 1; bar "X" 2 2].

(** A close of minus zero followed by a close of 100. *)
Definition minus_zero_then_100 : Frame :=
  table [mkRow (Some 0%Z) "X" (fun _ => S754_zero true); bar "X" 1 100].

(** The closes 1, [2 ** 600], [2 ** 600], [2 ** 601]: the returns are
    [2 ** 600], 0 and 1. *)
Definition huge_step : Frame :=
  table [bar "X" 0 1; bar "X" 1 (2 ^ 600); bar "X" 2 (2 ^ 600); bar "X" 3 (2 ^ 601)].

(** The close [2 ** -600] followed by the close [2 ** 600]. *)
Definition tiny_then_huge : Frame :=
  table [mkRow (Some 0%Z) "X" (fun _ => S754_finite false 4503599627370496 (-652));
         mkRow (Some 1%Z) "X" (fun _ => S754_finite false 4503599627370496 548)].

(** What the provider answers for a symbol it does not know: the usual
    columns over an empty index named [Date]. *)
Definition no_bars : Hist :=
  mkHist IndexDate (Some "America/New_York")
         [Open; High; Low; Close; Volume; Dividends; StockSplits] [].

Definition provider_without_data (t period interval : string) (adj : bool) : Hist :=
  no_bars.

(** One daily bar, whatever the symbol. *)
Definition one_bar : Hist :=
  mkHist IndexDate (Some "America/New_York") [Open; High; Low; Close; Volume]
         [mkBar 0 (fun _ => of_Z 100)].

Definition provider_one_bar (t period interval : string) (adj : bool) : Hist :=
  one_bar.

(** Two bars with the same date. *)
Definition same_date_twice : Hist :=
  mkHist IndexDate (Some "America/New_York") [Open; High; Low; Close; Volume]
         [mkBar 0 (fun _ => of_Z 100); mkBar 0 (fun _ => of_Z 101)].

Definition provider_same_date_twice (t period interval : string) (adj : bool) : Hist :=
  same_date_twice.

(** A frame built empty: no index name, no column, no row. *)
Definition bare_empty : Hist := mkHist IndexUnnamed None [] [].

Definition provider_bare_empty (t period interval : string) (adj : bool) : Hist :=
  bare_empty.

(** The cache and the size of the store after the same two symbols were
    selected in one order, then in the other. *)
Definition after_both_orders : fetch_cache * nat :=
  match update_main provider_one_bar ["AAPL"; "MSFT"] "1d" [] [] with
  | ((_, c1), h1) =>
      match update_main provider_one_bar ["MSFT"; "AAPL"] "1d" c1 h1 with
      | ((_, c2), h2) => (c2, length h2)
      end
  end.

(** Symbols T0, T1, ... and the key of each at daily bars. *)
Definition symbol (n : nat) : string :=
  "T" ++ NilEmpty.string_of_uint (Nat.to_uint n).

Definition daily_key (n : nat) : key := (symbol n, "1d").

Definition sixty_four_keys : list key := map daily_key (seq 0 64).

(** The cache and the store after [_cached_fetch] was called at each key of
    a list in turn, from an empty cache and an empty store. *)
Definition after_calls (ks : list key) : fetch_cache * heap :=
  fold_left (fun (s : fetch_cache * heap) (k : key) =>
               match _cached_fetch provider_one_bar (fst k) (snd k) (fst s) (snd s) with
               | ((_, c'), h') => (c', h')
               end) ks ([], []).

Definition full_cache : fetch_cache := fst (after_calls sixty_four_keys).
Definition full_store : heap := snd (after_calls sixty_four_keys).

End Samples.
Import Samples.

(* ================================================================== *)
(** * Vocabulary for the fetch adapter *)
(* ================================================================== *)

Module FetchVocabulary.

Local Open Scope string_scope.

Definition ycol_code (y : ycol) : nat :=
  match y with
  | Open => 0 | High => 1 | Low => 2 | Close => 3 | AdjClose => 4
  | Volume => 5 | Dividends => 6 | StockSplits => 7 | CapitalGains => 8
  end.

Definition ycol_eqb (a b : ycol) : bool := Nat.eqb (ycol_code a) (ycol_code b).

Definition has_ycol (y : ycol) (cols : list ycol) : bool :=
  existsb (ycol_eqb y) cols.

(** The label of the time index after normalization. *)
Definition index_out (i : index_label) : string :=
  match i with
  | IndexDatetime => "datetime"
  | IndexDate | IndexUnnamed => "date"
  end.

(** The label of a provider column after normalization, in a frame whose
    columns are [cols]. *)
Definition label_out (cols : list ycol) (y : ycol) : string :=
  match y with
  | Open => "open" | High => "high" | Low => "low" | Close => "close"
  | AdjClose => if has_ycol Close cols then "adj_close" else "close"
  | Volume => "volume" | Dividends => "dividends"
  | StockSplits => "stock_splits" | CapitalGains => "capital_gains"
  end.

(** The close of a bar as the fetch reports it: the plain close, the
    adjusted close when the frame has no plain close, nothing otherwise. *)
Definition close_of (hst : Hist) (b : Bar) : num :=
  if has_ycol Close (hist_columns hst) then bar_val b Close
  else if has_ycol AdjClose (hist_columns hst) then bar_val b AdjClose
  else NaN.

(** The price and volume columns of a tidy table. *)
Definition ohlcv : list string := ["open"; "high"; "low"; "close"; "volume"].

(** The cell of a bar in a column of the tidy table: absent when the frame
    of the provider has no column for it. *)
Definition cell_of (hst : Hist) (b : Bar) (c : string) : num :=
  let pick (y : ycol) :=
    if has_ycol y (hist_columns hst) then bar_val b y else NaN in
  if String.eqb c "open" then pick Open
  else if String.eqb c "high" then pick High
  else if String.eqb c "low" then pick Low
  else if String.eqb c "close" then close_of hst b
  else if String.eqb c "volume" then pick Volume
  else NaN.

(** The date of a bar in the tidy table: its time when the index of the
    frame becomes the date column. *)
Definition date_of (hst : Hist) (b : Bar) : option Z :=
  match index_name hst with
  | IndexDatetime => None
  | IndexDate | IndexUnnamed => Some (bar_time b)
  end.

(** The canonical columns the loop keeps of a frame. *)
Definition kept (hst : Hist) : list string :=
  filter (fun c => mem c (labels (_normalize_columns hst))) canonical.

(** The record of a bar in the frame after [reset_index]. *)
Definition cells_of (hst : Hist) (b : Bar) : list cell :=
  CTime (bar_time b) :: map (fun y => CNum (bar_val b y)) (hist_columns hst).

(** Whether the normalized frame has the canonical column [c]. *)
Definition provides (hst : Hist) (c : string) : bool :=
  let has (y : ycol) := has_ycol y (hist_columns hst) in
  if String.eqb c "date"
  then match index_name hst with IndexDatetime => false | _ => true end
  else if String.eqb c "open" then has Open
  else if String.eqb c "high" then has High
  else if String.eqb c "low" then has Low
  else if String.eqb c "close" then has Close || has AdjClose
  else if String.eqb c "volume" then has Volume
  else false.

(** What a row of a tidy table shows, and what a bar of the provider is
    expected to show under ticker [t]. *)
Definition row_view (r : Row) : string * option Z * list num :=
  (ticker r, date r, map (vals r) ohlcv).

Definition bar_view (hst : Hist) (t : string) (b : Bar)
  : string * option Z * list num :=
  (t, date_of hst b, map (cell_of hst b) ohlcv).

(** The frames the provider returns for [tickers] have no column twice. *)
Definition distinct_columns (history : string -> string -> string -> bool -> Hist)
           (tickers : list string) (period interval : string) (auto_adjust : bool)
  : Prop :=
  forall t, In t tickers ->
            NoDup (map ycol_code (hist_columns (history t period interval auto_adjust))).

(** A frame none of whose columns is a price or volume column. *)
Definition no_ohlcv (hst : Hist) : bool :=
  forallb (fun y => (6 <=? ycol_code y)%nat) (hist_columns hst).

(** One hourly bar, whatever the symbol. *)
Definition intraday : Hist :=
  mkHist IndexDatetime (Some "America/New_York") [Open; High; Low; Close; Volume]
         [mkBar 0 (fun _ => of_Z 100)].

Definition provider_intraday (t period interval : string) (adj : bool) : Hist :=
  intraday.

(** The frames of the requested tickers that bring dates to the table (a
    time index named Date or unnamed, and at least one bar) are all in one
    time zone, or all naive. *)
Definition one_time_zone (history : string -> string -> string -> bool -> Hist)
           (tickers : list string) (period interval : string) (auto_adjust : bool)
  : Prop :=
  forall t u, In t tickers -> In u tickers ->
    let ht := history t period interval auto_adjust in
    let hu := history u period interval auto_adjust in
    index_name ht <> IndexDatetime -> bars ht <> [] ->
    index_name hu <> IndexDatetime -> bars hu <> [] ->
    index_tz ht = index_tz hu.

(** One daily bar, dated in London for the symbols of its exchange (suffix
    [.L]) and in New York for the others. *)
Definition one_bar_london : Hist :=
  mkHist IndexDate (Some "Europe/London") [Open; High; Low; Close; Volume]
         [mkBar 0 (fun _ => of_Z 100)].

Definition provider_two_zones (t period interval : string) (adj : bool) : Hist :=
  if String.eqb t "VOD.L" then one_bar_london else one_bar.

End FetchVocabulary.
Import FetchVocabulary.

(* ================================================================== *)
(** * Vocabulary for the transforms on incomplete tables *)
(* ================================================================== *)

Module TransformVocabulary.

Local Open Scope string_scope.

(** [compute_volatility] can run on [t]: the sort keys are there, and the
    returns or the closes to compute them from. *)
Definition volatility_ready (t : Frame) : bool :=
  has_column "ticker" (columns t) && has_column "date" (columns t)
  && (has_column "daily_return" (columns t) || has_column "close" (columns t)).

(** A table of returns without closes. *)
Definition returns_only : Frame :=
  mkFrame ["date"; "ticker"; "daily_return"]
          [mkRow (Some 0%Z) "X" (fun _ => zero)].

End TransformVocabulary.
Import TransformVocabulary.

(* ================================================================== *)
(** * app/callbacks.py: the date filter and the KPI values *)
(* ================================================================== *)

Module Dashboard.

Local Open Scope string_scope.

(** Truth value of a date of the picker, [None] or a string. *)
Definition truthy (s : option string) : bool :=
  match s with
  | Some (String _ _) => true
  | _ => false
  end.

(** [long["date"] >= ts] and [long["date"] <= ts] in one row: a comparison
    with NaT is false. *)
Definition ge_ts (d ts : option Z) : bool :=
  match d, ts with
  | Some z, Some a => (a <=? z)%Z
  | _, _ => false
  end.

Definition le_ts (d ts : option Z) : bool :=
  match d, ts with
  | Some z, Some b => (z <=? b)%Z
  | _, _ => false
  end.

Section WithParser.

(** [pd.to_datetime] on a string: an instant, NaT, or an error. *)
Variable to_datetime : string -> result (option Z).

(** The optional date filter of [update_main]: [long[m]] is a new frame. *)
Definition date_filter (start_date end_date : option string) (long : ref) : M ref :=
  match start_date, end_date with
  | Some s, Some e =>
      if truthy start_date && truthy end_date
      then
        t <- deref long ;;
        require_column "date" t ;;
        lo <- (fun h => (to_datetime s, h)) ;;
        require_column "date" t ;;
        hi <- (fun h => (to_datetime e, h)) ;;
        alloc (mkFrame (columns t)
                       (filter (fun r => ge_ts (date r) lo && le_ts (date r) hi)
                               (rows t)))
      else ret long
  | _, _ => ret long
  end.

End WithParser.

(** [s.iloc[-1]] *)
Definition iloc_last (A : Type) (s : list A) : option A := last (map Some s) None.

(** [long[long["ticker"] == pick].dropna(subset=["close"])] *)
Definition priced_rows (long : Frame) (pick : string) : list Row :=
  filter (fun r => notna (vals r "close"))
         (filter (fun r => String.eqb (ticker r) pick) (rows long)).

Record kpis : Type := mkKpis {
  last_close : option num;
  last_cum : option num;
  last_vol : option num
}.

(** The KPI values of [update_main] for the first selected ticker. *)
Definition kpi_values (long : Frame) (pick : string) : result kpis :=
  if negb (has_column "ticker" (columns long)) then Raise (KeyError "ticker")
  else if negb (has_column "close" (columns long)) then Raise (KeyError "close")
  else
    let sub := priced_rows long pick in
    let empty := match sub with [] => true | _ => false end in
    Ok (mkKpis
          (if negb empty then iloc_last (column "close" sub) else None)
          (if has_column "cum_return" (columns long) && negb empty
           then iloc_last (column "cum_return" sub) else None)
          (if has_column "vol_20d_ann" (columns long)
              && existsb notna (column "vol_20d_ann" sub)
           then iloc_last (filter notna (column "vol_20d_ann" sub)) else None)).

(** A parser that knows two days and NaT. *)
Definition day_number (s : string) : result (option Z) :=
  if String.eqb s "1" then Ok (Some 1%Z)
  else if String.eqb s "2" then Ok (Some 2%Z)
  else if String.eqb s "NaT" then Ok None
  else Raise (ValueError "Unknown datetime string format").

End Dashboard.
Import Dashboard.

(* ================================================================== *)
(** * src/transform.py: to_long *)
(* ================================================================== *)

Module ToLong.

Local Open Scope string_scope.

Section WithCells.

(** The cells of the frame, whatever they are; [of_str] is a Python string
    as a cell, [to_datetime] is [pd.to_datetime] on a column. *)
Variable A : Type.
Variable of_str : string -> A.
Variable to_datetime : list A -> result (list A).

(** A frame as [to_long] sees it: the length of its index and its
    columns in order, each with its label, an ASCII string; labels may
    repeat. *)
Record DataFrame : Type := mkDataFrame {
  nrows : nat;
  cols : list (string * list A)
}.

Definition names (cs : list (string * list A)) : list string := map fst cs.

(** [c.lower().replace(" ", "_")] *)
Definition lower_snake (c : string) : string :=
  PyStr.replace_char " " "_" (PyStr.lower c).

Definition need : list string := ["date"; "open"; "high"; "low"; "close"].

Definition long_columns : list string :=
  ["date"; "ticker"; "open"; "high"; "low"; "close"; "volume"].

(** [df[k]] in a list of keys: every column labelled [k]. *)
Definition labelled (k : string) (cs : list (string * list A))
  : list (string * list A) :=
  filter (fun c => String.eqb (fst c) k) cs.

Definition to_long (df : DataFrame) : result DataFrame :=
  let found := map lower_snake (names (cols df)) in
  if negb (forallb (fun n => mem n found) need)
  then Raise (ValueError
                "to_long expected OHLC columns. Prefer download_history_tidy().")
  else
    (* out = df.copy(); out.columns = [...] *)
    let out := map (fun c => (lower_snake (fst c), snd c)) (cols df) in
    (* if "ticker" not in out.columns: out["ticker"] = "TICKER" *)
    let out := if mem "ticker" (names out) then out
               else (out ++ [("ticker", repeat (of_str "TICKER") (nrows df))])%list in
    let keep := filter (fun c => mem c (names out)) long_columns in
    (* out = out[keep].copy() *)
    let out := flat_map (fun k => labelled k out) keep in
    (* out["date"] = pd.to_datetime(out["date"]) *)
    match labelled "date" out with
    | [(_, d)] =>
        match to_datetime d with
        | Ok d' =>
            Ok (mkDataFrame (nrows df)
                  (map (fun c => if String.eqb (fst c) "date" then ("date", d') else c)
                       out))
        | Raise e => Raise e
        end
    | _ => Raise (ValueError
                    "to assemble mappings requires at least that [year, month, day] be specified")
    end.

(** The column labelled [k], the first one if several are. *)
Definition get (k : string) (cs : list (string * list A)) : option (list A) :=
  option_map snd (find (fun c => String.eqb (fst c) k) cs).

(** The columns of [df] under their normalized labels. *)
Definition normalized (df : DataFrame) : list (string * list A) :=
  map (fun c => (lower_snake (fst c), snd c)) (cols df).

End WithCells.

(** A wide frame of two rows, its columns in no particular order, with one
    column that is not a price. *)
Definition wide_sample : DataFrame nat :=
  mkDataFrame 2 [("Close", [3; 4]); ("Date", [1; 2]); ("Open", [5; 6]);
                 ("High", [7; 8]); ("Low", [9; 10]); ("Stock Splits", [0; 0])].

(** A frame without a close. *)
Definition no_close_sample : DataFrame nat :=
  mkDataFrame 1 [("Date", [1]); ("Open", [5]); ("High", [7]); ("Low", [9])].

End ToLong.

Unset Implicit Arguments.

(* ================================================================== *)
(** * Facts about float64 values *)
(* ================================================================== *)

Section FloatFacts.

Local Open Scope Z_scope.

Lemma fdiv_nan_r (x : num) : fdiv x NaN = NaN.
Proof. destruct x; reflexivity. Qed.

Lemma one_finite : one = S754_finite false 4503599627370496 (-52).
Proof. reflexivity. Qed.

Lemma has_sign_notna (s : bool) (x : num) : has_sign s x = true -> isna x = false.
Proof. destruct x; [reflexivity | reflexivity | discriminate | reflexivity]. Qed.

(** ** Rounding

    The rounding of a mantissa that is not negative is a number of the
    sign it was given, never NaN. *)

Lemma shr_1_nonneg (mrs : shr_record) : 0 <= shr_m mrs -> 0 <= shr_m (shr_1 mrs).
Proof.
  destruct mrs as [m r s]. cbn [shr_m]. intros H.
  destruct m as [| p | p]; [cbn; lia | | lia].
  destruct p; cbn; lia.
Qed.

Lemma iter_shr_1_nonneg (p : positive) (mrs : shr_record) :
  0 <= shr_m mrs -> 0 <= shr_m (iter_pos shr_1 p mrs).
Proof.
  revert mrs. induction p as [p IH | p IH |]; intros mrs H; cbn [iter_pos].
  - apply IH, IH, shr_1_nonneg, H.
  - apply IH, IH, H.
  - apply shr_1_nonneg, H.
Qed.

Lemma shr_fexp_nonneg (m e : Z) (l : location) :
  0 <= m -> 0 <= shr_m (fst (shr_fexp prec emax m e l)).
Proof.
  intros H. unfold shr_fexp, shr.
  assert (H0 : 0 <= shr_m (shr_record_of_loc m l))
    by (destruct l as [| []]; exact H).
  destruct (fexp prec emax (Zdigits2 m + e) - e) as [| p | p]; cbn [fst];
    [exact H0 | apply iter_shr_1_nonneg, H0 | exact H0].
Qed.

Lemma round_nearest_even_nonneg (m : Z) (l : location) :
  0 <= m -> 0 <= round_nearest_even m l.
Proof.
  intros H. destruct l as [| []]; cbn [round_nearest_even]; try lia.
  destruct (Z.even m); lia.
Qed.

Lemma binary_round_aux_sign (s : bool) (m e : Z) (l : location) :
  0 <= m -> has_sign s (binary_round_aux prec emax s m e l) = true.
Proof.
  intros H. unfold binary_round_aux.
  pose proof (shr_fexp_nonneg m e l H) as H1.
  destruct (shr_fexp prec emax m e l) as [mrs' e'] eqn:E1. cbn [fst] in H1.
  pose proof (shr_fexp_nonneg _ e' loc_Exact
                (round_nearest_even_nonneg _ (loc_of_shr_record mrs') H1)) as H2.
  destruct (shr_fexp prec emax _ e' loc_Exact) as [mrs'' e''] eqn:E2.
  cbn [fst] in H2.
  destruct (shr_m mrs'') as [| p | p]; [| | lia].
  - cbn. apply eqb_reflx.
  - destruct (e'' <=? emax - prec); cbn; apply eqb_reflx.
Qed.

Lemma binary_round_sign (s : bool) (m : positive) (e : Z) :
  has_sign s (binary_round prec emax s m e) = true.
Proof.
  unfold binary_round.
  destruct (shl_align m e _) as [mz ez].
  apply binary_round_aux_sign. lia.
Qed.

Lemma binary_normalize_notna (m e : Z) (s : bool) :
  isna (binary_normalize prec emax m e s) = false.
Proof.
  destruct m as [| p | p]; cbn [binary_normalize]; [reflexivity | |];
    eapply has_sign_notna, binary_round_sign.
Qed.

Lemma binary_normalize_pos (p : positive) (e : Z) (s : bool) :
  has_sign false (binary_normalize prec emax (Zpos p) e s) = true.
Proof. apply binary_round_sign. Qed.

(** ** The operations on numbers *)

(** A sum is absent only for an absent term or for opposite infinities. *)
Lemma fadd_finite_notna (x y : num) :
  is_finite x = true -> isna y = false -> isna (fadd x y) = false.
Proof.
  destruct x as [sx | sx | | sx mx ex]; try discriminate; intros _;
    destruct y as [sy | sy | | sy my ey]; try discriminate; intros _;
    try reflexivity.
  - destruct sx, sy; reflexivity.
  - apply binary_normalize_notna.
Qed.

Lemma fadd_one_isna (x : num) : isna (fadd one x) = isna x.
Proof.
  destruct x as [s | s | | s m e]; try reflexivity.
  apply fadd_finite_notna; reflexivity.
Qed.

Lemma fsub_finite_notna (x y : num) :
  is_finite x = true -> isna y = false -> isna (fsub x y) = false.
Proof.
  destruct x as [sx | sx | | sx mx ex]; try discriminate; intros _;
    destruct y as [sy | sy | | sy my ey]; try discriminate; intros _;
    try reflexivity.
  - destruct sx, sy; reflexivity.
  - apply binary_normalize_notna.
Qed.

Lemma fsub_inf_one (s : bool) : fsub (Inf s) one = Inf s.
Proof. reflexivity. Qed.

Lemma fsub_nan_l (y : num) : fsub NaN y = NaN.
Proof. reflexivity. Qed.

(** A quotient by a zero is an infinity, or absent for a zero dividend. *)
Lemma fdiv_by_zero (x : num) (s0 : bool) :
  fdiv x (S754_zero s0)
  = match x with
    | NaN | S754_zero _ => NaN
    | Inf s | S754_finite s _ _ => Inf (xorb s s0)
    end.
Proof. destruct x; reflexivity. Qed.

Lemma has_sign_fle (x : num) : has_sign false x = true -> fle zero x = true.
Proof.
  destruct x as [s | s | | s m e]; try discriminate;
    destruct s; try discriminate; reflexivity.
Qed.

Lemma fmul_pos_finite (x : num) (m : positive) (e : Z) :
  has_sign false x = true ->
  has_sign false (fmul x (S754_finite false m e)) = true.
Proof.
  destruct x as [s | s | | s mx ex]; try discriminate;
    destruct s; try discriminate; intros _; try reflexivity.
  unfold fmul, SFmul. apply binary_round_aux_sign. lia.
Qed.

Lemma sqrt_core_nonneg (m : positive) (e : Z) :
  0 <= fst (fst (SFsqrt_core_binary prec emax (Zpos m) e)).
Proof.
  unfold SFsqrt_core_binary.
  set (s := e - _).
  set (m' := match s with Z0 => Zpos m | Zpos _ => Z.shiftl (Zpos m) s | Zneg _ => 0 end).
  assert (H : 0 <= m').
  { unfold m'. destruct s; try lia. apply Z.shiftl_nonneg. lia. }
  pose proof (Z.sqrtrem_spec m' H) as Hq.
  destruct (Z.sqrtrem m') as [q r]. cbn [fst]. lia.
Qed.

Lemma fsqrt_sign (x : num) :
  has_sign false x = true -> has_sign false (fsqrt x) = true.
Proof.
  destruct x as [s | s | | s m e]; try discriminate;
    destruct s; try discriminate; intros _; try reflexivity.
  unfold fsqrt, SFsqrt.
  pose proof (sqrt_core_nonneg m e) as Hq.
  destruct (SFsqrt_core_binary prec emax (Zpos m) e) as [[mz ez] lz].
  apply binary_round_aux_sign. exact Hq.
Qed.

(** A square root is absent, or a zero, or positive. *)
Lemma fsqrt_nonneg (x : num) :
  isna (fsqrt x) = true \/ is_zero (fsqrt x) = true \/ has_sign false (fsqrt x) = true.
Proof.
  destruct x as [s | s | | s m e].
  - right. left. reflexivity.
  - destruct s; [left | right; right]; reflexivity.
  - left. reflexivity.
  - destruct s; [left; reflexivity | right; right].
    apply (fsqrt_sign (S754_finite false m e)). reflexivity.
Qed.

End FloatFacts.

(* ================================================================== *)
(** * Facts about series *)
(* ================================================================== *)

Section SeriesFacts.

Lemma length_zip_with (f : num -> num -> num) (a b : series) :
  length (zip_with f a b) = Nat.min (length a) (length b).
Proof.
  revert b. induction a as [| x a IH]; intros [| y b]; simpl; auto.
Qed.

Lemma length_ffill_from (last : num) (s : series) :
  length (ffill_from last s) = length s.
Proof.
  revert last. induction s as [| x s IH]; intros last; simpl; auto.
Qed.

Lemma length_shift1 (s : series) : length (shift1 s) = length s.
Proof. unfold shift1. rewrite length_firstn. cbn [length]. lia. Qed.

Lemma length_cumprod_from (acc : num) (s : series) :
  length (cumprod_from acc s) = length s.
Proof.
  revert acc. induction s as [| x s IH]; intros acc; simpl; auto.
  destruct (isna x); simpl; auto.
Qed.

Lemma length_roll_var_from (w minp : nat) (values : series) (i : nat)
      (st : var_state) (todo : series) :
  length (roll_var_from w minp values i st todo) = length todo.
Proof.
  revert i st. induction todo as [| x todo IH]; intros i st; [reflexivity |].
  cbn [roll_var_from length]. rewrite IH. reflexivity.
Qed.

Lemma length_rolling_std (w : nat) (s : series) :
  length (rolling_std w s) = length s.
Proof.
  unfold rolling_std, roll_var, prep_values.
  rewrite length_map, length_roll_var_from, length_map. reflexivity.
Qed.

Lemma length_pct_change (s : series) : length (pct_change s) = length s.
Proof.
  unfold pct_change, sub_scalar, ffill.
  rewrite length_map, length_zip_with, length_shift1, length_ffill_from. lia.
Qed.

Lemma nth_error_zip_with (f : num -> num -> num) (a b : series) (i : nat) (x y : num) :
  nth_error a i = Some x -> nth_error b i = Some y ->
  nth_error (zip_with f a b) i = Some (f x y).
Proof.
  revert b i. induction a as [| x0 a IH]; intros [| y0 b] [| i]; simpl;
    try discriminate; intros Ha Hb.
  - congruence.
  - auto.
Qed.

(** A present value is not touched by the forward fill. *)
Lemma nth_error_ffill_present (last : num) (s : series) (i : nat) (x : num) :
  nth_error s i = Some x -> isna x = false ->
  nth_error (ffill_from last s) i = Some x.
Proof.
  revert last i. induction s as [| y s IH]; intros last [| i]; simpl;
    try discriminate; intros H Hx.
  - inversion H; subst. rewrite Hx. reflexivity.
  - auto.
Qed.

Lemma nth_error_shift1_S (s : series) (i : nat) (x : num) :
  nth_error s i = Some x -> (S i < length s)%nat ->
  nth_error (shift1 s) (S i) = Some x.
Proof.
  intros H Hlt. unfold shift1.
  rewrite nth_error_firstn.
  destruct (Nat.ltb_spec (S i) (length s)); [exact H | lia].
Qed.

(** The first return of a group is absent. *)
Lemma pct_change_first (s : series) (x : num) :
  nth_error s 0 = Some x -> nth_error (pct_change s) 0 = Some NaN.
Proof.
  destruct s as [| y s]; simpl; [discriminate |].
  intros _. unfold pct_change, sub_scalar, ffill, shift1. simpl.
  rewrite fdiv_nan_r. reflexivity.
Qed.

(** A later return is the quotient of two consecutive closes, minus one. *)
Lemma pct_change_next (s : series) (i : nat) (p c : num) :
  nth_error s i = Some p -> nth_error s (S i) = Some c ->
  isna p = false -> isna c = false ->
  nth_error (pct_change s) (S i) = Some (fsub (fdiv c p) one).
Proof.
  intros Hp Hc Np Nc. unfold pct_change, sub_scalar.
  rewrite nth_error_map.
  rewrite (@nth_error_zip_with fdiv _ _ (S i) c p); [reflexivity | |].
  - apply nth_error_ffill_present; assumption.
  - apply nth_error_shift1_S.
    + apply nth_error_ffill_present; assumption.
    + unfold ffill. rewrite length_ffill_from.
      apply nth_error_Some. congruence.
Qed.

(** The running product at row [i]: absent where the factor is absent,
    otherwise the product of the factors present so far. *)
Lemma nth_error_cumprod_from (acc : num) (s : series) (i : nat) (x : num) :
  nth_error s i = Some x ->
  nth_error (cumprod_from acc s) i =
    Some (if isna x then NaN
          else fold_left fmul (filter notna (firstn (S i) s)) acc).
Proof.
  revert acc i. induction s as [| y s IH]; intros acc [| i]; simpl;
    try discriminate; intros H.
  - inversion H; subst. unfold notna.
    destruct (isna x) eqn:E; simpl; reflexivity.
  - unfold notna at 1.
    destruct (isna y) eqn:E; simpl; rewrite (IH _ _ H); reflexivity.
Qed.

Lemma nth_error_cumprod (s : series) (i : nat) (x : num) :
  nth_error s i = Some x ->
  nth_error (cumprod s) i =
    Some (if isna x then NaN else prod_present (firstn (S i) s)).
Proof. apply nth_error_cumprod_from. Qed.

End SeriesFacts.

(* ================================================================== *)
(** * Facts about grouping *)
(* ================================================================== *)

Section GroupFacts.

Lemma select_app (A : Type) (k : string) (a b : list (string * A)) :
  select k (a ++ b) = select k a ++ select k b.
Proof. unfold select. rewrite filter_app, map_app. reflexivity. Qed.

Lemma select_cons_eq (A : Type) (k : string) (x : A) (l : list (string * A)) :
  select k ((k, x) :: l) = x :: select k l.
Proof. unfold select. simpl. rewrite String.eqb_refl. reflexivity. Qed.

Lemma select_cons_neq (A : Type) (k k' : string) (x : A) (l : list (string * A)) :
  k' <> k -> select k ((k', x) :: l) = select k l.
Proof.
  intros N. unfold select. simpl.
  destruct (String.eqb_spec k' k); [contradiction | reflexivity].
Qed.

Lemma length_gapply_aux (f : series -> series) (all seen rest : list (string * num)) :
  length (gapply_aux f all seen rest) = length rest.
Proof.
  revert seen. induction rest as [| [k x] rest IH]; intros seen; simpl; auto.
Qed.

Lemma length_gapply (f : series -> series) (keys : list string) (s : series) :
  length keys = length s -> length (gapply f keys s) = length s.
Proof.
  intros H. unfold gapply. rewrite length_gapply_aux, length_combine. lia.
Qed.

Lemma skipn_nth_cons (A : Type) (n : nat) (l : list A) (d : A) :
  (n < length l)%nat -> skipn n l = nth n l d :: skipn (S n) l.
Proof.
  revert l. induction n as [| n IH]; intros [| x l] H; simpl in *; try lia.
  - reflexivity.
  - apply IH. lia.
Qed.

(** The results that go back to the rows of one group are, in order, what
    [f] returns on the values of that group. *)
Lemma gapply_aux_select (f : series -> series) (T : string)
      (all seen rest : list (string * num)) :
  (forall l, length (f l) = length l) ->
  all = seen ++ rest ->
  select T (combine (map fst rest) (gapply_aux f all seen rest))
  = skipn (length (select T seen)) (f (select T all)).
Proof.
  intros Hf. revert seen.
  induction rest as [| [k x] rest IH]; intros seen Hall.
  - simpl. rewrite app_nil_r in Hall. subst all.
    unfold select at 1. simpl.
    rewrite skipn_all2; [reflexivity | rewrite Hf; lia].
  - simpl.
    assert (Hall' : all = (seen ++ [(k, x)]) ++ rest)
      by (rewrite <- app_assoc; exact Hall).
    specialize (IH _ Hall').
    destruct (String.eqb_spec k T) as [E | N].
    + subst k. rewrite select_cons_eq, IH.
      rewrite select_app, select_cons_eq, length_app. simpl.
      replace (length (select T seen) + 1)%nat with (S (length (select T seen))) by lia.
      symmetry. apply skipn_nth_cons.
      rewrite Hf, Hall, select_app, select_cons_eq, length_app. simpl. lia.
    + rewrite select_cons_neq by assumption. rewrite IH.
      rewrite select_app, select_cons_neq by assumption.
      unfold select at 2. simpl. rewrite app_nil_r. reflexivity.
Qed.

Lemma map_fst_combine (A B : Type) (a : list A) (b : list B) :
  length a = length b -> map fst (combine a b) = a.
Proof.
  revert b. induction a as [| x a IH]; intros [| y b] H; simpl in *;
    try discriminate; auto.
  f_equal. apply IH. lia.
Qed.

Theorem gapply_select (f : series -> series) (T : string)
        (keys : list string) (s : series) :
  (forall l, length (f l) = length l) ->
  length keys = length s ->
  select T (combine keys (gapply f keys s)) = f (select T (combine keys s)).
Proof.
  intros Hf Hlen. unfold gapply.
  pose proof (@gapply_aux_select f T (combine keys s) [] (combine keys s) Hf eq_refl) as H.
  rewrite map_fst_combine in H by assumption.
  exact H.
Qed.

Lemma select_zip_with (f : num -> num -> num) (T : string)
      (keys : list string) (a b : series) :
  length keys = length a -> length keys = length b ->
  select T (combine keys (zip_with f a b))
  = zip_with f (select T (combine keys a)) (select T (combine keys b)).
Proof.
  revert a b. induction keys as [| k keys IH]; intros [| x a] [| y b] Ha Hb;
    simpl in *; try discriminate; [reflexivity |].
  destruct (String.eqb_spec k T) as [E | N].
  - subst k. rewrite !select_cons_eq. simpl. f_equal. apply IH; lia.
  - rewrite !select_cons_neq by assumption. apply IH; lia.
Qed.

Lemma select_map (g : num -> num) (T : string) (keys : list string) (a : series) :
  select T (combine keys (map g a)) = map g (select T (combine keys a)).
Proof.
  revert a. induction keys as [| k keys IH]; intros [| x a]; simpl; try reflexivity.
  destruct (String.eqb_spec k T) as [E | N].
  - subst k. rewrite !select_cons_eq. simpl. f_equal. apply IH.
  - rewrite !select_cons_neq by assumption. apply IH.
Qed.

(** Grouped [pct_change] is [pct_change] on every group. *)
Lemma groupby_pct_change_select (T : string) (keys : list string) (s : series) :
  length keys = length s ->
  select T (combine keys (groupby_pct_change keys s))
  = pct_change (select T (combine keys s)).
Proof.
  intros Hlen. unfold groupby_pct_change, pct_change, sub_scalar.
  assert (Lf : length keys = length (gapply ffill keys s)).
  { rewrite length_gapply; assumption. }
  rewrite select_map, select_zip_with.
  - rewrite (gapply_select shift1) by (auto using length_shift1).
    rewrite (gapply_select ffill) by (auto; intros; apply length_ffill_from).
    reflexivity.
  - exact Lf.
  - rewrite length_gapply; assumption.
Qed.

Lemma groupby_cumprod_select (T : string) (keys : list string) (s : series) :
  length keys = length s ->
  select T (combine keys (groupby_cumprod keys s))
  = cumprod (select T (combine keys s)).
Proof.
  intros Hlen. unfold groupby_cumprod.
  apply gapply_select; [intros; apply length_cumprod_from | assumption].
Qed.

Lemma groupby_rolling_std_select (w : nat) (T : string) (keys : list string) (s : series) :
  length keys = length s ->
  select T (combine keys (groupby_rolling_std w keys s))
  = rolling_std w (select T (combine keys s)).
Proof.
  intros Hlen. unfold groupby_rolling_std.
  apply gapply_select; [intros; apply length_rolling_std | assumption].
Qed.

Lemma length_groupby_pct_change (keys : list string) (s : series) :
  length keys = length s -> length (groupby_pct_change keys s) = length s.
Proof.
  intros H. unfold groupby_pct_change, sub_scalar.
  rewrite length_map, length_zip_with, !length_gapply; try assumption; try lia.
  rewrite length_gapply; assumption.
Qed.

End GroupFacts.

(* ================================================================== *)
(** * Facts about the sort order *)
(* ================================================================== *)

Section OrderFacts.

Lemma ascii_compare_refl (a : ascii) : Ascii.compare a a = Eq.
Proof. unfold Ascii.compare. apply N.compare_refl. Qed.

Lemma ascii_compare_lt_trans (a b c : ascii) :
  Ascii.compare a b = Lt -> Ascii.compare b c = Lt -> Ascii.compare a c = Lt.
Proof.
  unfold Ascii.compare. rewrite !N.compare_lt_iff. apply N.lt_trans.
Qed.

Lemma string_compare_refl (s : string) : String.compare s s = Eq.
Proof.
  induction s as [| a s IH]; simpl; [reflexivity |].
  rewrite ascii_compare_refl. exact IH.
Qed.

Lemma string_compare_lt_trans (a b c : string) :
  String.compare a b = Lt -> String.compare b c = Lt -> String.compare a c = Lt.
Proof.
  revert b c. induction a as [| x a IH]; intros [| y b] [| z c]; simpl;
    try discriminate; auto.
  destruct (Ascii.compare x y) eqn:E1; try discriminate;
    destruct (Ascii.compare y z) eqn:E2; try discriminate; intros H1 H2.
  - apply Ascii.compare_eq_iff in E1, E2. subst.
    rewrite ascii_compare_refl. eauto.
  - apply Ascii.compare_eq_iff in E1. subst. rewrite E2. reflexivity.
  - apply Ascii.compare_eq_iff in E2. subst. rewrite E1. reflexivity.
  - rewrite (ascii_compare_lt_trans _ _ _ E1 E2). reflexivity.
Qed.

Lemma string_compare_gt_lt (a b : string) :
  String.compare a b = Gt -> String.compare b a = Lt.
Proof.
  intros H. rewrite String.compare_antisym, H. reflexivity.
Qed.

Lemma date_leb_total (a b : option Z) :
  date_leb a b = false -> date_leb b a = true.
Proof.
  destruct a, b; simpl; try discriminate; auto.
  rewrite Z.leb_gt, Z.leb_le. lia.
Qed.

Lemma date_leb_trans (a b c : option Z) :
  date_leb a b = true -> date_leb b c = true -> date_leb a c = true.
Proof.
  destruct a, b, c; simpl; try discriminate; auto.
  rewrite !Z.leb_le. lia.
Qed.

Lemma date_leb_antisym (a b : option Z) :
  date_leb a b = true -> date_leb b a = true -> a = b.
Proof.
  destruct a, b; simpl; try discriminate; auto.
  rewrite !Z.leb_le. intros. f_equal. lia.
Qed.

Lemma key_leb_total (a b : Row) : key_leb a b = false -> key_leb b a = true.
Proof.
  unfold key_leb.
  destruct (String.compare (ticker a) (ticker b)) eqn:E; try discriminate.
  - apply String.compare_eq_iff in E. rewrite E, string_compare_refl.
    apply date_leb_total.
  - rewrite (string_compare_gt_lt _ _ E). reflexivity.
Qed.

Lemma key_leb_trans (a b c : Row) :
  key_leb a b = true -> key_leb b c = true -> key_leb a c = true.
Proof.
  unfold key_leb.
  destruct (String.compare (ticker a) (ticker b)) eqn:E1; try discriminate;
    destruct (String.compare (ticker b) (ticker c)) eqn:E2; try discriminate.
  - apply String.compare_eq_iff in E1, E2. rewrite E1, E2, string_compare_refl.
    apply date_leb_trans.
  - apply String.compare_eq_iff in E1. rewrite E1, E2. reflexivity.
  - apply String.compare_eq_iff in E2. rewrite <- E2, E1. reflexivity.
  - rewrite (string_compare_lt_trans _ _ _ E1 E2). reflexivity.
Qed.

(** Rows of one ticker are ordered by their dates. *)
Lemma key_leb_same_ticker (a b : Row) :
  ticker a = ticker b -> key_leb a b = date_leb (date a) (date b).
Proof.
  intros E. unfold key_leb. rewrite E, string_compare_refl. reflexivity.
Qed.

Lemma insert_row_perm (x : Row) (l : list Row) :
  Permutation (insert_row x l) (x :: l).
Proof.
  induction l as [| y l IH]; simpl; [reflexivity |].
  destruct (key_leb x y); [reflexivity |].
  rewrite IH. apply perm_swap.
Qed.

Lemma sort_rows_perm (l : list Row) : Permutation (sort_rows l) l.
Proof.
  induction l as [| x l IH]; simpl; [reflexivity |].
  rewrite insert_row_perm. apply perm_skip. exact IH.
Qed.

Lemma insert_row_sorted (x : Row) (l : list Row) :
  StronglySorted key_le l -> StronglySorted key_le (insert_row x l).
Proof.
  induction 1 as [| y l Hs IH Hall]; simpl.
  - repeat constructor.
  - destruct (key_leb x y) eqn:E.
    + constructor; [constructor; assumption |].
      constructor; [exact E |].
      eapply Forall_impl; [| exact Hall].
      intros z Hz. eapply key_leb_trans; eassumption.
    + constructor; [exact IH |].
      eapply Permutation_Forall; [symmetry; apply insert_row_perm |].
      constructor; [apply key_leb_total; exact E | exact Hall].
Qed.

Lemma sort_rows_sorted (l : list Row) : StronglySorted key_le (sort_rows l).
Proof.
  induction l as [| x l IH]; simpl; [constructor | apply insert_row_sorted, IH].
Qed.

(** Sorting a sorted table changes nothing. *)
Lemma sort_rows_id (l : list Row) : StronglySorted key_le l -> sort_rows l = l.
Proof.
  induction 1 as [| x l Hs IH Hall]; simpl; [reflexivity |].
  rewrite IH. destruct l as [| y l]; simpl; [reflexivity |].
  inversion Hall as [| ? ? Hxy _]; subst. unfold key_le in Hxy. rewrite Hxy.
  reflexivity.
Qed.

End OrderFacts.

(* ================================================================== *)
(** * Facts about frames *)
(* ================================================================== *)

Section FrameFacts.

Lemma length_column (c : string) (rs : list Row) : length (column c rs) = length rs.
Proof. apply length_map. Qed.

Lemma length_tickers_of (rs : list Row) : length (tickers_of rs) = length rs.
Proof. apply length_map. Qed.

Lemma length_assign (c : string) (s : series) (rs : list Row) :
  length s = length rs -> length (assign c s rs) = length rs.
Proof.
  revert s. induction rs as [| r rs IH]; intros [| v s] H; simpl in *;
    try discriminate; auto.
Qed.

Lemma tickers_of_assign (c : string) (s : series) (rs : list Row) :
  length s = length rs -> tickers_of (assign c s rs) = tickers_of rs.
Proof.
  revert s. induction rs as [| r rs IH]; intros [| v s] H; simpl in *;
    try discriminate; auto.
  f_equal. apply IH. lia.
Qed.

Lemma map_key_assign (c : string) (s : series) (rs : list Row) :
  length s = length rs -> map key_of (assign c s rs) = map key_of rs.
Proof.
  revert s. induction rs as [| r rs IH]; intros [| v s] H; simpl in *;
    try discriminate; auto.
  f_equal. apply IH. lia.
Qed.

Lemma column_assign_same (c : string) (s : series) (rs : list Row) :
  length s = length rs -> column c (assign c s rs) = s.
Proof.
  revert s. induction rs as [| r rs IH]; intros [| v s] H; simpl in *;
    try discriminate; auto.
  rewrite String.eqb_refl. f_equal. apply IH. lia.
Qed.

Lemma column_assign_other (c c' : string) (s : series) (rs : list Row) :
  c' <> c -> length s = length rs ->
  column c' (assign c s rs) = column c' rs.
Proof.
  intros N. revert s. induction rs as [| r rs IH]; intros [| v s] H; simpl in *;
    try discriminate; auto.
  destruct (String.eqb_spec c' c); [contradiction |].
  f_equal. apply IH. lia.
Qed.

(** A column of a group is the group of the column. *)
Lemma column_group (c : string) (T : string) (rs : list Row) :
  column c (group T rs) = select T (combine (tickers_of rs) (column c rs)).
Proof.
  induction rs as [| r rs IH]; simpl; [reflexivity |].
  destruct (String.eqb_spec (ticker r) T) as [E | N].
  - rewrite <- E at 2. rewrite E. rewrite select_cons_eq. simpl. f_equal. exact IH.
  - rewrite select_cons_neq by assumption. exact IH.
Qed.

Lemma column_group_assign_same (c : string) (T : string) (s : series) (rs : list Row) :
  length s = length rs ->
  column c (group T (assign c s rs)) = select T (combine (tickers_of rs) s).
Proof.
  intros H. rewrite column_group, tickers_of_assign, column_assign_same; auto.
Qed.

Lemma column_group_assign_other (c c' : string) (T : string) (s : series) (rs : list Row) :
  c' <> c -> length s = length rs ->
  column c' (group T (assign c s rs)) = column c' (group T rs).
Proof.
  intros N H.
  rewrite !column_group, tickers_of_assign, column_assign_other; auto.
Qed.

Lemma nth_error_column (c : string) (rs : list Row) (i : nat) (r : Row) :
  nth_error rs i = Some r -> nth_error (column c rs) i = Some (vals r c).
Proof. intros H. unfold column. rewrite nth_error_map, H. reflexivity. Qed.

Lemma has_column_add_same (c : string) (cols : list string) :
  has_column c (add_column c cols) = true.
Proof.
  unfold add_column. destruct (has_column c cols) eqn:E; [exact E |].
  unfold has_column. rewrite existsb_app. simpl.
  rewrite String.eqb_refl, orb_true_r. reflexivity.
Qed.

Lemma has_column_add_other (c c' : string) (cols : list string) :
  has_column c' cols = true -> has_column c' (add_column c cols) = true.
Proof.
  intros H. unfold add_column. destruct (has_column c cols); [exact H |].
  unfold has_column in *. rewrite existsb_app, H. reflexivity.
Qed.

Lemma add_column_present (c : string) (cols : list string) :
  has_column c cols = true -> add_column c cols = cols.
Proof. intros H. unfold add_column. rewrite H. reflexivity. Qed.

End FrameFacts.

(* ================================================================== *)
(** * Running the transforms in a store *)
(* ================================================================== *)

Section StoreFacts.

Lemma update_last2 (h : heap) (a x t : Frame) :
  update (h ++ [a; x]) (S (length h)) t = h ++ [a; t].
Proof. induction h as [| y h IH]; simpl; [reflexivity | now rewrite IH]. Qed.

Lemma nth_error_snoc (h : heap) (x : Frame) :
  nth_error (h ++ [x]) (length h) = Some x.
Proof. rewrite nth_error_app2, Nat.sub_diag by lia. reflexivity. Qed.

Lemma nth_error_snoc2 (h : heap) (a x : Frame) :
  nth_error (h ++ [a; x]) (S (length h)) = Some x.
Proof.
  rewrite nth_error_app2 by lia.
  replace (S (length h) - length h)%nat with 1%nat by lia. reflexivity.
Qed.

End StoreFacts.

Section RunFacts.

Local Open Scope string_scope.

Lemma bind_ok (A B : Type) (m : M A) (k : A -> M B) (h h' : heap) (a : A) :
  m h = (Ok a, h') -> bind m k h = k a h'.
Proof. intros H. unfold bind. rewrite H. reflexivity. Qed.

Lemma deref_run (h : heap) (r : ref) (t : Frame) :
  nth_error h r = Some t -> deref r h = (Ok t, h).
Proof. intros H. unfold deref. rewrite H. reflexivity. Qed.

Lemma require_column_run (c : string) (t : Frame) (h : heap) :
  has_column c (columns t) = true -> require_column c t h = (Ok tt, h).
Proof. intros H. unfold require_column. rewrite H. reflexivity. Qed.

Lemma sort_values_run (h : heap) (r : ref) (t : Frame) :
  nth_error h r = Some t ->
  has_column "ticker" (columns t) = true ->
  has_column "date" (columns t) = true ->
  sort_values_ticker_date r h
  = (Ok (length h), (h ++ [mkFrame (columns t) (sort_rows (rows t))])%list).
Proof.
  intros H Ht Hd. unfold sort_values_ticker_date.
  rewrite (bind_ok _ _ _ _ _ _ _ (deref_run _ _ _ H)).
  rewrite (bind_ok _ _ _ _ _ _ _ (require_column_run _ _ _ Ht)).
  rewrite (bind_ok _ _ _ _ _ _ _ (require_column_run _ _ _ Hd)).
  reflexivity.
Qed.

Lemma copy_run (h : heap) (r : ref) (t : Frame) :
  nth_error h r = Some t -> copy r h = (Ok (length h), (h ++ [t])%list).
Proof.
  intros H. unfold copy. rewrite (bind_ok _ _ _ _ _ _ _ (deref_run _ _ _ H)). reflexivity.
Qed.

Lemma getitem_run (h : heap) (r : ref) (t : Frame) (c : string) :
  nth_error h r = Some t -> has_column c (columns t) = true ->
  getitem r c h = (Ok (column c (rows t)), h).
Proof.
  intros H Hc. unfold getitem.
  rewrite (bind_ok _ _ _ _ _ _ _ (deref_run _ _ _ H)).
  rewrite (bind_ok _ _ _ _ _ _ _ (require_column_run _ _ _ Hc)).
  reflexivity.
Qed.

Lemma get_tickers_run (h : heap) (r : ref) (t : Frame) :
  nth_error h r = Some t -> has_column "ticker" (columns t) = true ->
  get_tickers r h = (Ok (tickers_of (rows t)), h).
Proof.
  intros H Hc. unfold get_tickers.
  rewrite (bind_ok _ _ _ _ _ _ _ (deref_run _ _ _ H)).
  rewrite (bind_ok _ _ _ _ _ _ _ (require_column_run _ _ _ Hc)).
  reflexivity.
Qed.

Lemma setitem_run (h : heap) (r : ref) (t : Frame) (c : string) (s : series) :
  nth_error h r = Some t -> length s = length (rows t) ->
  setitem r c s h
  = (Ok tt, update h r (mkFrame (add_column c (columns t)) (assign c s (rows t)))).
Proof.
  intros H Hl. unfold setitem.
  rewrite (bind_ok _ _ _ _ _ _ _ (deref_run _ _ _ H)).
  rewrite Hl, Nat.eqb_refl. reflexivity.
Qed.

Lemma contains_run (h : heap) (r : ref) (t : Frame) (c : string) :
  nth_error h r = Some t ->
  contains r c h = (Ok (has_column c (columns t)), h).
Proof.
  intros H. unfold contains. rewrite (bind_ok _ _ _ _ _ _ _ (deref_run _ _ _ H)). reflexivity.
Qed.

Lemma is_tidy_columns (t : Frame) :
  is_tidy t = true ->
  has_column "ticker" (columns t) = true
  /\ has_column "date" (columns t) = true
  /\ has_column "close" (columns t) = true.
Proof.
  unfold is_tidy. rewrite !andb_true_iff. tauto.
Qed.

(** What [compute_returns] does to the store: two objects are added, the
    sorted copy and the frame it returns. *)
Lemma compute_returns_run (h : heap) (r : ref) (t : Frame) :
  nth_error h r = Some t -> is_tidy t = true ->
  compute_returns r h
  = (Ok (S (length h)),
     (h ++ [mkFrame (columns t) (sort_rows (rows t)); returns_frame t])%list).
Proof.
  intros H Htidy. destruct (is_tidy_columns _ Htidy) as (Ht & Hd & Hc).
  set (s := mkFrame (columns t) (sort_rows (rows t))).
  unfold compute_returns.
  rewrite (bind_ok _ _ _ _ _ _ _ (sort_values_run _ _ _ H Ht Hd)). fold s.
  rewrite (bind_ok _ _ _ _ _ _ _ (copy_run _ _ _ (nth_error_snoc h s))).
  rewrite length_app, <- app_assoc. simpl.
  replace (length h + 1)%nat with (S (length h)) by lia.
  pose proof (nth_error_snoc2 h s s) as H1.
  rewrite (bind_ok _ _ _ _ _ _ _ (get_tickers_run _ _ _ H1 Ht)).
  rewrite (bind_ok _ _ _ _ _ _ _ (getitem_run _ _ _ _ H1 Hc)).
  assert (L1 : length (groupby_pct_change (tickers_of (rows s)) (column "close" (rows s)))
               = length (rows s)).
  { rewrite length_groupby_pct_change; rewrite ?length_column, ?length_tickers_of; auto. }
  rewrite (bind_ok _ _ _ _ _ _ _ (setitem_run _ _ _ "daily_return" _ H1 L1)).
  rewrite update_last2.
  match goal with |- context [(h ++ [s; ?f])%list] => set (d := f) end.
  pose proof (nth_error_snoc2 h s d) as H2.
  assert (Hdr : has_column "daily_return" (columns d) = true)
    by apply has_column_add_same.
  assert (Htk : has_column "ticker" (columns d) = true)
    by (apply has_column_add_other; exact Ht).
  rewrite (bind_ok _ _ _ _ _ _ _ (getitem_run _ _ _ _ H2 Hdr)).
  rewrite (bind_ok _ _ _ _ _ _ _ (get_tickers_run _ _ _ H2 Htk)).
  assert (L2 : length (sub_scalar (groupby_cumprod (tickers_of (rows d))
                         (radd one (column "daily_return" (rows d)))) one)
               = length (rows d)).
  { unfold sub_scalar, groupby_cumprod, radd.
    rewrite length_map, length_gapply;
      rewrite ?length_map, ?length_column, ?length_tickers_of; reflexivity. }
  rewrite (bind_ok _ _ _ _ _ _ _ (setitem_run _ _ _ "cum_return" _ H2 L2)).
  rewrite update_last2. reflexivity.
Qed.

Lemma length_with_volatility_series (w : nat) (rs : list Row) :
  length (mul_scalar (groupby_rolling_std w (tickers_of rs)
                        (column "daily_return" rs)) sqrt_252)
  = length rs.
Proof.
  unfold mul_scalar, groupby_rolling_std.
  rewrite length_map, length_gapply;
    rewrite ?length_column, ?length_tickers_of; reflexivity.
Qed.

(** What [compute_volatility] does to the store. *)
Lemma compute_volatility_run (w : nat) (h : heap) (r : ref) (t : Frame) :
  nth_error h r = Some t -> is_tidy t = true ->
  compute_volatility r w h
  = (Ok (S (length h)),
     (h ++ [mkFrame (columns t) (sort_rows (rows t)); volatility_frame w t])%list).
Proof.
  intros H Htidy. destruct (is_tidy_columns _ Htidy) as (Ht & Hd & Hc).
  set (s := mkFrame (columns t) (sort_rows (rows t))).
  unfold compute_volatility, volatility_frame.
  rewrite (bind_ok _ _ _ _ _ _ _ (sort_values_run _ _ _ H Ht Hd)). fold s.
  rewrite (bind_ok _ _ _ _ _ _ _ (copy_run _ _ _ (nth_error_snoc h s))).
  rewrite length_app, <- app_assoc. simpl.
  replace (length h + 1)%nat with (S (length h)) by lia.
  pose proof (nth_error_snoc2 h s s) as H1.
  rewrite (bind_ok _ _ _ _ _ _ _ (contains_run _ _ _ "daily_return" H1)).
  change (columns s) with (columns t).
  destruct (has_column "daily_return" (columns t)) eqn:Hp.
  - rewrite (bind_ok _ _ (ret tt) _ _ _ tt eq_refl).
    rewrite (bind_ok _ _ _ _ _ _ _ (get_tickers_run _ _ _ H1 Ht)).
    rewrite (bind_ok _ _ _ _ _ _ _ (getitem_run _ _ _ _ H1 Hp)).
    rewrite (bind_ok _ _ _ _ _ _ _
               (setitem_run _ _ _ (vol_column w) _ H1
                  (length_with_volatility_series w (rows s)))).
    rewrite update_last2. reflexivity.
  - assert (L1 : length (groupby_pct_change (tickers_of (rows s))
                           (column "close" (rows s))) = length (rows s)).
    { rewrite length_groupby_pct_change;
        rewrite ?length_column, ?length_tickers_of; auto. }
    assert (Hinner :
      bind (get_tickers (S (length h)))
        (fun tk => bind (getitem (S (length h)) "close")
           (fun close => setitem (S (length h)) "daily_return"
                           (groupby_pct_change tk close)))
        (h ++ [s; s])%list
      = (Ok tt, (h ++ [s; mkFrame (add_column "daily_return" (columns s))
                             (with_daily_return (rows s))])%list)).
    { rewrite (bind_ok _ _ _ _ _ _ _ (get_tickers_run _ _ _ H1 Ht)).
      rewrite (bind_ok _ _ _ _ _ _ _ (getitem_run _ _ _ _ H1 Hc)).
      rewrite (setitem_run _ _ _ "daily_return" _ H1 L1).
      rewrite update_last2. reflexivity. }
    rewrite (bind_ok _ _ _ _ _ _ _ Hinner).
    match goal with |- context [(h ++ [s; ?f])%list] => set (d := f) end.
    pose proof (nth_error_snoc2 h s d) as H2.
    assert (Hdr : has_column "daily_return" (columns d) = true)
      by apply has_column_add_same.
    assert (Htk : has_column "ticker" (columns d) = true)
      by (apply has_column_add_other; exact Ht).
    rewrite (bind_ok _ _ _ _ _ _ _ (get_tickers_run _ _ _ H2 Htk)).
    rewrite (bind_ok _ _ _ _ _ _ _ (getitem_run _ _ _ _ H2 Hdr)).
    rewrite (bind_ok _ _ _ _ _ _ _
               (setitem_run _ _ _ (vol_column w) _ H2
                  (length_with_volatility_series w (rows d)))).
    rewrite update_last2. reflexivity.
Qed.

Lemma compute_returns_returns (t : Frame) :
  is_tidy t = true -> returns_to compute_returns t (returns_frame t).
Proof.
  intros Htidy h r H.
  exists (S (length h)), (h ++ [mkFrame (columns t) (sort_rows (rows t)); returns_frame t])%list.
  split; [apply compute_returns_run; assumption | apply nth_error_snoc2].
Qed.

Lemma compute_volatility_returns (w : nat) (t : Frame) :
  is_tidy t = true ->
  returns_to (fun r => compute_volatility r w) t (volatility_frame w t).
Proof.
  intros Htidy h r H.
  exists (S (length h)),
    (h ++ [mkFrame (columns t) (sort_rows (rows t)); volatility_frame w t])%list.
  split; [apply compute_volatility_run; assumption | apply nth_error_snoc2].
Qed.

End RunFacts.

(* ================================================================== *)
(** * compute_returns, group by group *)
(* ================================================================== *)

Section ReturnsFacts.

Local Open Scope string_scope.

Variable t : Frame.
Variable T : string.

Let sorted : list Row := sort_rows (rows t).
Let out : list Row := rows (returns_frame t).

Lemma length_pct_series (rs : list Row) :
  length (groupby_pct_change (tickers_of rs) (column "close" rs)) = length rs.
Proof.
  rewrite length_groupby_pct_change; rewrite ?length_column, ?length_tickers_of; auto.
Qed.

Lemma length_cum_series (rs : list Row) :
  length (sub_scalar (groupby_cumprod (tickers_of rs)
                        (radd one (column "daily_return" rs))) one)
  = length rs.
Proof.
  unfold sub_scalar, groupby_cumprod, radd.
  rewrite length_map, length_gapply;
    rewrite ?length_map, ?length_column, ?length_tickers_of; reflexivity.
Qed.

(** The rows come out in (ticker, date) order, closes untouched. *)
Lemma returns_frame_keys : map key_of out = map key_of sorted.
Proof.
  unfold out, returns_frame, with_cum_return, with_daily_return. simpl.
  rewrite !map_key_assign; auto using length_cum_series, length_pct_series.
Qed.

Lemma returns_frame_other (c : string) :
  c <> "daily_return" -> c <> "cum_return" ->
  column c out = column c sorted.
Proof.
  intros N1 N2.
  unfold out, returns_frame, with_cum_return, with_daily_return. simpl.
  rewrite !column_assign_other; auto using length_cum_series, length_pct_series.
Qed.

Lemma returns_group_other (c : string) :
  c <> "daily_return" -> c <> "cum_return" ->
  column c (group T out) = column c (group T sorted).
Proof.
  intros N1 N2.
  unfold out, returns_frame, with_cum_return, with_daily_return. simpl.
  rewrite !column_group_assign_other; auto using length_cum_series, length_pct_series.
Qed.

(** In every group the returns are the percentage changes of its closes. *)
Lemma returns_group_daily :
  column "daily_return" (group T out) = pct_change (column "close" (group T out)).
Proof.
  rewrite (returns_group_other "close") by discriminate.
  unfold out, returns_frame, with_cum_return. simpl.
  rewrite column_group_assign_other; auto using length_cum_series; try discriminate.
  unfold with_daily_return.
  rewrite column_group_assign_same by apply length_pct_series.
  rewrite groupby_pct_change_select
    by (rewrite length_column, length_tickers_of; reflexivity).
  rewrite <- column_group. reflexivity.
Qed.

(** In every group the cumulative return is the running product of the
    gross returns, minus one. *)
Lemma returns_group_cum :
  column "cum_return" (group T out)
  = sub_scalar (cumprod (radd one (column "daily_return" (group T out)))) one.
Proof.
  unfold out, returns_frame. simpl.
  set (d := with_daily_return (sort_rows (rows t))).
  unfold with_cum_return at 2.
  rewrite (@column_group_assign_other "cum_return" "daily_return")
    by (auto using length_cum_series; discriminate).
  unfold with_cum_return.
  rewrite column_group_assign_same by apply length_cum_series.
  unfold sub_scalar, radd.
  rewrite select_map, groupby_cumprod_select
    by (rewrite length_map, length_column, length_tickers_of; reflexivity).
  rewrite select_map, <- column_group. reflexivity.
Qed.

End ReturnsFacts.

(* ================================================================== *)
(** * Running products and forward fills *)
(* ================================================================== *)

Section PriceFacts.

Lemma firstn_snoc (A : Type) (l : list A) (n : nat) (x : A) :
  nth_error l n = Some x -> firstn (S n) l = (firstn n l ++ [x])%list.
Proof.
  revert n. induction l as [| y l IH]; intros [| n] H; simpl in *; try discriminate.
  - inversion H. reflexivity.
  - f_equal. apply IH. exact H.
Qed.

Lemma prod_present_snoc (s : series) (x : num) :
  isna x = false ->
  prod_present (s ++ [x]) = fmul (prod_present s) x.
Proof.
  intros N. unfold prod_present. rewrite filter_app, fold_left_app. simpl.
  unfold notna. rewrite N. reflexivity.
Qed.

(** The forward fill puts at row [i] the last close present up to it. *)
Lemma nth_error_ffill_from (last : num) (s : series) (i : nat) (x : num) :
  nth_error s i = Some x ->
  nth_error (ffill_from last s) i
  = Some (fold_left (fun l y => if isna y then l else y) (firstn (S i) s) last).
Proof.
  revert last i. induction s as [| y s IH]; intros last [| i] H;
    cbn [nth_error] in H; try discriminate.
  - cbn. destruct (isna y); reflexivity.
  - cbn [ffill_from nth_error firstn fold_left]. apply IH. exact H.
Qed.

Lemma nth_error_ffill (s : series) (i : nat) (x : num) :
  nth_error s i = Some x ->
  nth_error (ffill s) i = Some (last_present (firstn (S i) s)).
Proof. apply nth_error_ffill_from. Qed.

(** A return, whatever the closes: the quotient of the last close present
    up to the row by the last close present before it, minus one. *)
Lemma pct_change_filled (s : series) (i : nat) (x : num) :
  nth_error s (S i) = Some x ->
  nth_error (pct_change s) (S i)
  = Some (fsub (fdiv (last_present (firstn (S (S i)) s))
                     (last_present (firstn (S i) s))) one).
Proof.
  intros H.
  assert (Hlt : (S i < length s)%nat) by (apply nth_error_Some; congruence).
  destruct (nth_error s i) as [p |] eqn:Hp;
    [| apply nth_error_None in Hp; lia].
  unfold pct_change, sub_scalar. rewrite nth_error_map.
  rewrite (nth_error_zip_with fdiv _ _ (S i) _ _ (nth_error_ffill s (S i) x H)
             (nth_error_shift1_S _ i _ (nth_error_ffill s i p Hp)
                ltac:(unfold ffill; rewrite length_ffill_from; exact Hlt))).
  reflexivity.
Qed.

Lemma last_present_snoc (s : series) (x : num) :
  last_present (s ++ [x]) = if isna x then last_present s else x.
Proof. unfold last_present. rewrite fold_left_app. reflexivity. Qed.

End PriceFacts.

(* ================================================================== *)
(** * The model at work *)
(* ================================================================== *)

Section Checks.

Local Open Scope string_scope.

(** The closes 100, 101, 99, 99, 103: the returns 0.010000000000000009,
    -0.01980198019801982, 0.0 and 0.04040404040404044 of float64. *)
Example five_closes_daily_return :
  column "daily_return" (rows (returns_frame five_closes))
  = [NaN;
     S754_finite false 5764607523034240 (-59);
     S754_finite true 5707532201024000 (-58);
     S754_zero false;
     S754_finite false 5822835881852768 (-57)].
Proof. vm_compute. reflexivity. Qed.

(** Their cumulative returns 0.010000000000000009, -0.010000000000000009
    (twice) and 0.030000000000000027. *)
Example five_closes_cum_return :
  column "cum_return" (rows (returns_frame five_closes))
  = [NaN;
     S754_finite false 5764607523034240 (-59);
     S754_finite true 5764607523034240 (-59);
     S754_finite true 5764607523034240 (-59);
     S754_finite false 8646911284551360 (-58)].
Proof. vm_compute. reflexivity. Qed.

(** [252 ** 0.5] is 15.874507866387544. *)
Example sqrt_252_value : sqrt_252 = S754_finite false 8936553463969119 (-49).
Proof. vm_compute. reflexivity. Qed.

Example vol_column_20 : vol_column 20 = "vol_20d_ann".
Proof. reflexivity. Qed.

Example normalize_history_columns :
  labels (_normalize_columns
            (mkHist IndexDate None [Open; High; Low; AdjClose; Volume; StockSplits] []))
  = ["date"; "open"; "high"; "low"; "close"; "volume"; "stock_splits"].
Proof. reflexivity. Qed.

Example split_tickers_key :
  PyStr.split "," (tickers_key_of ["AAPL"; "MSFT"; "NVDA"]) = ["AAPL"; "MSFT"; "NVDA"].
Proof. reflexivity. Qed.

Example recency_of_four_accesses :
  recency [("a", "1d"); ("b", "1d"); ("a", "1d"); ("c", "1d")]
  = [("c", "1d"); ("a", "1d"); ("b", "1d")].
Proof. reflexivity. Qed.

End Checks.

(* ================================================================== *)
(** * The claims about compute_returns *)
(* ================================================================== *)

Section ReturnsClaims.

Local Open Scope string_scope.

(** C3, amended.  compute_returns returns, for every tidy table, the rows
    in (ticker, date) order with their closes; in every ticker group the
    daily return of the first row is absent, and the daily return of every
    later row is the last close present up to that row divided by the last
    close present before it, minus one: its close divided by the close of
    the row before it, minus one, when both closes are present. *)
Theorem compute_returns_daily_return (t : Frame) (T : string) :
  is_tidy t = true ->
  exists out : Frame,
    returns_to compute_returns t out
    /\ map key_of (rows out) = map key_of (sort_rows (rows t))
    /\ column "close" (rows out) = column "close" (sort_rows (rows t))
    /\ (forall r0 : Row,
           nth_error (group T (rows out)) 0 = Some r0 ->
           vals r0 "daily_return" = NaN)
    /\ (forall (i : nat) (cur : Row),
           nth_error (group T (rows out)) (S i) = Some cur ->
           vals cur "daily_return"
           = fsub (fdiv (last_present
                           (firstn (S (S i)) (column "close" (group T (rows out)))))
                        (last_present
                           (firstn (S i) (column "close" (group T (rows out))))))
                  one)
    /\ (forall (i : nat) (prev cur : Row),
           nth_error (group T (rows out)) i = Some prev ->
           nth_error (group T (rows out)) (S i) = Some cur ->
           isna (vals prev "close") = false ->
           isna (vals cur "close") = false ->
           vals cur "daily_return"
           = fsub (fdiv (vals cur "close") (vals prev "close")) one).
Proof.
  intros Htidy. exists (returns_frame t).
  split; [apply compute_returns_returns; exact Htidy |].
  split; [apply returns_frame_keys |].
  split; [apply returns_frame_other; discriminate |].
  pose proof (returns_group_daily t T) as Hd.
  split; [| split].
  - intros r0 H0.
    pose proof (nth_error_column "daily_return" _ _ _ H0) as H1.
    rewrite Hd in H1.
    rewrite (pct_change_first _ _ (nth_error_column "close" _ _ _ H0)) in H1.
    congruence.
  - intros i cur Hc.
    pose proof (nth_error_column "daily_return" _ _ _ Hc) as H1.
    rewrite Hd in H1.
    rewrite (pct_change_filled _ i _ (nth_error_column "close" _ _ _ Hc)) in H1.
    congruence.
  - intros i prev cur Hp Hc Np Nc.
    pose proof (nth_error_column "daily_return" _ _ _ Hc) as H1.
    rewrite Hd in H1.
    rewrite (pct_change_next _ i _ _ (nth_error_column "close" _ _ _ Hp)
               (nth_error_column "close" _ _ _ Hc) Np Nc) in H1.
    congruence.
Qed.

Lemma compute_returns_daily_return_witness :
  is_tidy one_absent_two = true
  /\ exists out : Frame, returns_to compute_returns one_absent_two out.
Proof.
  split; [reflexivity |].
  destruct (compute_returns_daily_return one_absent_two "X" eq_refl) as (out & H & _).
  exists out. exact H.
Defined.

(** C3 as stated fails where a close is absent: of the closes 1, absent, 2
    the second row gets the return 0 and the third the return 1, the absent
    close being replaced by the close before it, whereas the quotient of a
    close by the close of the row before it, minus one, is absent on both
    rows. *)
Lemma absent_close_is_forward_filled :
  exists out : Frame,
    returns_to compute_returns one_absent_two out
    /\ map ticker (rows out) = ["X"; "X"; "X"]
    /\ column "close" (rows out) = [one; NaN; of_Z 2]
    /\ column "daily_return" (rows out) = [NaN; zero; one]
    /\ map (fun i => fsub (fdiv (nth i (column "close" (rows out)) NaN)
                                (nth (i - 1) (column "close" (rows out)) NaN)) one)
           [1; 2]%nat
       = [NaN; NaN].
Proof.
  exists (returns_frame one_absent_two).
  split; [apply compute_returns_returns; reflexivity |].
  repeat split; vm_compute; reflexivity.
Qed.

Lemma cum_return_at (t : Frame) (T : string) (i : nat) (r : Row) :
  nth_error (group T (rows (returns_frame t))) i = Some r ->
  vals r "cum_return"
  = if isna (vals r "daily_return") then NaN
    else fsub (prod_present
                 (radd one (firstn (S i)
                    (column "daily_return" (group T (rows (returns_frame t)))))))
              one.
Proof.
  intros H.
  pose proof (nth_error_column "cum_return" _ _ _ H) as H1.
  rewrite returns_group_cum in H1. unfold sub_scalar in H1.
  rewrite nth_error_map in H1.
  assert (Hg : nth_error (radd one (column "daily_return"
                                      (group T (rows (returns_frame t))))) i
               = Some (fadd one (vals r "daily_return"))).
  { unfold radd. rewrite nth_error_map.
    rewrite (nth_error_column "daily_return" _ _ _ H). reflexivity. }
  rewrite (nth_error_cumprod _ _ _ Hg) in H1.
  rewrite fadd_one_isna in H1. unfold option_map in H1. inversion H1 as [E].
  unfold radd. rewrite <- firstn_map.
  destruct (isna (vals r "daily_return")); reflexivity.
Qed.

(** C4, amended.  In every ticker group the cumulative return of a row is
    absent where its daily return is absent, as it is on the first row, and
    is otherwise the product of the gross returns present up to that row,
    minus one. *)
Theorem compute_returns_cum_return (t : Frame) (T : string) :
  is_tidy t = true ->
  exists out : Frame,
    returns_to compute_returns t out
    /\ (forall (i : nat) (r : Row),
           nth_error (group T (rows out)) i = Some r ->
           vals r "cum_return"
           = if isna (vals r "daily_return") then NaN
             else fsub (prod_present
                          (radd one (firstn (S i)
                             (column "daily_return" (group T (rows out))))))
                       one)
    /\ (forall (i : nat) (r : Row),
           nth_error (group T (rows out)) i = Some r ->
           isna (vals r "daily_return") = true ->
           vals r "cum_return" = NaN)
    /\ (forall r0 : Row,
           nth_error (group T (rows out)) 0 = Some r0 ->
           vals r0 "daily_return" = NaN /\ vals r0 "cum_return" = NaN).
Proof.
  intros Htidy. exists (returns_frame t).
  split; [apply compute_returns_returns; exact Htidy |].
  split; [intros i r; apply cum_return_at |].
  split.
  - intros i r Hi Na. rewrite (cum_return_at t T i r Hi), Na. reflexivity.
  - intros r0 H0.
    assert (E : vals r0 "daily_return" = NaN).
    { pose proof (nth_error_column "daily_return" _ _ _ H0) as H1.
      rewrite (returns_group_daily t T) in H1.
      rewrite (pct_change_first _ _ (nth_error_column "close" _ _ _ H0)) in H1.
      congruence. }
    split; [exact E |].
    rewrite (cum_return_at t T 0 r0 H0), E. reflexivity.
Qed.

Lemma compute_returns_cum_return_witness :
  is_tidy three_closes = true
  /\ exists out : Frame, returns_to compute_returns three_closes out.
Proof.
  split; [reflexivity |].
  destruct (compute_returns_cum_return three_closes "X" eq_refl) as (out & H & _).
  exists out. exact H.
Defined.

(** C4 as stated fails on a group with a zero close: after closes 1, 0, 1
    the second row has a defined return, yet the cumulative return of the
    third row is absent, and the first close times one plus that cumulative
    return is not the third close. *)
Lemma cum_return_lost_after_zero_close :
  exists out : Frame,
    returns_to compute_returns one_zero_one out
    /\ map ticker (rows out) = ["X"; "X"; "X"]
    /\ column "close" (rows out) = [one; zero; one]
    /\ column "daily_return" (rows out) = [NaN; fneg one; Inf false]
    /\ column "cum_return" (rows out) = [NaN; fneg one; NaN]
    /\ map (fun r => fmul one (fadd one (vals r "cum_return"))) (rows out)
       = [NaN; zero; NaN]
    /\ nth 2 (map (fun r => fmul one (fadd one (vals r "cum_return")))
                  (rows out)) NaN
       <> nth 2 (column "close" (rows out)) NaN.
Proof.
  exists (returns_frame one_zero_one).
  split; [apply compute_returns_returns; reflexivity |].
  repeat split; try (vm_compute; reflexivity).
  vm_compute. discriminate.
Qed.

(** Nor is the close given back exactly where every close is a finite,
    non-zero number: after the closes 1, 3, 1 the first close times one plus
    the cumulative return of the third row is 0.9999999999999998. *)
Example reconstruction_is_rounded :
  column "cum_return" (rows (returns_frame one_three_one))
  = [NaN; of_Z 2; S754_finite true 4503599627370496 (-104)]
  /\ map (fun r => fmul one (fadd one (vals r "cum_return")))
         (rows (returns_frame one_three_one))
     = [NaN; of_Z 3; S754_finite false 9007199254740990 (-53)]
  /\ S754_finite false 9007199254740990 (-53) <> one.
Proof.
  split; [vm_compute; reflexivity |].
  split; [vm_compute; reflexivity |].
  vm_compute. discriminate.
Qed.

(** C6, amended.  compute_returns returns normally on every tidy table,
    and where the previous close of a group is a zero the return of the
    following row is never finite: it is an infinity, a value and not an
    absent one, when the following close is present and not a zero, and it
    is absent when the following close is a zero or is absent. *)
Theorem compute_returns_zero_close (t : Frame) (T : string) :
  is_tidy t = true ->
  exists out : Frame,
    returns_to compute_returns t out
    /\ (forall (i : nat) (prev cur : Row),
           nth_error (group T (rows out)) i = Some prev ->
           nth_error (group T (rows out)) (S i) = Some cur ->
           is_zero (vals prev "close") = true ->
           is_finite (vals cur "daily_return") = false
           /\ (isna (vals cur "close") = false ->
               is_zero (vals cur "close") = false ->
               exists s : bool, vals cur "daily_return" = Inf s)
           /\ (isna (vals cur "close") = true \/ is_zero (vals cur "close") = true ->
               vals cur "daily_return" = NaN)).
Proof.
  intros Htidy. exists (returns_frame t).
  split; [apply compute_returns_returns; exact Htidy |].
  intros i prev cur Hp Hc Zp.
  pose proof (nth_error_column "daily_return" _ _ _ Hc) as H1.
  rewrite returns_group_daily in H1.
  pose proof (nth_error_column "close" _ _ _ Hp) as Cp.
  pose proof (nth_error_column "close" _ _ _ Hc) as Cc.
  rewrite (pct_change_filled _ i _ Cc) in H1.
  rewrite (firstn_snoc _ _ _ _ Cc), last_present_snoc in H1.
  rewrite (firstn_snoc _ _ _ _ Cp), last_present_snoc in H1.
  assert (E : vals cur "daily_return"
              = fsub (fdiv (if isna (vals cur "close")
                            then (if isna (vals prev "close")
                                  then last_present
                                         (firstn i (column "close"
                                            (group T (rows (returns_frame t)))))
                                  else vals prev "close")
                            else vals cur "close")
                           (if isna (vals prev "close")
                            then last_present
                                   (firstn i (column "close"
                                      (group T (rows (returns_frame t)))))
                            else vals prev "close")) one)
    by congruence.
  rewrite E. clear E H1.
  destruct (vals prev "close") as [sp | | |]; try discriminate Zp.
  cbn [isna].
  destruct (vals cur "close") as [sc | sc | | sc mc ec]; cbn [isna is_zero].
  - split; [reflexivity |]. split; [discriminate | reflexivity].
  - split; [reflexivity |]. split; [eexists; reflexivity |].
    intros [H | H]; discriminate H.
  - split; [reflexivity |]. split; [discriminate | reflexivity].
  - split; [reflexivity |]. split; [eexists; reflexivity |].
    intros [H | H]; discriminate H.
Qed.

Lemma compute_returns_zero_close_witness :
  is_tidy zero_then_100 = true
  /\ exists out : Frame, returns_to compute_returns zero_then_100 out.
Proof.
  split; [reflexivity |].
  destruct (compute_returns_zero_close zero_then_100 "X" eq_refl) as (out & H & _).
  exists out. exact H.
Defined.

(** C6 as stated fails: after a close of zero, a close of 100 gets the
    return plus infinity, which pandas does not count as absent. *)
Lemma zero_close_return_is_infinite :
  exists out : Frame,
    returns_to compute_returns zero_then_100 out
    /\ map ticker (rows out) = ["X"; "X"]
    /\ column "close" (rows out) = [zero; of_Z 100]
    /\ column "daily_return" (rows out) = [NaN; Inf false]
    /\ map isna (column "daily_return" (rows out)) = [true; false].
Proof.
  exists (returns_frame zero_then_100).
  split; [apply compute_returns_returns; reflexivity |].
  repeat split; vm_compute; reflexivity.
Qed.

(** After a close of minus zero the same close of 100 gets minus infinity. *)
Example minus_zero_close_return :
  column "daily_return" (rows (returns_frame minus_zero_then_100))
  = [NaN; Inf true].
Proof. vm_compute. reflexivity. Qed.

(** A quotient of finite, non-zero closes that is too large for a float64
    is an infinity as well, and so is the cumulative return. *)
Example overflowing_return :
  column "daily_return" (rows (returns_frame tiny_then_huge)) = [NaN; Inf false]
  /\ column "cum_return" (rows (returns_frame tiny_then_huge)) = [NaN; Inf false].
Proof. split; vm_compute; reflexivity. Qed.

End ReturnsClaims.

(* ================================================================== *)
(** * Recomputing, and what is left untouched *)
(* ================================================================== *)

Section SameRows.

Local Open Scope string_scope.

Lemma key_leb_key_of (a a' b b' : Row) :
  key_of a = key_of a' -> key_of b = key_of b' -> key_leb a b = key_leb a' b'.
Proof.
  unfold key_of, key_leb. intros Ha Hb.
  inversion Ha as [[Ta Da]]. inversion Hb as [[Tb Db]].
  rewrite Ta, Da, Tb, Db. reflexivity.
Qed.

Lemma Forall_key_le_same (x x' : Row) (l l' : list Row) :
  key_of x = key_of x' -> map key_of l = map key_of l' ->
  Forall (key_le x) l -> Forall (key_le x') l'.
Proof.
  intros Hx. revert l'. induction l as [| y l IH]; intros [| y' l'] Hm Hall;
    try discriminate Hm; [constructor |].
  change (key_of y :: map key_of l = key_of y' :: map key_of l') in Hm.
  assert (Hy : key_of y = key_of y') by congruence.
  assert (Hm' : map key_of l = map key_of l') by congruence.
  apply Forall_cons_iff in Hall. destruct Hall as [Hxy Hall].
  constructor.
  - unfold key_le in *. rewrite <- (key_leb_key_of x x' y y'); assumption.
  - apply IH; assumption.
Qed.

Lemma sorted_same_keys (l l' : list Row) :
  map key_of l = map key_of l' ->
  StronglySorted key_le l -> StronglySorted key_le l'.
Proof.
  revert l'. induction l as [| x l IH]; intros [| x' l'] Hm Hs;
    try discriminate Hm; [constructor |].
  change (key_of x :: map key_of l = key_of x' :: map key_of l') in Hm.
  assert (Hx : key_of x = key_of x') by congruence.
  assert (Hm' : map key_of l = map key_of l') by congruence.
  apply StronglySorted_inv in Hs. destruct Hs as [Hs Hall].
  constructor.
  - apply IH; assumption.
  - eapply Forall_key_le_same; eassumption.
Qed.

Lemma same_rows_trans (a b c : list Row) :
  same_rows a b -> same_rows b c -> same_rows a c.
Proof.
  intros [K1 C1] [K2 C2]. split; [congruence |].
  intros col. rewrite C1. apply C2.
Qed.

Lemma same_rows_length (l l' : list Row) :
  same_rows l l' -> length l = length l'.
Proof.
  intros [K _]. rewrite <- (length_map key_of l), K. apply length_map.
Qed.

Lemma same_rows_tickers (l l' : list Row) :
  same_rows l l' -> tickers_of l = tickers_of l'.
Proof.
  intros [K _]. unfold tickers_of.
  assert (E : forall rs, map ticker rs = map fst (map key_of rs))
    by (intros rs; rewrite map_map; reflexivity).
  rewrite !E, K. reflexivity.
Qed.

Lemma same_rows_assign (c : string) (s : series) (l l' : list Row) :
  same_rows l l' -> length s = length l ->
  same_rows (assign c s l) (assign c s l').
Proof.
  intros Hs Hl. pose proof (same_rows_length _ _ Hs) as Hlen.
  destruct Hs as [K C]. split.
  - rewrite !map_key_assign by congruence. exact K.
  - intros c'. destruct (String.eqb_spec c' c) as [E | N].
    + subst c'. rewrite !column_assign_same by congruence. reflexivity.
    + rewrite !column_assign_other by congruence. apply C.
Qed.

(** Writing a column over itself changes no cell. *)
Lemma same_rows_assign_own (c : string) (l : list Row) :
  same_rows (assign c (column c l) l) l.
Proof.
  split.
  - apply map_key_assign, length_column.
  - intros c'. destruct (String.eqb_spec c' c) as [E | N].
    + subst c'. apply column_assign_same, length_column.
    + apply column_assign_other; [exact N | apply length_column].
Qed.

Lemma with_cum_return_same (l l' : list Row) :
  same_rows l l' -> same_rows (with_cum_return l) (with_cum_return l').
Proof.
  intros Hs. unfold with_cum_return.
  rewrite <- (same_rows_tickers _ _ Hs), <- (proj2 Hs "daily_return").
  apply same_rows_assign; [exact Hs | apply length_cum_series].
Qed.

(** The returns computed on a table that carries them already. *)
Lemma returns_rows_fixpoint (l : list Row) :
  let out := with_cum_return (with_daily_return l) in
  same_rows (with_cum_return (with_daily_return out)) out.
Proof.
  intros out.
  assert (Hd : same_rows (with_daily_return out) out).
  { unfold with_daily_return at 1.
    assert (E : groupby_pct_change (tickers_of out) (column "close" out)
                = column "daily_return" out).
    { unfold out, with_cum_return.
      rewrite tickers_of_assign by apply length_cum_series.
      rewrite !column_assign_other by (try discriminate; apply length_cum_series).
      unfold with_daily_return.
      rewrite tickers_of_assign by apply length_pct_series.
      rewrite column_assign_other by (try discriminate; apply length_pct_series).
      rewrite column_assign_same by apply length_pct_series.
      reflexivity. }
    rewrite E. apply same_rows_assign_own. }
  eapply same_rows_trans; [apply with_cum_return_same; exact Hd |].
  unfold with_cum_return at 1.
  assert (E : sub_scalar (groupby_cumprod (tickers_of out)
                            (radd one (column "daily_return" out))) one
              = column "cum_return" out).
  { unfold out at 3. unfold with_cum_return.
    rewrite column_assign_same by apply length_cum_series.
    unfold out, with_cum_return.
    rewrite tickers_of_assign by apply length_cum_series.
    rewrite column_assign_other by (try discriminate; apply length_cum_series).
    reflexivity. }
  rewrite E. apply same_rows_assign_own.
Qed.

Lemma returns_frame_sorted (t : Frame) :
  StronglySorted key_le (rows (returns_frame t)).
Proof.
  eapply sorted_same_keys; [symmetry; apply returns_frame_keys |].
  apply sort_rows_sorted.
Qed.

Lemma returns_frame_tidy (t : Frame) :
  is_tidy t = true -> is_tidy (returns_frame t) = true.
Proof.
  intros H. destruct (is_tidy_columns _ H) as (Ht & Hd & Hc).
  unfold is_tidy, returns_frame. simpl.
  repeat (apply andb_true_intro; split);
    repeat apply has_column_add_other; assumption.
Qed.

(** C9.  Applying compute_returns to the table compute_returns returned
    gives a table with the same columns, the same rows in the same order,
    and the same cell in every column: daily_return and cum_return are
    overwritten with the values they had. *)
Theorem compute_returns_idempotent (t : Frame) :
  is_tidy t = true ->
  exists out1 out2 : Frame,
    returns_to compute_returns t out1
    /\ returns_to compute_returns out1 out2
    /\ columns out2 = columns out1
    /\ same_rows (rows out2) (rows out1)
    /\ column "daily_return" (rows out2) = column "daily_return" (rows out1)
    /\ column "cum_return" (rows out2) = column "cum_return" (rows out1).
Proof.
  intros Htidy. exists (returns_frame t), (returns_frame (returns_frame t)).
  split; [apply compute_returns_returns; exact Htidy |].
  split; [apply compute_returns_returns, returns_frame_tidy; exact Htidy |].
  assert (Hs : same_rows (rows (returns_frame (returns_frame t)))
                         (rows (returns_frame t))).
  { change (rows (returns_frame (returns_frame t)))
      with (with_cum_return (with_daily_return
              (sort_rows (rows (returns_frame t))))).
    rewrite (sort_rows_id _ (returns_frame_sorted t)).
    apply returns_rows_fixpoint. }
  split.
  - unfold returns_frame. simpl.
    rewrite (add_column_present "daily_return")
      by (apply has_column_add_other, has_column_add_same).
    apply add_column_present, has_column_add_same.
  - split; [exact Hs |]. split; apply (proj2 Hs).
Qed.

Lemma compute_returns_idempotent_witness :
  is_tidy three_closes = true
  /\ exists out1 out2 : Frame,
       returns_to compute_returns three_closes out1
       /\ returns_to compute_returns out1 out2
       /\ same_rows (rows out2) (rows out1).
Proof.
  split; [reflexivity |].
  destruct (compute_returns_idempotent three_closes eq_refl)
    as (o1 & o2 & H1 & H2 & _ & H3 & _).
  exists o1, o2. split; [exact H1 | split; [exact H2 | exact H3]].
Defined.

End SameRows.


(* ================================================================== *)
(** * What the transforms leave untouched *)
(* ================================================================== *)

Section FrameEffect.

Local Open Scope string_scope.

Lemma store_preserved_app (h : heap) (l : list Frame) :
  store_preserved h (h ++ l)%list.
Proof. intros q Hq. apply nth_error_app1. exact Hq. Qed.

Lemma vol_column_not_daily_return (w : nat) : vol_column w <> "daily_return".
Proof. unfold vol_column. simpl. discriminate. Qed.

Lemma orb_false_neq (a b c : string) :
  String.eqb c a || String.eqb c b = false -> c <> a /\ c <> b.
Proof.
  intros H. apply orb_false_iff in H. destruct H as [H1 H2].
  split; apply String.eqb_neq; assumption.
Qed.

Lemma returns_frame_same_table (t : Frame) :
  same_table_except
    (fun c => String.eqb c "daily_return" || String.eqb c "cum_return")
    t (returns_frame t).
Proof.
  split.
  - intros c Hc. unfold returns_frame. simpl.
    repeat apply has_column_add_other. exact Hc.
  - exists (sort_rows (rows t)).
    split; [apply sort_rows_perm |].
    split; [apply returns_frame_keys |].
    intros c Hc. apply orb_false_neq in Hc. destruct Hc as [N1 N2].
    apply returns_frame_other; assumption.
Qed.

Lemma volatility_frame_same_table (w : nat) (t : Frame) :
  same_table_except
    (fun c => String.eqb c (vol_column w)
              || String.eqb c "daily_return"
                 && negb (has_column "daily_return" (columns t)))
    t (volatility_frame w t).
Proof.
  unfold volatility_frame.
  destruct (has_column "daily_return" (columns t)) eqn:Hp; split; simpl.
  - intros c Hc. apply has_column_add_other. exact Hc.
  - exists (sort_rows (rows t)).
    split; [apply sort_rows_perm |].
    unfold with_volatility.
    split; [apply map_key_assign, length_with_volatility_series |].
    intros c Hc. rewrite andb_false_r, orb_false_r in Hc.
    apply String.eqb_neq in Hc.
    apply column_assign_other; [exact Hc | apply length_with_volatility_series].
  - intros c Hc. repeat apply has_column_add_other. exact Hc.
  - exists (sort_rows (rows t)).
    split; [apply sort_rows_perm |].
    unfold with_volatility, with_daily_return.
    split.
    + rewrite !map_key_assign;
        auto using length_with_volatility_series, length_pct_series.
    + intros c Hc. rewrite andb_true_r in Hc.
      apply orb_false_neq in Hc. destruct Hc as [N1 N2].
      rewrite !column_assign_other;
        auto using length_with_volatility_series, length_pct_series.
Qed.

(** C10.  Called on a tidy table held in a store, compute_returns and
    compute_volatility each return normally a reference to a new object;
    every object the store held, the argument among them, is still there
    unchanged; and the returned table has the columns of the argument and
    its rows, in (ticker, date) order, with the same cell in every column
    other than the derived ones the function assigns. *)
Theorem transforms_leave_input_untouched
        (h : heap) (r : ref) (t : Frame) (w : nat) :
  nth_error h r = Some t ->
  is_tidy t = true ->
  (exists (r' : ref) (h' : heap) (out : Frame),
      compute_returns r h = (Ok r', h')
      /\ nth_error h' r' = Some out
      /\ store_preserved h h'
      /\ nth_error h' r = Some t
      /\ r' <> r
      /\ same_table_except
           (fun c => String.eqb c "daily_return" || String.eqb c "cum_return")
           t out)
  /\ (exists (r' : ref) (h' : heap) (out : Frame),
         compute_volatility r w h = (Ok r', h')
         /\ nth_error h' r' = Some out
         /\ store_preserved h h'
         /\ nth_error h' r = Some t
         /\ r' <> r
         /\ same_table_except
              (fun c => String.eqb c (vol_column w)
                        || String.eqb c "daily_return"
                           && negb (has_column "daily_return" (columns t)))
              t out).
Proof.
  intros H Htidy.
  assert (Hr : (r < length h)%nat) by (apply nth_error_Some; congruence).
  split.
  - exists (S (length h)),
      (h ++ [mkFrame (columns t) (sort_rows (rows t)); returns_frame t])%list,
      (returns_frame t).
    split; [apply compute_returns_run; assumption |].
    split; [apply nth_error_snoc2 |].
    split; [apply store_preserved_app |].
    split; [rewrite nth_error_app1 by exact Hr; exact H |].
    split; [lia | apply returns_frame_same_table].
  - exists (S (length h)),
      (h ++ [mkFrame (columns t) (sort_rows (rows t)); volatility_frame w t])%list,
      (volatility_frame w t).
    split; [apply compute_volatility_run; assumption |].
    split; [apply nth_error_snoc2 |].
    split; [apply store_preserved_app |].
    split; [rewrite nth_error_app1 by exact Hr; exact H |].
    split; [lia | apply volatility_frame_same_table].
Qed.

Lemma transforms_leave_input_untouched_witness :
  nth_error [three_closes] 0 = Some three_closes
  /\ is_tidy three_closes = true
  /\ exists (r' : ref) (h' : heap),
       compute_returns 0 [three_closes] = (Ok r', h')
       /\ nth_error h' 0 = Some three_closes.
Proof.
  split; [reflexivity |]. split; [reflexivity |].
  destruct (transforms_leave_input_untouched [three_closes] 0 three_closes 20
              eq_refl eq_refl) as ((r' & h' & out & H1 & _ & _ & H2 & _) & _).
  exists r', h'. split; assumption.
Defined.

End FrameEffect.


(* ================================================================== *)
(** * Rolling windows *)
(* ================================================================== *)

Section RollingFacts.

(** ** The count of the observations in the window *)

Lemma count_present_app (a b : series) :
  count_present (a ++ b) = (count_present a + count_present b)%nat.
Proof. unfold count_present. rewrite filter_app, length_app. reflexivity. Qed.

Lemma count_present_le (s : series) : (count_present s <= length s)%nat.
Proof. apply filter_length_le. Qed.

Lemma count_present_lt (s : series) :
  forallb notna s = false -> (count_present s < length s)%nat.
Proof.
  unfold count_present. induction s as [| x s IH]; [discriminate |].
  cbn [forallb filter length]. destruct (notna x); cbn [andb length].
  - intros H. specialize (IH H). lia.
  - intros _. pose proof (filter_length_le notna s). lia.
Qed.

Lemma nobs_add_var (v : num) (st : var_state) :
  nobs (add_var v st) = (nobs st + count_present [v])%nat.
Proof.
  unfold add_var, count_present, notna. cbn [filter].
  destruct (isna v); cbn [negb length nobs]; lia.
Qed.

Lemma nobs_remove_var (v : num) (st : var_state) :
  nobs (remove_var v st) = (nobs st - count_present [v])%nat.
Proof.
  unfold remove_var, count_present, notna. cbn [filter].
  destruct (isna v); cbn [negb length]; [lia |].
  destruct (nobs st) as [| [| n]]; cbn [Nat.pred nobs]; lia.
Qed.

Lemma nobs_fold_add (l : series) (st : var_state) :
  nobs (fold_left (fun a v => add_var v a) l st)
  = (nobs st + count_present l)%nat.
Proof.
  revert st. induction l as [| v l IH]; intros st; cbn [fold_left].
  - unfold count_present. cbn. lia.
  - rewrite IH, nobs_add_var.
    change (v :: l) with ([v] ++ l)%list. rewrite count_present_app. lia.
Qed.

Lemma nobs_fold_remove (l : series) (st : var_state) :
  nobs (fold_left (fun a v => remove_var v a) l st)
  = (nobs st - count_present l)%nat.
Proof.
  revert st. induction l as [| v l IH]; intros st; cbn [fold_left].
  - unfold count_present. cbn. lia.
  - rewrite IH, nobs_remove_var.
    change (v :: l) with ([v] ++ l)%list. rewrite count_present_app. lia.
Qed.

(** ** Windows *)

Lemma slice_trailing (w i : nat) (s : series) :
  slice (window_start w i) (S i) s = trailing w i s.
Proof. reflexivity. Qed.

Lemma length_trailing (w i : nat) (s : series) :
  (i < length s)%nat -> length (trailing w i s) = Nat.min w (S i).
Proof.
  intros H. unfold trailing. rewrite length_skipn, length_firstn. lia.
Qed.

Lemma trailing_map (f : num -> num) (w i : nat) (s : series) :
  trailing w i (map f s) = map f (trailing w i s).
Proof. unfold trailing. rewrite firstn_map, skipn_map. reflexivity. Qed.

Lemma skipn_slice (a b : nat) (l : series) :
  (a <= b)%nat -> skipn a l = (slice a b l ++ skipn b l)%list.
Proof.
  intros H. unfold slice.
  rewrite <- (firstn_skipn b l) at 1. rewrite skipn_app.
  f_equal. rewrite length_firstn.
  destruct (Nat.le_gt_cases b (length l)) as [Hb | Hb].
  - replace (a - Nat.min b (length l))%nat with 0%nat by lia. reflexivity.
  - rewrite (skipn_all2 l) by lia. apply skipn_nil.
Qed.

(** The window of a row, from the window of the row before: the rows
    before the new start leave, the row enters. *)
Lemma trailing_step (w i : nat) (s : series) (x : num) :
  (1 <= w)%nat -> nth_error s (S i) = Some x ->
  trailing w i s
  = (slice (window_start w i) (window_start w (S i)) s
       ++ skipn (window_start w (S i)) (firstn (S i) s))%list
  /\ trailing w (S i) s
     = (skipn (window_start w (S i)) (firstn (S i) s) ++ [x])%list.
Proof.
  intros Hw Hx. unfold trailing, window_start, slice.
  assert (Hlt : (S i < length s)%nat) by (apply nth_error_Some; congruence).
  split.
  - rewrite (skipn_slice (S i - w) (S (S i) - w) (firstn (S i) s)) by lia.
    unfold slice. rewrite firstn_firstn.
    replace (Nat.min (S (S i) - w) (S i)) with (S (S i) - w)%nat by lia.
    reflexivity.
  - rewrite (firstn_snoc _ s (S i) x Hx). rewrite skipn_app.
    rewrite length_firstn.
    replace (S (S i) - w - Nat.min (S i) (length s))%nat with 0%nat by lia.
    reflexivity.
Qed.

(** ** The pass *)

(** After row [i] the running count is the number of values present in the
    window of row [i]. *)
Lemma roll_var_from_nobs (w minp : nat) (values : series) :
  forall (todo : series) (i : nat) (st : var_state),
    todo = skipn i values ->
    (i = 0%nat \/ nobs st = count_present (trailing w (i - 1) values)) ->
    forall (j : nat) (x : num),
      nth_error todo j = Some x ->
      exists st' : var_state,
        nth_error (roll_var_from w minp values i st todo) j
        = Some (calc_var minp st')
        /\ nobs st' = count_present (trailing w (i + j) values).
Proof.
  induction todo as [| y todo IH]; intros i st Htodo Hinv j x Hj;
    [destruct j; discriminate Hj |].
  assert (Hy : nth_error values i = Some y).
  { rewrite <- (Nat.add_0_r i), <- nth_error_skipn, <- Htodo. reflexivity. }
  assert (Hnext : todo = skipn (S i) values).
  { rewrite <- (Nat.add_1_l i), <- skipn_skipn, <- Htodo. reflexivity. }
  cbn [roll_var_from].
  set (st' := if (i =? 0)%nat || (i <=? window_start w i)%nat then _ else _).
  assert (Hst : nobs st' = count_present (trailing w i values)).
  { unfold st'.
    destruct ((i =? 0)%nat || (i <=? window_start w i)%nat) eqn:Hreset.
    - rewrite nobs_fold_add, slice_trailing. reflexivity.
    - apply orb_false_elim in Hreset. destruct Hreset as [H0 Hs].
      apply Nat.eqb_neq in H0. apply Nat.leb_gt in Hs.
      destruct i as [| i]; [congruence |].
      destruct Hinv as [Hinv | Hinv]; [discriminate |].
      replace (S i - 1)%nat with i in * by lia.
      assert (Hw : (1 <= w)%nat) by (unfold window_start in Hs; lia).
      destruct (trailing_step w i values y Hw Hy) as [E1 E2].
      rewrite nobs_fold_add, nobs_fold_remove, Hinv.
      rewrite E1 at 1. rewrite E2. rewrite !count_present_app.
      assert (E3 : slice (S i) (S (S i)) values = [y]).
      { unfold slice. rewrite (firstn_snoc _ values (S i) y Hy).
        rewrite skipn_app, length_firstn.
        assert (Hlt : (S i < length values)%nat)
          by (apply nth_error_Some; congruence).
        rewrite skipn_all2 by (rewrite length_firstn; lia).
        replace (S i - Nat.min (S i) (length values))%nat with 0%nat by lia.
        reflexivity. }
      rewrite E3. lia. }
  destruct j as [| j]; cbn [nth_error] in Hj |- *.
  - exists st'. rewrite Nat.add_0_r. split; [reflexivity | exact Hst].
  - replace (i + S j)%nat with (S i + j)%nat by lia.
    refine (IH (S i) st' Hnext _ j x Hj).
    right. replace (S i - 1)%nat with i by lia. exact Hst.
Qed.

Lemma zsqrt_nan : zsqrt NaN = NaN.
Proof. reflexivity. Qed.

(** The deviation at row [i] comes from a state that has counted the
    returns of the window of row [i] which are finite. *)
Lemma nth_error_rolling_std (w : nat) (s : series) (i : nat) (x : num) :
  nth_error s i = Some x ->
  exists st : var_state,
    nth_error (rolling_std w s) i = Some (zsqrt (calc_var (Nat.max w 1) st))
    /\ nobs st = length (filter is_finite (trailing w i s)).
Proof.
  intros H. unfold rolling_std, roll_var.
  assert (Hp : nth_error (prep_values s) i
               = Some (if is_finite x then x else NaN)).
  { unfold prep_values. rewrite nth_error_map, H. reflexivity. }
  destruct (roll_var_from_nobs w (Nat.max w 1) (prep_values s)
              (prep_values s) 0 (fresh NaN) eq_refl (or_introl eq_refl) i _ Hp)
    as (st & E & Hn).
  exists st. rewrite nth_error_map, E. split; [reflexivity |].
  rewrite Hn. cbn [Nat.add]. unfold prep_values, count_present.
  rewrite trailing_map.
  generalize (trailing w i s). intros l.
  induction l as [| v l IH]; [reflexivity |].
  cbn [map filter]. destruct v as [sv | sv | | sv mv ev];
    cbn [is_finite notna isna negb length]; rewrite ?IH; reflexivity.
Qed.

Lemma calc_var_few (minp : nat) (st : var_state) :
  (nobs st < minp)%nat -> calc_var minp st = NaN.
Proof.
  intros H. unfold calc_var.
  destruct (Nat.leb_spec minp (nobs st)); [lia | reflexivity].
Qed.

Lemma filter_finite_lt (l : series) :
  forallb is_finite l = false -> (length (filter is_finite l) < length l)%nat.
Proof.
  induction l as [| x l IH]; [discriminate |].
  cbn [forallb filter length]. destruct (is_finite x); cbn [andb length].
  - intros H. specialize (IH H). lia.
  - intros _. pose proof (filter_length_le is_finite l). lia.
Qed.

(** No deviation over a window that is not full, or that holds a value
    which is absent or infinite. *)
Lemma rolling_std_absent (w : nat) (s : series) (i : nat) (x : num) :
  nth_error s i = Some x ->
  (S i < w)%nat \/ forallb is_finite (trailing w i s) = false ->
  nth_error (rolling_std w s) i = Some NaN.
Proof.
  intros H Hcase.
  destruct (nth_error_rolling_std w s i x H) as (st & E & Hn).
  rewrite E. f_equal.
  rewrite calc_var_few; [reflexivity |].
  assert (Hlt : (i < length s)%nat) by (apply nth_error_Some; congruence).
  pose proof (length_trailing w i s Hlt) as Hl.
  pose proof (filter_length_le is_finite (trailing w i s)) as Hle.
  destruct Hcase as [Hshort | Hnf].
  - lia.
  - pose proof (filter_finite_lt _ Hnf). lia.
Qed.

(** The first return of a group being absent, its first [w] rows have no
    deviation. *)
Lemma rolling_std_first_rows (w : nat) (s : series) (i : nat) (x0 x : num) :
  nth_error s 0 = Some x0 -> is_finite x0 = false ->
  nth_error s i = Some x -> (i < w)%nat ->
  nth_error (rolling_std w s) i = Some NaN.
Proof.
  intros H0 Hx Hi Hlt. apply (rolling_std_absent w s i x Hi). right.
  unfold trailing. replace (S i - w)%nat with 0%nat by lia. cbn [skipn].
  destruct s as [| y s]; [discriminate |].
  cbn in H0. assert (y = x0) by congruence. subst y.
  cbn [firstn forallb]. rewrite Hx. reflexivity.
Qed.

(** A deviation is absent, or a zero, or positive. *)
Lemma zsqrt_nonneg (x : num) :
  isna (zsqrt x) = true \/ is_zero (zsqrt x) = true
  \/ has_sign false (zsqrt x) = true.
Proof.
  unfold zsqrt. destruct (flt x zero); [right; left; reflexivity |].
  apply fsqrt_nonneg.
Qed.

(** Whatever the returns, a volatility is absent or not negative. *)
Lemma annualized_nonneg (x : num) :
  isna (fmul (zsqrt x) sqrt_252) = true
  \/ fle zero (fmul (zsqrt x) sqrt_252) = true.
Proof.
  change sqrt_252 with (S754_finite false 8936553463969119 (-49)).
  destruct (zsqrt_nonneg x) as [H | [H | H]].
  - left. destruct (zsqrt x); try discriminate H. reflexivity.
  - right. destruct (zsqrt x) as [s | | |]; try discriminate H.
    destruct s; reflexivity.
  - right. apply has_sign_fle, fmul_pos_finite, H.
Qed.

End RollingFacts.

(* ================================================================== *)
(** * The claim about compute_volatility *)
(* ================================================================== *)

Section VolatilityClaims.

Local Open Scope string_scope.

Lemma with_daily_return_group (T : string) (l : list Row) :
  column "daily_return" (group T (with_daily_return l))
  = pct_change (column "close" (group T l)).
Proof.
  unfold with_daily_return.
  rewrite column_group_assign_same by apply length_pct_series.
  rewrite groupby_pct_change_select
    by (rewrite length_column, length_tickers_of; reflexivity).
  rewrite <- column_group. reflexivity.
Qed.

Lemma with_volatility_other (w : nat) (T c : string) (l : list Row) :
  c <> vol_column w ->
  column c (group T (with_volatility w l)) = column c (group T l).
Proof.
  intros N. unfold with_volatility.
  apply column_group_assign_other; [exact N | apply length_with_volatility_series].
Qed.

(** In every group the volatility is the rolling deviation of the returns of
    the group, times the square root of 252. *)
Lemma with_volatility_group (w : nat) (T : string) (l : list Row) :
  column (vol_column w) (group T (with_volatility w l))
  = mul_scalar (rolling_std w (column "daily_return" (group T (with_volatility w l))))
               sqrt_252.
Proof.
  rewrite (with_volatility_other w T "daily_return")
    by (intros E; symmetry in E; revert E; apply vol_column_not_daily_return).
  unfold with_volatility.
  rewrite column_group_assign_same by apply length_with_volatility_series.
  unfold mul_scalar.
  rewrite select_map, groupby_rolling_std_select
    by (rewrite length_column, length_tickers_of; reflexivity).
  rewrite <- column_group. reflexivity.
Qed.

Lemma volatility_frame_group (w : nat) (T : string) (t : Frame) :
  column (vol_column w) (group T (rows (volatility_frame w t)))
  = mul_scalar
      (rolling_std w (column "daily_return" (group T (rows (volatility_frame w t)))))
      sqrt_252.
Proof.
  unfold volatility_frame.
  destruct (has_column "daily_return" (columns t)); apply with_volatility_group.
Qed.

Lemma volatility_frame_daily (w : nat) (T : string) (t : Frame) :
  has_column "daily_return" (columns t) = false ->
  column "daily_return" (group T (rows (volatility_frame w t)))
  = pct_change (column "close" (group T (rows (volatility_frame w t)))).
Proof.
  intros Hm. unfold volatility_frame. rewrite Hm. simpl rows.
  rewrite !with_volatility_other
    by (intros E; symmetry in E; revert E; unfold vol_column; simpl; discriminate).
  rewrite with_daily_return_group.
  unfold with_daily_return.
  rewrite (column_group_assign_other "daily_return" "close")
    by (try discriminate; apply length_pct_series).
  reflexivity.
Qed.

Lemma volatility_frame_kept (w : nat) (t : Frame) :
  has_column "daily_return" (columns t) = true ->
  column "daily_return" (rows (volatility_frame w t))
  = column "daily_return" (sort_rows (rows t)).
Proof.
  intros Hp. unfold volatility_frame. rewrite Hp. simpl rows.
  unfold with_volatility.
  apply column_assign_other; [| apply length_with_volatility_series].
  intros E; symmetry in E; revert E; apply vol_column_not_daily_return.
Qed.

Lemma volatility_frame_columns (w : nat) (t : Frame) :
  has_column "daily_return" (columns (volatility_frame w t)) = true
  /\ has_column (vol_column w) (columns (volatility_frame w t)) = true.
Proof.
  unfold volatility_frame.
  destruct (has_column "daily_return" (columns t)) eqn:Hp; simpl columns; split;
    try apply has_column_add_same.
  - apply has_column_add_other. exact Hp.
  - apply has_column_add_other, has_column_add_same.
Qed.

(** The volatility of a row is the deviation of its position, annualized. *)
Lemma vol_at (w : nat) (T : string) (t : Frame) (i : nat) (r : Row) (v : num) :
  nth_error (group T (rows (volatility_frame w t))) i = Some r ->
  nth_error (rolling_std w
               (column "daily_return" (group T (rows (volatility_frame w t))))) i
  = Some v ->
  vals r (vol_column w) = fmul v sqrt_252.
Proof.
  intros H Hv.
  pose proof (nth_error_column (vol_column w) _ _ _ H) as H1.
  rewrite volatility_frame_group in H1. unfold mul_scalar in H1.
  rewrite nth_error_map, Hv in H1.
  unfold option_map in H1. congruence.
Qed.

(** C5, amended.  compute_volatility returns a table with a daily_return
    column (the percentage change of the closes of each group when the
    argument had none, the argument's own column otherwise) and a column
    vol_Nd_ann which is, in each group, the rolling deviation of the daily
    returns over N rows as pandas accumulates it, times the square root of
    252.  The value is absent unless the window holds N returns that are
    all present and finite: so on the rows that have fewer than N-1 rows of
    the group before them, and, the first return of a group being absent
    (as it is when the returns are computed here), on the first N rows of
    the group.  Where the value is present it is not negative. *)
Theorem compute_volatility_rolling (t : Frame) (w : nat) (T : string) :
  is_tidy t = true ->
  exists out : Frame,
    returns_to (fun r => compute_volatility r w) t out
    /\ has_column "daily_return" (columns out) = true
    /\ has_column (vol_column w) (columns out) = true
    /\ (has_column "daily_return" (columns t) = false ->
        column "daily_return" (group T (rows out))
        = pct_change (column "close" (group T (rows out))))
    /\ (has_column "daily_return" (columns t) = true ->
        column "daily_return" (rows out)
        = column "daily_return" (sort_rows (rows t)))
    /\ column (vol_column w) (group T (rows out))
       = mul_scalar (rolling_std w (column "daily_return" (group T (rows out))))
                    sqrt_252
    /\ (forall (i : nat) (r : Row),
           nth_error (group T (rows out)) i = Some r ->
           ((S i < w)%nat
            \/ forallb is_finite
                 (trailing w i (column "daily_return" (group T (rows out))))
               = false) ->
           vals r (vol_column w) = NaN)
    /\ (forall (i : nat) (r0 r : Row),
           nth_error (group T (rows out)) 0 = Some r0 ->
           isna (vals r0 "daily_return") = true ->
           nth_error (group T (rows out)) i = Some r ->
           (i < w)%nat ->
           vals r (vol_column w) = NaN)
    /\ (has_column "daily_return" (columns t) = false ->
        forall (i : nat) (r : Row),
          nth_error (group T (rows out)) i = Some r ->
          (i < w)%nat ->
          vals r (vol_column w) = NaN)
    /\ (forall (i : nat) (r : Row),
           nth_error (group T (rows out)) i = Some r ->
           isna (vals r (vol_column w)) = true
           \/ fle zero (vals r (vol_column w)) = true).
Proof.
  intros Htidy. exists (volatility_frame w t).
  split; [apply compute_volatility_returns; exact Htidy |].
  split; [apply volatility_frame_columns |].
  split; [apply volatility_frame_columns |].
  split; [apply volatility_frame_daily |].
  split; [apply volatility_frame_kept |].
  split; [apply volatility_frame_group |].
  set (g := group T (rows (volatility_frame w t))).
  assert (Hfirst : forall (i : nat) (r0 r : Row),
             nth_error g 0 = Some r0 -> isna (vals r0 "daily_return") = true ->
             nth_error g i = Some r -> (i < w)%nat ->
             vals r (vol_column w) = NaN).
  { intros i r0 r H0 N0 Hi Hlt.
    rewrite (vol_at w T t i r NaN Hi); [reflexivity |].
    apply (rolling_std_first_rows w _ i (vals r0 "daily_return")
             (vals r "daily_return")).
    - apply (nth_error_column "daily_return" _ _ _ H0).
    - destruct (vals r0 "daily_return"); try discriminate N0. reflexivity.
    - apply (nth_error_column "daily_return" _ _ _ Hi).
    - exact Hlt. }
  split; [| split; [exact Hfirst | split]].
  - intros i r Hi Hcase.
    rewrite (vol_at w T t i r NaN Hi); [reflexivity |].
    apply (rolling_std_absent w _ i (vals r "daily_return"));
      [apply (nth_error_column "daily_return" _ _ _ Hi) | exact Hcase].
  - intros Hm i r Hi Hlt.
    destruct (nth_error g 0) as [r0 |] eqn:H0.
    + apply (Hfirst i r0 r eq_refl); [| exact Hi | exact Hlt].
      unfold g in H0.
      pose proof (nth_error_column "daily_return" _ _ _ H0) as H1.
      rewrite (volatility_frame_daily w T t Hm) in H1.
      rewrite (pct_change_first _ _ (nth_error_column "close" _ _ _ H0)) in H1.
      assert (E : vals r0 "daily_return" = NaN) by congruence.
      rewrite E. reflexivity.
    + apply nth_error_None in H0.
      assert (i < length g)%nat by (apply nth_error_Some; congruence). lia.
  - intros i r Hi.
    destruct (nth_error_rolling_std w _ i _
                (nth_error_column "daily_return" _ _ _ Hi)) as (st & E & _).
    rewrite (vol_at w T t i r _ Hi E). apply annualized_nonneg.
Qed.

Lemma compute_volatility_rolling_witness :
  is_tidy three_closes = true
  /\ exists out : Frame,
       returns_to (fun r => compute_volatility r 2) three_closes out
       /\ has_column (vol_column 2) (columns out) = true.
Proof.
  split; [reflexivity |].
  destruct (compute_volatility_rolling three_closes 2 "X" eq_refl)
    as (out & H1 & _ & H2 & _).
  exists out. split; assumption.
Defined.

(** C5 as stated fails for a window of one row: every row that has a return
    is past the first N-1 = 0 of them, yet its volatility is absent, the
    sample deviation of a single observation being undefined. *)
Lemma volatility_absent_for_window_of_one :
  exists out : Frame,
    returns_to (fun r => compute_volatility r 1) three_closes out
    /\ map ticker (rows out) = ["X"; "X"; "X"]
    /\ map isna (column "daily_return" (rows out)) = [true; false; false]
    /\ column (vol_column 1) (rows out) = [NaN; NaN; NaN].
Proof.
  exists (volatility_frame 1 three_closes).
  split; [apply compute_volatility_returns; reflexivity |].
  repeat split; vm_compute; reflexivity.
Qed.

(** With a window of two rows the closes 100, 101, 99 have a volatility on
    their third row only, 0.3345263980452349. *)
Example three_closes_volatility :
  column (vol_column 2) (rows (volatility_frame 2 three_closes))
  = [NaN; NaN; S754_finite false 6026291846328456 (-54)].
Proof. vm_compute. reflexivity. Qed.

(** Nor is the value always present later on for a window of two rows: the
    running sums are not rebuilt for each window, and once a sum has
    overflowed the rows after it are lost.  Of the returns [2 ** 600], 0
    and 1 the first two have the volatility plus infinity, and the last two
    none, finite as they are. *)
Example volatility_lost_after_overflow :
  column "daily_return" (rows (volatility_frame 2 huge_step))
  = [NaN; of_Z (2 ^ 600); zero; one]
  /\ column (vol_column 2) (rows (volatility_frame 2 huge_step))
     = [NaN; NaN; Inf false; NaN].
Proof. split; vm_compute; reflexivity. Qed.

End VolatilityClaims.


(* ================================================================== *)
(** * The fetch adapter *)
(* ================================================================== *)

Section FetchFacts.

Local Open Scope string_scope.

Variable history : string -> string -> string -> bool -> Hist.
Variables period interval : string.
Variable auto_adjust : bool.

Let blocks_of (t : string) : list Frame :=
  fetch_one history period interval auto_adjust [] t.

Lemma fetch_one_app (frames : list Frame) (t : string) :
  fetch_one history period interval auto_adjust frames t
  = (frames ++ blocks_of t)%list.
Proof.
  unfold blocks_of, fetch_one.
  destruct (filter _ canonical); [rewrite app_nil_r |]; reflexivity.
Qed.

Lemma fetch_fold (tickers : list string) (acc : list Frame) :
  fold_left (fetch_one history period interval auto_adjust) tickers acc
  = (acc ++ flat_map blocks_of tickers)%list.
Proof.
  revert acc. induction tickers as [| t ts IH]; intros acc; simpl.
  - rewrite app_nil_r. reflexivity.
  - rewrite IH, fetch_one_app, <- app_assoc. reflexivity.
Qed.

Lemma fetched_frames_blocks (tickers : list string) :
  fetched_frames history tickers period interval auto_adjust
  = flat_map blocks_of tickers.
Proof. unfold fetched_frames. apply fetch_fold. Qed.

Lemma to_datetime_dates_run (zones : list (option string)) (h : heap) :
  to_datetime_dates zones h
  = if one_zone zones then (Ok tt, h)
    else (Raise (ValueError
            "Tz-aware datetime.datetime cannot be converted to datetime64 unless utc=True"),
          h).
Proof.
  destruct zones as [| z zs]; [reflexivity |].
  cbn [to_datetime_dates one_zone]. destruct (forallb (zone_eqb z) zs); reflexivity.
Qed.

(** A call that returns has put two objects in the store: the
    concatenation and its sorted copy, which it returns. *)
Lemma download_history_tidy_inv (tickers : list string) (h h' : heap) (r : ref) :
  download_history_tidy history tickers period interval auto_adjust h = (Ok r, h') ->
  let frames := fetched_frames history tickers period interval auto_adjust in
  frames <> []
  /\ r = S (length h)
  /\ h' = (h ++ [concat frames;
                 mkFrame (columns (concat frames))
                         (sort_rows (rows (concat frames)))])%list.
Proof.
  unfold download_history_tidy.
  fold (fetched_frames history tickers period interval auto_adjust).
  intros H.
  set (frames := fetched_frames history tickers period interval auto_adjust) in *.
  destruct frames as [| f fs] eqn:Ef; [discriminate H |].
  split; [discriminate |].
  rewrite <- Ef in *. clear Ef f fs.
  unfold bind at 1 in H. unfold alloc in H.
  unfold bind at 1 in H. unfold getitem in H.
  rewrite (bind_ok _ _ _ _ _ _ _ (deref_run _ _ _ (nth_error_snoc h (concat frames)))) in H.
  unfold bind at 1 in H. unfold require_column in H.
  destruct (has_column "date" (columns (concat frames))) eqn:Hd;
    [| discriminate H].
  unfold ret at 1 in H. unfold ret at 1 in H.
  unfold bind at 1 in H. rewrite to_datetime_dates_run in H.
  destruct (one_zone _); [| discriminate H].
  unfold bind at 1 in H. unfold sort_values_ticker_date in H.
  rewrite (bind_ok _ _ _ _ _ _ _ (deref_run _ _ _ (nth_error_snoc h (concat frames)))) in H.
  unfold bind at 1 in H. unfold require_column at 1 in H.
  destruct (has_column "ticker" (columns (concat frames))) eqn:Ht;
    [| discriminate H].
  unfold ret at 1 in H.
  rewrite (bind_ok _ _ _ _ _ _ _ (require_column_run "date" _ _ Hd)) in H.
  unfold alloc, ret in H. inversion H; subst.
  rewrite length_app, <- app_assoc. simpl.
  split; [lia | reflexivity].
Qed.

(** ** Order of the rows *)

Lemma group_date_sorted (T : string) (l : list Row) :
  StronglySorted key_le l -> StronglySorted date_le (group T l).
Proof.
  induction 1 as [| x l Hs IH Hall]; simpl; [constructor |].
  destruct (String.eqb_spec (ticker x) T) as [E | N]; [| exact IH].
  constructor; [exact IH |].
  apply Forall_forall. intros y Hy.
  apply filter_In in Hy. destruct Hy as [Hin Hty].
  apply String.eqb_eq in Hty.
  rewrite Forall_forall in Hall. specialize (Hall y Hin).
  unfold key_le in Hall. unfold date_le.
  rewrite key_leb_same_ticker in Hall by congruence. exact Hall.
Qed.

Lemma group_date_strict (T : string) (l : list Row) :
  NoDup (map key_of l) ->
  StronglySorted key_le l -> StronglySorted date_lt (group T l).
Proof.
  intros Hnd Hs. induction Hs as [| x l Hs IH Hall]; simpl; [constructor |].
  apply NoDup_cons_iff in Hnd. destruct Hnd as [Hx Hnd].
  destruct (String.eqb_spec (ticker x) T) as [E | N]; [| apply IH; exact Hnd].
  constructor; [apply IH; exact Hnd |].
  apply Forall_forall. intros y Hy.
  apply filter_In in Hy. destruct Hy as [Hin Hty].
  apply String.eqb_eq in Hty.
  rewrite Forall_forall in Hall. specialize (Hall y Hin).
  unfold key_le in Hall. rewrite key_leb_same_ticker in Hall by congruence.
  unfold date_lt.
  destruct (date_leb (date y) (date x)) eqn:Hyx; [| reflexivity].
  exfalso. apply Hx.
  pose proof (date_leb_antisym _ _ Hall Hyx) as Ed.
  apply in_map_iff. exists y. split; [| exact Hin].
  unfold key_of. congruence.
Qed.

Lemma sort_rows_nodup_keys (l : list Row) :
  NoDup (map key_of l) -> NoDup (map key_of (sort_rows l)).
Proof.
  apply Permutation_NoDup, Permutation_map, Permutation_sym, sort_rows_perm.
Qed.

(** ** The blocks of a provider that dates its bars *)

Lemma no_column_is_date (cols : list ycol) :
  mem "date" (map normalize_label (map ycol_label cols)) = false.
Proof.
  induction cols as [| c cols IH]; [reflexivity |].
  simpl. rewrite IH. destruct c; reflexivity.
Qed.

Lemma records_normalize (hst : Hist) :
  records (_normalize_columns hst) = records (reset_index hst).
Proof.
  unfold _normalize_columns.
  repeat match goal with |- context [if ?b then _ else _] => destruct b end;
    reflexivity.
Qed.

(** The time index of a dated frame comes out as the first column, [date]. *)
Lemma normalize_dated (hst : Hist) :
  index_name hst <> IndexDatetime ->
  exists rest : list string, labels (_normalize_columns hst) = "date" :: rest.
Proof.
  intros Hi. unfold _normalize_columns, reset_index.
  destruct (index_name hst); [| contradiction |]; cbn [labels records map].
  - change (normalize_label "Date") with "date".
    change (mem "date" ("date" :: ?l)) with true.
    cbn [negb andb].
    match goal with |- context [if ?b then _ else _] => destruct b end;
      cbn [labels rename map]; eauto.
  - change (normalize_label "index") with "index".
    replace (mem "date" ("index" :: map normalize_label (map ycol_label (hist_columns hst))))
      with false
      by (symmetry; apply (no_column_is_date (hist_columns hst))).
    change (mem "index" ("index" :: ?l)) with true.
    cbn [negb andb rename labels map].
    match goal with |- context [if ?b then _ else _] => destruct b end;
      cbn [labels rename map]; eauto.
Qed.

Lemma block_of_dated (t : string) :
  index_name (history t period interval auto_adjust) <> IndexDatetime ->
  exists b : Frame,
    blocks_of t = [b]
    /\ map key_of (rows b)
       = map (fun x => (t, Some (bar_time x)))
             (bars (history t period interval auto_adjust)).
Proof.
  intros Hi. unfold blocks_of, fetch_one.
  set (hst := history t period interval auto_adjust) in *.
  destruct (normalize_dated hst Hi) as (rest & El).
  rewrite El.
  change (filter (fun c => mem c ("date" :: rest)) canonical)
    with ("date" :: filter (fun c => mem c ("date" :: rest))
                      ["open"; "high"; "low"; "close"; "volume"]).
  set (keep := "date" :: filter _ _).
  eexists. split; [reflexivity |].
  unfold block_of. cbn [rows]. rewrite El, records_normalize.
  unfold reset_index. cbn [records]. rewrite !map_map.
  apply map_ext. intros x. reflexivity.
Qed.

Lemma blocks_of_ticker (t : string) (r : Row) :
  In r (flat_map rows (blocks_of t)) -> ticker r = t.
Proof.
  unfold blocks_of, fetch_one.
  destruct (filter _ canonical) as [| k ks]; [intros [] |].
  cbn [app flat_map]. rewrite app_nil_r. unfold block_of. cbn [rows].
  intros H. apply in_map_iff in H. destruct H as (cs & <- & _). reflexivity.
Qed.

Lemma nodup_dated (t : string) (times : list Z) :
  NoDup times -> NoDup (map (fun z => (t, Some z)) times).
Proof.
  induction 1 as [| z zs Hz Hzs IH]; cbn [map]; constructor; [| exact IH].
  intros Hin. apply in_map_iff in Hin. destruct Hin as (y & E & Hy).
  apply Hz. congruence.
Qed.

Lemma fetched_keys_nodup (tickers : list string) :
  NoDup tickers ->
  (forall t, In t tickers ->
     index_name (history t period interval auto_adjust) <> IndexDatetime
     /\ NoDup (map bar_time (bars (history t period interval auto_adjust)))) ->
  NoDup (map key_of (flat_map rows (flat_map blocks_of tickers))).
Proof.
  induction 1 as [| t ts Ht Hts IH]; intros Hall; [constructor |].
  cbn [flat_map]. rewrite flat_map_app, map_app.
  destruct (Hall t (or_introl eq_refl)) as [Hi Hnd].
  destruct (block_of_dated t Hi) as (b & Eb & Ek).
  apply NoDup_app.
  - rewrite Eb. cbn [flat_map]. rewrite app_nil_r, Ek.
    replace (map (fun x => (t, Some (bar_time x)))
                 (bars (history t period interval auto_adjust)))
      with (map (fun z => (t, Some z))
                (map bar_time (bars (history t period interval auto_adjust))))
      by (rewrite map_map; reflexivity).
    apply nodup_dated. exact Hnd.
  - apply IH. intros u Hu. apply Hall. right. exact Hu.
  - intros k H1 H2.
    apply in_map_iff in H1. destruct H1 as (r1 & E1 & I1).
    apply in_map_iff in H2. destruct H2 as (r2 & E2 & I2).
    apply blocks_of_ticker in I1.
    apply in_flat_map in I2. destruct I2 as (f & If & Ir).
    apply in_flat_map in If. destruct If as (u & Iu & Ifu).
    assert (Tu : ticker r2 = u).
    { apply blocks_of_ticker. apply in_flat_map. exists f. split; assumption. }
    apply Ht. unfold key_of in E1, E2. congruence.
Qed.

End FetchFacts.

Section FetchClaims.

Local Open Scope string_scope.

(** C8, amended.  A fetch that returns, returns the rows the provider gave
    for the requested tickers sorted by (ticker, date) ascending, so that the
    dates of every ticker group are in ascending order; no row is dropped.
    When the requested tickers are pairwise distinct and the provider dates
    its bars with pairwise distinct dates for each of them, the dates of
    every group are strictly ascending and no (ticker, date) pair occurs
    twice. *)
Theorem download_history_tidy_sorted
        (history : string -> string -> string -> bool -> Hist)
        (tickers : list string) (period interval : string) (auto_adjust : bool)
        (h h' : heap) (r : ref) :
  download_history_tidy history tickers period interval auto_adjust h = (Ok r, h') ->
  exists out : Frame,
    nth_error h' r = Some out
    /\ Permutation (rows out)
         (flat_map rows (fetched_frames history tickers period interval auto_adjust))
    /\ StronglySorted key_le (rows out)
    /\ (forall T, StronglySorted date_le (group T (rows out)))
    /\ (NoDup tickers ->
        (forall t, In t tickers ->
           index_name (history t period interval auto_adjust) <> IndexDatetime
           /\ NoDup (map bar_time (bars (history t period interval auto_adjust)))) ->
        NoDup (map key_of (rows out))
        /\ forall T, StronglySorted date_lt (group T (rows out))).
Proof.
  intros H. apply download_history_tidy_inv in H. cbv zeta in H.
  set (frames := fetched_frames history tickers period interval auto_adjust) in *.
  destruct H as (Hne & -> & ->).
  exists (mkFrame (columns (concat frames)) (sort_rows (rows (concat frames)))).
  split; [apply nth_error_snoc2 |].
  cbn [rows].
  split; [apply sort_rows_perm |].
  split; [apply sort_rows_sorted |].
  split; [intros T; apply group_date_sorted, sort_rows_sorted |].
  intros Hnd Hall.
  assert (Hk : NoDup (map key_of (sort_rows (flat_map rows frames)))).
  { apply sort_rows_nodup_keys. unfold frames.
    rewrite fetched_frames_blocks. apply fetched_keys_nodup; assumption. }
  split; [exact Hk |].
  intros T. apply group_date_strict; [exact Hk | apply sort_rows_sorted].
Qed.

Lemma download_history_tidy_sorted_witness :
  exists (r : ref) (h' : heap) (out : Frame),
    download_history_tidy provider_one_bar ["X"; "Y"] "6mo" "1d" true [] = (Ok r, h')
    /\ nth_error h' r = Some out
    /\ StronglySorted key_le (rows out).
Proof.
  eexists. eexists.
  assert (E : download_history_tidy provider_one_bar ["X"; "Y"] "6mo" "1d" true []
              = (Ok 1, snd (download_history_tidy provider_one_bar ["X"; "Y"]
                              "6mo" "1d" true []))) by reflexivity.
  destruct (download_history_tidy_sorted provider_one_bar ["X"; "Y"]
              "6mo" "1d" true [] _ 1 E) as (out & H1 & _ & H2 & _).
  exists out. split; [exact E |]. split; assumption.
Defined.

(** C8 as stated fails: nothing removes duplicates.  A request that names a
    ticker twice gets every bar of it twice, and two bars the provider dates
    alike both stay. *)
Lemma duplicate_rows_after_fetch :
  (exists (r : ref) (h' : heap) (out : Frame),
      download_history_tidy provider_one_bar ["X"; "X"] "6mo" "1d" true [] = (Ok r, h')
      /\ nth_error h' r = Some out
      /\ map key_of (rows out) = [("X", Some 0%Z); ("X", Some 0%Z)]
      /\ ~ NoDup (map key_of (rows out)))
  /\ (exists (r : ref) (h' : heap) (out : Frame),
         download_history_tidy provider_same_date_twice ["X"] "6mo" "1d" true []
         = (Ok r, h')
         /\ nth_error h' r = Some out
         /\ map key_of (rows out) = [("X", Some 0%Z); ("X", Some 0%Z)]
         /\ ~ NoDup (map key_of (rows out))).
Proof.
  split.
  - destruct (download_history_tidy provider_one_bar ["X"; "X"] "6mo" "1d" true [])
      as [res h'] eqn:E.
    vm_compute in E. injection E as <- <-.
    eexists; eexists; eexists.
    split; [reflexivity |]. split; [reflexivity |]. split; [reflexivity |].
    cbn. intros H. apply NoDup_cons_iff in H. destruct H as [H _].
    apply H. left. reflexivity.
  - destruct (download_history_tidy provider_same_date_twice ["X"] "6mo" "1d" true [])
      as [res h'] eqn:E.
    vm_compute in E. injection E as <- <-.
    eexists; eexists; eexists.
    split; [reflexivity |]. split; [reflexivity |]. split; [reflexivity |].
    cbn. intros H. apply NoDup_cons_iff in H. destruct H as [H _].
    apply H. left. reflexivity.
Qed.

Lemma download_history_tidy_no_frames
      (history : string -> string -> string -> bool -> Hist)
      (tickers : list string) (period interval : string) (adj : bool) (h : heap) :
  fetched_frames history tickers period interval adj = [] ->
  download_history_tidy history tickers period interval adj h
  = (Raise (RuntimeError
              "No data returned from yfinance. Check tickers/period/interval."), h).
Proof.
  intros E. unfold download_history_tidy.
  fold (fetched_frames history tickers period interval adj). rewrite E.
  reflexivity.
Qed.

Lemma download_history_tidy_some_frames
      (history : string -> string -> string -> bool -> Hist)
      (tickers : list string) (period interval : string) (adj : bool) (h : heap) :
  fetched_frames history tickers period interval adj <> [] ->
  exists (res : result ref) (h' : heap),
    download_history_tidy history tickers period interval adj h = (res, h')
    /\ ((exists r, res = Ok r) \/ (exists c, res = Raise (KeyError c))
        \/ (exists msg, res = Raise (ValueError msg))).
Proof.
  intros Hne. unfold download_history_tidy.
  fold (fetched_frames history tickers period interval adj).
  set (frames := fetched_frames history tickers period interval adj) in *.
  destruct frames as [| f fs] eqn:Ef; [congruence |].
  rewrite <- Ef. clear Ef f fs Hne.
  unfold bind at 1. unfold alloc.
  unfold bind at 1. unfold getitem.
  rewrite (bind_ok _ _ _ _ _ _ _ (deref_run _ _ _ (nth_error_snoc h (concat frames)))).
  unfold bind at 1. unfold require_column.
  destruct (has_column "date" (columns (concat frames))) eqn:Hd;
    [| eexists; eexists; split; [reflexivity | right; left; eauto]].
  unfold ret at 1. unfold ret at 1.
  unfold bind at 1. rewrite to_datetime_dates_run.
  destruct (one_zone _);
    [| eexists; eexists; split; [reflexivity | right; right; eauto]].
  unfold bind at 1. unfold sort_values_ticker_date.
  rewrite (bind_ok _ _ _ _ _ _ _ (deref_run _ _ _ (nth_error_snoc h (concat frames)))).
  unfold bind at 1. unfold require_column at 1.
  destruct (has_column "ticker" (columns (concat frames))) eqn:Ht;
    [| eexists; eexists; split; [reflexivity | right; left; eauto]].
  unfold ret at 1.
  rewrite (bind_ok _ _ _ _ _ _ _ (require_column_run "date" _ _ Hd)).
  eexists. eexists. split; [reflexivity | left; eauto].
Qed.

(** C2: the code at the failing input.  For a symbol without data the
    provider answers with an empty frame that still has its columns (or, at
    the very least, its index): the block is kept, nothing is raised, and an
    empty table is returned.  The error for missing data is raised exactly
    when the loop kept no block, which depends on the column names of the
    frames and not on their rows. *)
Theorem download_history_tidy_all_tickers_empty :
  download_history_tidy provider_without_data ["ZZZZINVALID"] "6mo" "1d" true []
  = (Ok 1, [mkFrame tidy_columns []; mkFrame tidy_columns []])
  /\ download_history_tidy provider_bare_empty ["ZZZZINVALID"] "6mo" "1d" true []
     = (Ok 1, [mkFrame ["date"; "ticker"] []; mkFrame ["date"; "ticker"] []])
  /\ (forall (history : string -> string -> string -> bool -> Hist)
             (tickers : list string) (period interval : string) (adj : bool)
             (h : heap),
         (exists (msg : string) (h' : heap),
             download_history_tidy history tickers period interval adj h
             = (Raise (RuntimeError msg), h'))
         <-> fetched_frames history tickers period interval adj = []).
Proof.
  split; [reflexivity |]. split; [reflexivity |].
  intros history tickers period interval adj h. split.
  - intros (msg & h' & H).
    destruct (fetched_frames history tickers period interval adj) as [| f fs] eqn:E;
      [reflexivity | exfalso].
    destruct (download_history_tidy_some_frames history tickers period interval adj h)
      as (res & h2 & H2 & [(r & ->) | [(c & ->) | (m & ->)]]);
      [rewrite E; discriminate | | |]; congruence.
  - intros E. eexists. exists h.
    apply download_history_tidy_no_frames. exact E.
Qed.

End FetchClaims.


(* ================================================================== *)
(** * The cache key *)
(* ================================================================== *)

Section KeyFacts.

Local Open Scope string_scope.

Lemma key_eqb_eq (a b : key) : key_eqb a b = true <-> a = b.
Proof.
  destruct a as [a1 a2], b as [b1 b2]. unfold key_eqb. cbn [fst snd].
  rewrite andb_true_iff, !String.eqb_eq. split.
  - intros [-> ->]. reflexivity.
  - intros E. inversion E. auto.
Qed.

Lemma key_eqb_refl (a : key) : key_eqb a a = true.
Proof. apply key_eqb_eq. reflexivity. Qed.

Lemma key_eqb_neq (a b : key) : key_eqb a b = false <-> a <> b.
Proof.
  split.
  - intros H E. apply key_eqb_eq in E. congruence.
  - intros N. destruct (key_eqb a b) eqn:E; [| reflexivity].
    apply key_eqb_eq in E. contradiction.
Qed.

Lemma comma_free_cons (a : ascii) (s : string) :
  comma_free (String a s) <-> Ascii.eqb a "," = false /\ comma_free s.
Proof.
  unfold comma_free. cbn [list_ascii_of_string forallb].
  rewrite andb_true_iff, negb_true_iff. reflexivity.
Qed.

Lemma split_comma_free (s : string) :
  comma_free s -> PyStr.split "," s = [s].
Proof.
  induction s as [| a s IH]; intros H; [reflexivity |].
  apply comma_free_cons in H. destruct H as [Ha Hs].
  cbn [PyStr.split]. rewrite Ha, (IH Hs). reflexivity.
Qed.

Lemma split_comma_free_app (s rest : string) :
  comma_free s ->
  PyStr.split "," (s ++ "," ++ rest) = s :: PyStr.split "," rest.
Proof.
  induction s as [| a s IH]; intros H.
  - reflexivity.
  - apply comma_free_cons in H. destruct H as [Ha Hs].
    cbn [String.append PyStr.split] in *. rewrite Ha, (IH Hs). reflexivity.
Qed.

(** [_cached_fetch] recovers from the key the selection [update_main]
    joined. *)
Lemma split_join (l : list string) :
  l <> [] -> Forall comma_free l ->
  PyStr.split "," (tickers_key_of l) = l.
Proof.
  unfold tickers_key_of, PyStr.join.
  induction l as [| x l IH]; intros Hne Hall; [congruence |].
  apply Forall_cons_iff in Hall. destruct Hall as [Hx Hall].
  destruct l as [| y l].
  - cbn [String.concat]. apply split_comma_free. exact Hx.
  - cbn [String.concat].
    rewrite split_comma_free_app by exact Hx.
    f_equal. apply IH; [discriminate | exact Hall].
Qed.

Lemma find_singleton (k k' : key) (v : ref) :
  Functools.find key_eqb k' [(k, v)] = if key_eqb k k' then Some v else None.
Proof.
  unfold Functools.find. cbn [List.find fst snd].
  destruct (key_eqb k k'); reflexivity.
Qed.

(** C1, amended.  The key is the comma-join of the selected tickers in the
    order of the selection, with the interval.  For non-empty selections of
    symbols without a comma, two requests have the same key exactly when they
    select the same tickers in the same order at the same interval, and only
    then does a lookup of one find the cache entry of the other: the same
    tickers in another order are another entry. *)
Theorem tickers_key_order_sensitive (l1 l2 : list string) (i1 i2 : string) :
  l1 <> [] -> l2 <> [] ->
  Forall comma_free l1 -> Forall comma_free l2 ->
  ((tickers_key_of l1, i1) = (tickers_key_of l2, i2) <-> l1 = l2 /\ i1 = i2)
  /\ (key_eqb (tickers_key_of l1, i1) (tickers_key_of l2, i2) = true
      <-> l1 = l2 /\ i1 = i2)
  /\ (forall v : ref,
        Functools.find key_eqb (tickers_key_of l2, i2)
                       [((tickers_key_of l1, i1), v)]
        = Some v
        <-> l1 = l2 /\ i1 = i2).
Proof.
  intros N1 N2 F1 F2.
  assert (Hk : (tickers_key_of l1, i1) = (tickers_key_of l2, i2)
               <-> l1 = l2 /\ i1 = i2).
  { split.
    - intros E. inversion E as [[Et Ei]]. split; [| reflexivity].
      rewrite <- (split_join l1 N1 F1), <- (split_join l2 N2 F2), Et.
      reflexivity.
    - intros [-> ->]. reflexivity. }
  split; [exact Hk |].
  split; [rewrite key_eqb_eq; exact Hk |].
  intros v. rewrite find_singleton.
  destruct (key_eqb (tickers_key_of l1, i1) (tickers_key_of l2, i2)) eqn:E.
  - apply key_eqb_eq in E. apply Hk in E. tauto.
  - apply key_eqb_neq in E. split; [discriminate |].
    intros H. apply Hk in H. contradiction.
Qed.

Lemma tickers_key_order_sensitive_witness :
  ((tickers_key_of ["AAPL"; "MSFT"], "1d") = (tickers_key_of ["MSFT"; "AAPL"], "1d")
   <-> ["AAPL"; "MSFT"] = ["MSFT"; "AAPL"] /\ "1d" = "1d").
Proof.
  apply (tickers_key_order_sensitive ["AAPL"; "MSFT"] ["MSFT"; "AAPL"] "1d" "1d");
    try discriminate; repeat constructor.
Defined.

(** C1 as stated fails: the same two symbols selected in the two orders give
    two keys, and the entry stored under one is not found under the other. *)
Lemma selection_order_changes_key :
  (forall s, In s ["AAPL"; "MSFT"] <-> In s ["MSFT"; "AAPL"])
  /\ tickers_key_of ["AAPL"; "MSFT"] = "AAPL,MSFT"
  /\ tickers_key_of ["MSFT"; "AAPL"] = "MSFT,AAPL"
  /\ (tickers_key_of ["AAPL"; "MSFT"], "1d") <> (tickers_key_of ["MSFT"; "AAPL"], "1d")
  /\ (forall v : ref,
        Functools.find key_eqb (tickers_key_of ["MSFT"; "AAPL"], "1d")
                       [((tickers_key_of ["AAPL"; "MSFT"], "1d"), v)]
        = None)
  /\ after_both_orders = ([(("MSFT,AAPL", "1d"), 11); (("AAPL,MSFT", "1d"), 5)], 12).
Proof.
  split; [intros s; cbn [In]; tauto |].
  split; [reflexivity |]. split; [reflexivity |].
  split; [discriminate |].
  split; [reflexivity | vm_compute; reflexivity].
Qed.

End KeyFacts.


(* ================================================================== *)
(** * The recency order of the cache *)
(* ================================================================== *)

Section CacheFacts.

Local Open Scope string_scope.

Let differs (k : key) : key -> bool := fun k' => negb (key_eqb k' k).

Lemma keys_of_remove (k : key) (c : fetch_cache) :
  keys_of (Functools.remove key_eqb k c) = filter (differs k) (keys_of c).
Proof.
  unfold keys_of, Functools.remove, differs.
  induction c as [| [k' v] c IH]; cbn [filter map fst]; [reflexivity |].
  destruct (key_eqb k' k); cbn [negb map fst]; rewrite IH; reflexivity.
Qed.

Lemma keys_of_firstn (n : nat) (c : fetch_cache) :
  keys_of (firstn n c) = firstn n (keys_of c).
Proof. unfold keys_of. symmetry. apply firstn_map. Qed.

Lemma find_some_in (k : key) (c : fetch_cache) (v : ref) :
  Functools.find key_eqb k c = Some v -> In k (keys_of c).
Proof.
  unfold Functools.find, keys_of.
  destruct (List.find _ c) as [[k' v'] |] eqn:E; [| discriminate].
  intros _. apply find_some in E. destruct E as [Hin Heq].
  cbn [fst] in Heq. apply key_eqb_eq in Heq. subst k'.
  apply in_map_iff. exists (k, v'). split; [reflexivity | exact Hin].
Qed.

Lemma find_none_not_in (k : key) (c : fetch_cache) :
  Functools.find key_eqb k c = None -> ~ In k (keys_of c).
Proof.
  unfold Functools.find, keys_of.
  destruct (List.find _ c) as [e |] eqn:E; [discriminate |].
  intros _ Hin. apply in_map_iff in Hin. destruct Hin as ([k' v] & Ek & Hin).
  cbn [fst] in Ek. subst k'.
  pose proof (find_none _ _ E _ Hin) as Hf. cbn [fst] in Hf.
  rewrite key_eqb_refl in Hf. discriminate.
Qed.

Lemma filter_differs_cons (k x : key) (l : list key) :
  filter (differs k) (x :: l)
  = if key_eqb x k then filter (differs k) l else x :: filter (differs k) l.
Proof. cbn [filter]. unfold differs at 1. destruct (key_eqb x k); reflexivity. Qed.

Lemma filter_differs_id (k : key) (l : list key) :
  ~ In k l -> filter (differs k) l = l.
Proof.
  induction l as [| x l IH]; intros H; [reflexivity |].
  rewrite filter_differs_cons.
  destruct (key_eqb x k) eqn:E.
  - apply key_eqb_eq in E. subst x. exfalso. apply H. left. reflexivity.
  - f_equal. apply IH. intros Hin. apply H. right. exact Hin.
Qed.

Lemma in_filter_differs (k k' : key) (l : list key) :
  In k' (filter (differs k) l) <-> In k' l /\ k' <> k.
Proof.
  rewrite filter_In. unfold differs. rewrite negb_true_iff, key_eqb_neq.
  reflexivity.
Qed.

Lemma distinct_nodup (l : list key) : NoDup (distinct l).
Proof.
  induction l as [| k l IH]; cbn [distinct]; constructor.
  - fold (differs k). rewrite in_filter_differs. tauto.
  - apply NoDup_filter. exact IH.
Qed.

Lemma recency_nodup (hist : list key) : NoDup (recency hist).
Proof. apply distinct_nodup. Qed.

(** An access moves its key to the front of the recency order. *)
Lemma recency_snoc (hist : list key) (k : key) :
  recency (hist ++ [k]) = k :: filter (differs k) (recency hist).
Proof. unfold recency. rewrite rev_app_distr. reflexivity. Qed.

Lemma in_firstn (A : Type) (x : A) (n : nat) (l : list A) :
  In x (firstn n l) -> In x l.
Proof.
  revert l. induction n as [| n IH]; intros [| y l] H; cbn in *; try tauto.
  destruct H as [H | H]; [left; exact H | right; apply IH; exact H].
Qed.

Lemma filter_firstn_hit (k : key) (n : nat) (l : list key) :
  NoDup l -> In k (firstn n l) ->
  filter (differs k) (firstn n l) = firstn (n - 1) (filter (differs k) l).
Proof.
  intros Hnd. revert n. induction Hnd as [| x l Hx Hnd IH]; intros [| n] Hin;
    cbn [firstn In] in Hin; try tauto.
  rewrite firstn_cons, !filter_differs_cons.
  replace (S n - 1)%nat with n by lia.
  destruct (key_eqb x k) eqn:E.
  - apply key_eqb_eq in E. subst x.
    rewrite (filter_differs_id k l Hx).
    apply filter_differs_id. intros H. apply Hx. eapply in_firstn. exact H.
  - destruct Hin as [Hin | Hin];
      [subst x; rewrite key_eqb_refl in E; discriminate |].
    destruct n as [| n]; [cbn in Hin; tauto |].
    rewrite (IH (S n) Hin). rewrite firstn_cons.
    replace (S n - 1)%nat with n by lia. reflexivity.
Qed.

Lemma filter_firstn_miss (k : key) (n : nat) (l : list key) :
  ~ In k (firstn n l) ->
  firstn n (filter (differs k) l) = firstn n l.
Proof.
  revert l. induction n as [| n IH]; intros [| x l] H; try reflexivity.
  rewrite filter_differs_cons. cbn [firstn In] in H.
  destruct (key_eqb x k) eqn:E.
  - apply key_eqb_eq in E. subst x. exfalso. apply H. left. reflexivity.
  - rewrite !firstn_cons. f_equal. apply IH. intros Hin. apply H. right. exact Hin.
Qed.

Lemma not_in_firstn_le (k : key) (n m : nat) (l : list key) :
  (n <= m)%nat -> ~ In k (firstn m l) -> ~ In k (firstn n l).
Proof.
  intros Hle H Hin. apply H.
  replace m with (n + (m - n))%nat by lia.
  rewrite <- (firstn_skipn n l) at 1.
  rewrite firstn_app, length_firstn.
  apply in_or_app. left.
  rewrite firstn_firstn. replace (Nat.min (n + (m - n)) n) with n by lia.
  exact Hin.
Qed.

(** The keys of the cache after a hit, and after a miss that stores. *)
Lemma keys_after_hit (hist : list key) (k : key) (m : nat) :
  In k (firstn m (recency hist)) ->
  k :: filter (differs k) (firstn m (recency hist))
  = firstn m (recency (hist ++ [k])).
Proof.
  intros Hin. rewrite recency_snoc.
  destruct m as [| m]; [cbn in Hin; tauto |].
  rewrite firstn_cons. f_equal.
  rewrite (filter_firstn_hit k (S m) _ (recency_nodup hist) Hin).
  replace (S m - 1)%nat with m by lia. reflexivity.
Qed.

Lemma keys_after_miss (hist : list key) (k : key) (m : nat) :
  ~ In k (firstn m (recency hist)) ->
  firstn m (k :: firstn m (recency hist))
  = firstn m (recency (hist ++ [k])).
Proof.
  intros Hout. rewrite recency_snoc.
  destruct m as [| m]; [reflexivity |].
  rewrite !firstn_cons. f_equal.
  rewrite filter_firstn_miss
    by (apply (not_in_firstn_le k m (S m)); [lia | exact Hout]).
  rewrite firstn_firstn. replace (Nat.min m (S m)) with m by lia. reflexivity.
Qed.

(** ** Recency and time of last access *)

Lemma last_access_from_bounds (n : nat) (hist : list key) (k : key) (t : nat) :
  last_access_from n hist k = Some t -> (n <= t < n + length hist)%nat.
Proof.
  revert n. induction hist as [| x hist IH]; intros n H; cbn in H; [discriminate |].
  destruct (last_access_from (S n) hist k) as [t' |] eqn:E.
  - inversion H; subst t'. apply IH in E. cbn [length]. lia.
  - destruct (key_eqb x k); [| discriminate]. inversion H; subst. cbn [length]. lia.
Qed.

Lemma last_access_from_snoc_same (n : nat) (hist : list key) (k : key) :
  last_access_from n (hist ++ [k]) k = Some (n + length hist)%nat.
Proof.
  revert n. induction hist as [| x hist IH]; intros n; cbn.
  - rewrite key_eqb_refl. f_equal. lia.
  - rewrite IH. f_equal. lia.
Qed.

Lemma last_access_from_snoc_other (n : nat) (hist : list key) (x k : key) :
  k <> x -> last_access_from n (hist ++ [x]) k = last_access_from n hist k.
Proof.
  intros N. revert n. induction hist as [| y hist IH]; intros n; cbn.
  - assert (E : key_eqb x k = false) by (apply key_eqb_neq; congruence).
    rewrite E. reflexivity.
  - rewrite IH. reflexivity.
Qed.

Lemma last_access_from_in (n : nat) (hist : list key) (k : key) :
  In k hist -> exists t, last_access_from n hist k = Some t.
Proof.
  revert n. induction hist as [| x hist IH]; intros n Hin; [destruct Hin |].
  cbn. destruct (last_access_from (S n) hist k) as [t |] eqn:E; [eauto |].
  destruct Hin as [-> | Hin].
  - rewrite key_eqb_refl. eauto.
  - destruct (IH (S n) Hin) as (t & Ht). congruence.
Qed.

Lemma in_distinct (k : key) (l : list key) : In k (distinct l) -> In k l.
Proof.
  induction l as [| x l IH]; cbn [distinct]; [tauto |].
  intros [-> | Hin]; [left; reflexivity |].
  right. apply IH. apply filter_In in Hin. tauto.
Qed.

Lemma in_recency (k : key) (hist : list key) : In k (recency hist) -> In k hist.
Proof. intros H. apply in_distinct in H. apply in_rev. exact H. Qed.

(** A filter keeps the relative order of what it keeps. *)
Lemma filter_keeps_order (f : key -> bool) (l : list key)
      (a b : nat) (x y : key) :
  nth_error (filter f l) a = Some x -> nth_error (filter f l) b = Some y ->
  (a < b)%nat ->
  exists a' b' : nat,
    nth_error l a' = Some x /\ nth_error l b' = Some y /\ (a' < b')%nat.
Proof.
  revert a b. induction l as [| z l IH]; intros a b Ha Hb Hlt.
  - destruct a; discriminate Ha.
  - cbn [filter] in Ha, Hb. destruct (f z).
    + destruct b as [| b]; [lia |]. cbn [nth_error] in Hb.
      destruct a as [| a]; cbn [nth_error] in Ha.
      * inversion Ha; subst z.
        apply nth_error_In in Hb. apply filter_In in Hb. destruct Hb as [Hb _].
        destruct (In_nth_error _ _ Hb) as (b' & Hb').
        exists 0%nat, (S b'). repeat split; [exact Hb' | lia].
      * destruct (IH a b Ha Hb) as (a' & b' & H1 & H2 & H3); [lia |].
        exists (S a'), (S b'). repeat split; [exact H1 | exact H2 | lia].
    + destruct (IH a b Ha Hb Hlt) as (a' & b' & H1 & H2 & H3).
      exists (S a'), (S b'). repeat split; [exact H1 | exact H2 | lia].
Qed.

(** The recency order is the order of the times of last access, latest
    first. *)
Lemma recency_order (hist : list key) (n1 n2 : nat) (k1 k2 : key) :
  nth_error (recency hist) n1 = Some k1 ->
  nth_error (recency hist) n2 = Some k2 ->
  (n1 < n2)%nat ->
  accessed_after hist k1 k2.
Proof.
  revert n1 n2 k1 k2. induction hist as [| x hist IH] using rev_ind;
    intros n1 n2 k1 k2 H1 H2 Hlt.
  - destruct n1; discriminate H1.
  - rewrite recency_snoc in H1, H2. unfold accessed_after, last_access.
    destruct n2 as [| b]; [lia |]. cbn [nth_error] in H2.
    assert (N2 : k2 <> x).
    { apply nth_error_In in H2. apply in_filter_differs in H2. tauto. }
    rewrite (last_access_from_snoc_other 0 hist x k2 N2).
    destruct n1 as [| a]; cbn [nth_error] in H1.
    + inversion H1; subst k1.
      rewrite last_access_from_snoc_same.
      assert (In2 : In k2 hist).
      { apply in_recency. apply nth_error_In in H2.
        apply in_filter_differs in H2. tauto. }
      destruct (last_access_from_in 0 hist k2 In2) as (t2 & Ht2).
      exists (0 + length hist)%nat, t2.
      split; [reflexivity |]. split; [exact Ht2 |].
      apply last_access_from_bounds in Ht2. lia.
    + assert (N1 : k1 <> x).
      { apply nth_error_In in H1. apply in_filter_differs in H1. tauto. }
      rewrite (last_access_from_snoc_other 0 hist x k1 N1).
      destruct (filter_keeps_order _ _ a b k1 k2 H1 H2) as (a' & b' & Ha & Hb & Hab);
        [lia |].
      exact (IH a' b' k1 k2 Ha Hb Hab).
Qed.

Lemma touch_permutation (k : key) (l : list key) :
  NoDup l -> In k l -> Permutation (k :: filter (differs k) l) l.
Proof.
  induction 1 as [| x l Hx Hnd IH]; intros Hin; [destruct Hin |].
  rewrite filter_differs_cons. destruct (key_eqb x k) eqn:E.
  - apply key_eqb_eq in E. subst x.
    rewrite (filter_differs_id k l Hx). reflexivity.
  - destruct Hin as [Hin | Hin];
      [subst x; rewrite key_eqb_refl in E; discriminate |].
    rewrite perm_swap. apply perm_skip. apply IH. exact Hin.
Qed.

Lemma last_of_full (l : list key) (n : nat) :
  length l = S n ->
  exists (l' : list key) (v : key),
    l = (l' ++ [v])%list /\ removelast l = l'
    /\ length l' = n /\ nth_error l n = Some v.
Proof.
  intros Hlen.
  assert (Hne : l <> []) by (intros ->; discriminate).
  destruct (exists_last Hne) as (l' & v & E).
  exists l', v. subst l. rewrite removelast_last.
  rewrite length_app in Hlen. cbn in Hlen.
  split; [reflexivity |]. split; [reflexivity |]. split; [lia |].
  rewrite nth_error_app2 by lia.
  replace (n - length l')%nat with 0%nat by lia. reflexivity.
Qed.

Lemma firstn_nodup (n : nat) (l : list key) : NoDup l -> NoDup (firstn n l).
Proof.
  intros H. rewrite <- (firstn_skipn n l) in H.
  apply NoDup_app_remove_r in H. exact H.
Qed.

Lemma bounded_by_keys (c : fetch_cache) (l : list key) :
  keys_of c = firstn maxsize l -> (length c <= maxsize)%nat.
Proof.
  intros H. rewrite <- (length_map fst c). fold (keys_of c).
  rewrite H, length_firstn. lia.
Qed.

Lemma find_cons_same (k : key) (v : ref) (c : fetch_cache) :
  Functools.find key_eqb k ((k, v) :: c) = Some v.
Proof. unfold Functools.find. cbn. rewrite key_eqb_refl. reflexivity. Qed.

Lemma find_cons_other (k k' : key) (v : ref) (c : fetch_cache) :
  k' <> k ->
  Functools.find key_eqb k' ((k, v) :: c) = Functools.find key_eqb k' c.
Proof.
  intros N. unfold Functools.find. cbn [List.find fst].
  replace (key_eqb k k') with false; [reflexivity |].
  symmetry. apply key_eqb_neq. congruence.
Qed.

Lemma find_remove_other (k k' : key) (c : fetch_cache) :
  k' <> k ->
  Functools.find key_eqb k' (Functools.remove key_eqb k c)
  = Functools.find key_eqb k' c.
Proof.
  intros N. induction c as [| [x v] c IH]; [reflexivity |].
  unfold Functools.remove. cbn [filter fst].
  fold (Functools.remove key_eqb k c).
  destruct (key_eqb x k) eqn:E; cbn [negb].
  - apply key_eqb_eq in E. subst x.
    rewrite find_cons_other by exact N. exact IH.
  - unfold Functools.find in *. cbn [List.find fst].
    destruct (key_eqb x k'); [reflexivity | exact IH].
Qed.

Lemma find_firstn (k : key) (n : nat) (c : fetch_cache) :
  In k (keys_of (firstn n c)) ->
  Functools.find key_eqb k (firstn n c) = Functools.find key_eqb k c.
Proof.
  revert c. induction n as [| n IH]; intros [| [x v] c] Hin; try reflexivity.
  - destruct Hin.
  - rewrite firstn_cons in *. unfold Functools.find in *. cbn [List.find fst].
    destruct (key_eqb x k) eqn:E; [reflexivity |].
    apply IH. cbn [keys_of map fst] in Hin. destruct Hin as [Hin | Hin]; [| exact Hin].
    subst x. rewrite key_eqb_refl in E. discriminate.
Qed.

Section WithFunction.

Variable history : string -> string -> string -> bool -> Hist.

(** Whatever the next call is, a key at the front of the cache is still in
    the cache after it. *)
Lemma front_survives (c : fetch_cache) (k : key) (rest : list key)
      (tk iv : string) (h : heap) :
  keys_of c = k :: rest ->
  In k (keys_of (cache_after (_cached_fetch history tk iv c h))).
Proof.
  intros Hk. unfold cache_after, _cached_fetch, Functools.lru_call.
  destruct (Functools.find key_eqb (tk, iv) c) as [v |] eqn:Ef.
  - cbn [fst snd keys_of map]. fold (keys_of (Functools.remove key_eqb (tk, iv) c)).
    rewrite keys_of_remove, Hk.
    destruct (key_eqb k (tk, iv)) eqn:E.
    + apply key_eqb_eq in E. left. symmetry. exact E.
    + right. apply in_filter_differs. split; [left; reflexivity |].
      apply key_eqb_neq. exact E.
  - destruct (fetch_body history (tk, iv) h) as [[v | e] h'] eqn:Eb;
      cbn [fst snd].
    + rewrite keys_of_firstn. cbn [keys_of map fst]. fold (keys_of c).
      rewrite Hk. unfold maxsize. cbn [firstn]. right. left. reflexivity.
    + rewrite Hk. left. reflexivity.
Qed.

(** What a call does to the cache, by the way it ends. *)
Lemma cached_fetch_cases (hist : list key) (c : fetch_cache)
        (tk iv : string) (h : heap) :
  keys_of c = firstn maxsize (recency hist) ->
  match _cached_fetch history tk iv c h with
  | ((Ok v, c'), h') =>
      (length c' <= maxsize)%nat
      /\ keys_of c' = firstn maxsize (recency (hist ++ [(tk, iv)]))
      /\ (In (tk, iv) (keys_of c) ->
          Permutation (keys_of c') (keys_of c) /\ h' = h)
      /\ (~ In (tk, iv) (keys_of c) -> (length c < maxsize)%nat ->
          keys_of c' = (tk, iv) :: keys_of c)
      /\ (~ In (tk, iv) (keys_of c) -> length c = maxsize ->
          exists victim : key,
            keys_of c = (removelast (keys_of c) ++ [victim])%list
            /\ keys_of c' = (tk, iv) :: removelast (keys_of c)
            /\ ~ In victim (keys_of c')
            /\ (forall k', In k' (keys_of c) -> k' <> victim ->
                   accessed_after hist k' victim /\ In k' (keys_of c')))
      /\ (forall (tk2 iv2 : string) (h2 : heap),
             In (tk, iv)
                (keys_of (cache_after (_cached_fetch history tk2 iv2 c' h2))))
  | ((Raise e, c'), h') => c' = c
  end.
Proof.
  intros Hinv.
  assert (Hlenk : forall c0 : fetch_cache, length (keys_of c0) = length c0)
    by (intros c0; apply length_map).
  assert (Hnd : NoDup (keys_of c))
    by (rewrite Hinv; apply firstn_nodup, recency_nodup).
  pose proof (front_survives) as Hfront.
  unfold _cached_fetch, Functools.lru_call in *.
  destruct (Functools.find key_eqb (tk, iv) c) as [v |] eqn:Ef.
  - (* hit *)
    pose proof (find_some_in _ _ _ Ef) as Hin.
    assert (Hk : keys_of ((tk, iv, v) :: Functools.remove key_eqb (tk, iv) c)
                 = firstn maxsize (recency (hist ++ [(tk, iv)]))).
    { cbn [keys_of map fst]. fold (keys_of (Functools.remove key_eqb (tk, iv) c)).
      rewrite keys_of_remove, Hinv. apply keys_after_hit.
      rewrite <- Hinv. exact Hin. }
    split; [exact (bounded_by_keys _ _ Hk) |].
    split; [exact Hk |].
    split.
    { intros _. split; [| reflexivity].
      cbn [keys_of map fst]. fold (keys_of (Functools.remove key_eqb (tk, iv) c)).
      rewrite keys_of_remove. apply touch_permutation; assumption. }
    split; [intros Hout; contradiction |].
    split; [intros Hout; contradiction |].
    intros tk2 iv2 h2.
    apply (Hfront _ (tk, iv)
             (keys_of (Functools.remove key_eqb (tk, iv) c))). reflexivity.
  - (* miss *)
    pose proof (find_none_not_in _ _ Ef) as Hout.
    destruct (fetch_body history (tk, iv) h) as [[v | e] h'] eqn:Eb;
      [| reflexivity].
    assert (Hk0 : keys_of (firstn maxsize ((tk, iv, v) :: c))
                  = firstn maxsize ((tk, iv) :: keys_of c)).
    { rewrite keys_of_firstn. reflexivity. }
    assert (Hk : keys_of (firstn maxsize ((tk, iv, v) :: c))
                 = firstn maxsize (recency (hist ++ [(tk, iv)]))).
    { rewrite Hk0, Hinv. apply keys_after_miss. rewrite <- Hinv. exact Hout. }
    split; [exact (bounded_by_keys _ _ Hk) |].
    split; [exact Hk |].
    split; [intros Hin; contradiction |].
    split.
    { intros _ Hlt. etransitivity; [exact Hk0 |]. apply firstn_all2.
      cbn [length]. rewrite Hlenk. lia. }
    split.
    { intros _ Hfull.
      assert (Hlen : length (keys_of c) = S (maxsize - 1))
        by (rewrite Hlenk, Hfull; unfold maxsize; lia).
      destruct (last_of_full _ _ Hlen) as (front & victim & Ev & Er & Hl' & Hn).
      rewrite Er.
      assert (Hk1 : keys_of (firstn maxsize ((tk, iv, v) :: c))
                    = (tk, iv) :: front).
      { rewrite Hk0.
        replace maxsize with (S (maxsize - 1)) at 1 by (unfold maxsize; lia).
        rewrite firstn_cons. f_equal.
        rewrite Ev, firstn_app, Hl', Nat.sub_diag. cbn [firstn].
        rewrite app_nil_r. apply firstn_all2. lia. }
      assert (Hvout : ~ In victim front).
      { rewrite Ev in Hnd. apply NoDup_remove_2 in Hnd.
        rewrite app_nil_r in Hnd. exact Hnd. }
      assert (Hvin : In victim (keys_of c)).
      { rewrite Ev. apply in_or_app. right. left. reflexivity. }
      exists victim. split; [exact Ev |]. split; [exact Hk1 |].
      split.
      { intros Hv.
        assert (Hv' : In victim ((tk, iv) :: front))
          by (rewrite <- Hk1; exact Hv).
        destruct Hv' as [E | Hin]; [| contradiction].
        apply Hout. rewrite E. exact Hvin. }
      intros k' Hin' Hneq. split.
      - destruct (In_nth_error _ _ Hin') as (n1 & Hn1).
        assert (Hlt1 : (n1 < length (keys_of c))%nat)
          by (apply nth_error_Some; congruence).
        assert (n1 <> maxsize - 1)%nat by (intros ->; congruence).
        rewrite Hinv in Hn1, Hn.
        rewrite nth_error_firstn in Hn1, Hn.
        destruct (Nat.ltb_spec n1 maxsize); [| discriminate].
        destruct (Nat.ltb_spec (maxsize - 1) maxsize);
          [| unfold maxsize in *; lia].
        apply (recency_order hist n1 (maxsize - 1)); [exact Hn1 | exact Hn | lia].
      - assert (Hgoal : In k' ((tk, iv) :: front)).
        { right. rewrite Ev in Hin'.
          apply in_app_or in Hin'. destruct Hin' as [Hin' | [E | []]];
            [exact Hin' | congruence]. }
        rewrite <- Hk1 in Hgoal. exact Hgoal. }
    intros tk2 iv2 h2.
    assert (Hhead : exists rest, keys_of (firstn maxsize ((tk, iv, v) :: c))
                                 = (tk, iv) :: rest).
    { rewrite Hk0. unfold maxsize. rewrite firstn_cons. eauto. }
    destruct Hhead as (rest & Hhead).
    apply (Hfront _ (tk, iv) rest). exact Hhead.
Qed.

Lemma cached_fetch_hit (tk iv : string) (c : fetch_cache) (h : heap) (v : ref) :
  Functools.find key_eqb (tk, iv) c = Some v ->
  _cached_fetch history tk iv c h
  = ((Ok v, (tk, iv, v) :: Functools.remove key_eqb (tk, iv) c), h).
Proof.
  intros E. unfold _cached_fetch, Functools.lru_call. rewrite E. reflexivity.
Qed.

Lemma cached_fetch_miss (tk iv : string) (c : fetch_cache) (h : heap) :
  Functools.find key_eqb (tk, iv) c = None ->
  _cached_fetch history tk iv c h
  = match fetch_body history (tk, iv) h with
    | (Ok v, h') => ((Ok v, firstn maxsize ((tk, iv, v) :: c)), h')
    | (Raise e, h') => ((Raise e, c), h')
    end.
Proof.
  intros E. unfold _cached_fetch, Functools.lru_call. rewrite E. reflexivity.
Qed.

(** A call that returns has its result in the cache, under its key, and
    leaves the results stored under the other keys as they were. *)
Lemma cached_fetch_stores (tk iv : string) (c c' : fetch_cache) (h h' : heap)
      (v : ref) :
  _cached_fetch history tk iv c h = ((Ok v, c'), h') ->
  Functools.find key_eqb (tk, iv) c' = Some v
  /\ forall k' : key, k' <> (tk, iv) -> In k' (keys_of c') ->
       Functools.find key_eqb k' c' = Functools.find key_eqb k' c.
Proof.
  intros H.
  destruct (Functools.find key_eqb (tk, iv) c) as [v0 |] eqn:Ef.
  - rewrite (cached_fetch_hit tk iv c h v0 Ef) in H.
    injection H as E1 E2 E3. subst v0 c' h'.
    split; [apply find_cons_same |].
    intros k' N _. rewrite find_cons_other by exact N.
    apply find_remove_other. exact N.
  - rewrite (cached_fetch_miss tk iv c h Ef) in H.
    destruct (fetch_body history (tk, iv) h) as [[v0 | e] h0]; [| discriminate H].
    assert (E1 : v0 = v) by congruence.
    assert (E2 : c' = firstn maxsize ((tk, iv, v0) :: c)) by congruence.
    clear H. subst v0 c'.
    pose proof (firstn_cons 63 (tk, iv, v) c) as Ec.
    change (S 63) with maxsize in Ec. rewrite Ec. clear Ec.
    split; [apply find_cons_same |].
    intros k' N Hin. rewrite find_cons_other by exact N.
    apply find_firstn.
    cbn [keys_of map fst] in Hin. destruct Hin as [Hin | Hin]; [congruence | exact Hin].
Qed.

(** C7.  The cache of [_cached_fetch] holds the 64 most recently accessed
    distinct keys, the most recent first, and never more than 64 entries.
    A call at a key that is held returns the stored result without running
    the body, and evicts nothing.  A call at a key that is not held runs
    the body: when the body raises, the call raises and the cache is as it
    was; when the body returns, the call returns its result and stores it,
    evicting nothing below capacity and, at capacity, exactly one entry,
    the one whose key is the least recently accessed of those held: every
    other key held was last accessed, by a hit or by a miss that stored it,
    at a later time, and is still held.  After a call that returns, a hit
    or a miss, its result is stored under its key, the results under the
    other keys are as they were, and its key is still in the cache after
    the next call, whatever that call is. *)
Theorem cached_fetch_is_lru (hist : list key) (c : fetch_cache)
        (tk iv : string) (h : heap) :
  keys_of c = firstn maxsize (recency hist) ->
  (length c <= maxsize)%nat
  /\ (In (tk, iv) (keys_of c)
      <-> exists v : ref, Functools.find key_eqb (tk, iv) c = Some v)
  /\ (forall v : ref,
         Functools.find key_eqb (tk, iv) c = Some v ->
         exists c' : fetch_cache,
           _cached_fetch history tk iv c h = ((Ok v, c'), h)
           /\ Permutation (keys_of c') (keys_of c))
  /\ (Functools.find key_eqb (tk, iv) c = None ->
      forall (e : exn) (h' : heap),
        fetch_body history (tk, iv) h = (Raise e, h') ->
        _cached_fetch history tk iv c h = ((Raise e, c), h'))
  /\ (Functools.find key_eqb (tk, iv) c = None ->
      forall (v : ref) (h' : heap),
        fetch_body history (tk, iv) h = (Ok v, h') ->
        exists c' : fetch_cache,
          _cached_fetch history tk iv c h = ((Ok v, c'), h')
          /\ ((length c < maxsize)%nat -> keys_of c' = (tk, iv) :: keys_of c)
          /\ (length c = maxsize ->
              exists victim : key,
                keys_of c = (removelast (keys_of c) ++ [victim])%list
                /\ keys_of c' = (tk, iv) :: removelast (keys_of c)
                /\ ~ In victim (keys_of c')
                /\ (forall k', In k' (keys_of c) -> k' <> victim ->
                       accessed_after hist k' victim /\ In k' (keys_of c'))))
  /\ (forall (v : ref) (c' : fetch_cache) (h' : heap),
         _cached_fetch history tk iv c h = ((Ok v, c'), h') ->
         Functools.find key_eqb (tk, iv) c' = Some v
         /\ (forall k' : key, k' <> (tk, iv) -> In k' (keys_of c') ->
               Functools.find key_eqb k' c' = Functools.find key_eqb k' c)
         /\ (length c' <= maxsize)%nat
         /\ keys_of c' = firstn maxsize (recency (hist ++ [(tk, iv)]))
         /\ (forall (tk2 iv2 : string) (h2 : heap),
                In (tk, iv)
                   (keys_of (cache_after (_cached_fetch history tk2 iv2 c' h2))))).
Proof.
  intros Hinv.
  pose proof (cached_fetch_cases hist c tk iv h Hinv) as Hall.
  split; [exact (bounded_by_keys _ _ Hinv) |].
  split.
  { split.
    - intros Hin.
      destruct (Functools.find key_eqb (tk, iv) c) as [v |] eqn:Ef; [eauto |].
      exfalso. exact (find_none_not_in _ _ Ef Hin).
    - intros (v & Ef). exact (find_some_in _ _ _ Ef). }
  split.
  { intros v Ef. rewrite (cached_fetch_hit tk iv c h v Ef) in Hall |- *.
    eexists. split; [reflexivity |].
    destruct Hall as (_ & _ & Hp & _).
    apply Hp. exact (find_some_in _ _ _ Ef). }
  split.
  { intros Ef e h' Eb. rewrite (cached_fetch_miss tk iv c h Ef), Eb. reflexivity. }
  split.
  { intros Ef v h' Eb.
    rewrite (cached_fetch_miss tk iv c h Ef), Eb in Hall |- *.
    eexists. split; [reflexivity |].
    destruct Hall as (_ & _ & _ & Hlow & Hfull & _).
    pose proof (find_none_not_in _ _ Ef) as Hout.
    split; [exact (Hlow Hout) | exact (Hfull Hout)]. }
  intros v c' h' Hrun.
  destruct (cached_fetch_stores tk iv c c' h h' v Hrun) as [Hs Hk].
  rewrite Hrun in Hall.
  destruct Hall as (Hlen & Hkeys & _ & _ & _ & Hnext).
  repeat split; assumption.
Qed.

End WithFunction.

Lemma cached_fetch_is_lru_witness :
  keys_of full_cache = firstn maxsize (recency sixty_four_keys)
  /\ length full_cache = maxsize
  /\ exists (v : ref) (c' : fetch_cache) (h' : heap),
       _cached_fetch provider_one_bar "T64" "1d" full_cache full_store
       = ((Ok v, c'), h')
       /\ Functools.find key_eqb ("T64", "1d") c' = Some v
       /\ keys_of c' = ("T64", "1d") :: removelast (keys_of full_cache)
       /\ ~ In ("T0", "1d") (keys_of c').
Proof.
  assert (Hinv : keys_of full_cache = firstn maxsize (recency sixty_four_keys))
    by (vm_compute; reflexivity).
  assert (Hlen : length full_cache = maxsize) by (vm_compute; reflexivity).
  assert (Ef : Functools.find key_eqb ("T64", "1d") full_cache = None)
    by (vm_compute; reflexivity).
  split; [exact Hinv |]. split; [exact Hlen |].
  destruct (cached_fetch_is_lru provider_one_bar sixty_four_keys full_cache
              "T64" "1d" full_store Hinv)
    as (_ & _ & _ & _ & Hmiss & Hret).
  destruct (fetch_body provider_one_bar ("T64", "1d") full_store)
    as [[v | e] h'] eqn:Eb; [| vm_compute in Eb; discriminate Eb].
  destruct (Hmiss Ef v h' eq_refl) as (c' & Hrun & _ & Hfull).
  destruct (Hfull Hlen) as (victim & Ev & Ek & Hv & _).
  destruct (Hret v c' h' Hrun) as (Hs & _).
  exists v, c', h'. split; [exact Hrun |]. split; [exact Hs |].
  split; [exact Ek |].
  assert (E0 : victim = ("T0", "1d")).
  { apply (f_equal (fun l => last l ("T0", "1d"))) in Ev.
    rewrite last_last in Ev. rewrite <- Ev. vm_compute. reflexivity. }
  rewrite <- E0. exact Hv.
Defined.

End CacheFacts.



(* ================================================================== *)
(** * More about the fetch adapter *)
(* ================================================================== *)

Section NormalizeMore.

Local Open Scope string_scope.

Lemma ycol_eqb_eq (a b : ycol) : ycol_eqb a b = true <-> a = b.
Proof.
  unfold ycol_eqb. rewrite Nat.eqb_eq. split; [| intros ->; reflexivity].
  destruct a, b; cbn; intros E; try discriminate E; reflexivity.
Qed.

Lemma has_ycol_in (y : ycol) (cols : list ycol) :
  has_ycol y cols = true <-> In y cols.
Proof.
  unfold has_ycol. rewrite existsb_exists. split.
  - intros (x & Hin & E). apply ycol_eqb_eq in E. subst x. exact Hin.
  - intros Hin. exists y. split; [exact Hin | apply ycol_eqb_eq; reflexivity].
Qed.

Lemma existsb_pointwise (A : Type) (f g : A -> bool) (l : list A) :
  (forall x, f x = g x) -> existsb f l = existsb g l.
Proof.
  intros H. induction l as [| x l IH]; [reflexivity |].
  cbn [existsb]. rewrite H, IH. reflexivity.
Qed.

Lemma mem_base_labels (c : string) (cols : list ycol) :
  mem c (map normalize_label (map ycol_label cols))
  = existsb (fun y => String.eqb c (normalize_label (ycol_label y))) cols.
Proof.
  unfold mem. induction cols as [| y cols IH]; [reflexivity |].
  cbn [map existsb]. rewrite IH. reflexivity.
Qed.

Lemma no_base_label (c : string) (cols : list ycol) :
  (forall y, String.eqb c (normalize_label (ycol_label y)) = false) ->
  mem c (map normalize_label (map ycol_label cols)) = false.
Proof.
  intros H. rewrite mem_base_labels.
  induction cols as [| y cols IH]; [reflexivity |].
  cbn [existsb]. rewrite H, IH. reflexivity.
Qed.

Lemma mem_close_label (cols : list ycol) :
  mem "close" (map normalize_label (map ycol_label cols)) = has_ycol Close cols.
Proof.
  rewrite mem_base_labels. unfold has_ycol.
  apply existsb_pointwise. intros y. destruct y; reflexivity.
Qed.

Lemma mem_adj_close_label (cols : list ycol) :
  mem "adj_close" (map normalize_label (map ycol_label cols)) = has_ycol AdjClose cols.
Proof.
  rewrite mem_base_labels. unfold has_ycol.
  apply existsb_pointwise. intros y. destruct y; reflexivity.
Qed.

Lemma rename_index_base (cols : list ycol) :
  map (fun l => if String.eqb l "index" then "date" else l)
      (map normalize_label (map ycol_label cols))
  = map normalize_label (map ycol_label cols).
Proof.
  induction cols as [| y cols IH]; [reflexivity |].
  cbn [map]. rewrite IH. destruct y; reflexivity.
Qed.

(** Without the rename of the adjusted close. *)
Lemma label_out_plain (cols all : list ycol) :
  (In AdjClose cols -> has_ycol Close all = true) ->
  map normalize_label (map ycol_label cols) = map (label_out all) cols.
Proof.
  induction cols as [| y cols IH]; intros H; [reflexivity |].
  cbn [map]. rewrite IH by (intros Hin; apply H; right; exact Hin). f_equal.
  destruct y; try reflexivity.
  cbn [label_out]. rewrite H by (left; reflexivity). reflexivity.
Qed.

(** With the rename of the adjusted close. *)
Lemma label_out_renamed (cols all : list ycol) :
  has_ycol Close all = false ->
  map (fun l => if String.eqb l "adj_close" then "close" else l)
      (map normalize_label (map ycol_label cols))
  = map (label_out all) cols.
Proof.
  intros H. induction cols as [| y cols IH]; [reflexivity |].
  cbn [map]. rewrite IH. f_equal.
  destruct y; try reflexivity.
  cbn [label_out]. rewrite H. reflexivity.
Qed.

Lemma normalize_step1 (i : string) (B : list string) (R : list (list cell)) :
  mem "date" B = false -> mem "index" B = false ->
  map (fun l => if String.eqb l "index" then "date" else l) B = B ->
  (if negb (mem "date" (i :: B)) && mem "index" (i :: B)
   then rename "index" "date" (mkTable (i :: B) R)
   else mkTable (i :: B) R)
  = mkTable ((if String.eqb i "index" then "date" else i) :: B) R.
Proof.
  intros Hd Hi Hr. unfold mem in *. cbn [existsb].
  rewrite Hd, Hi, !orb_false_r.
  destruct (String.eqb_spec "date" i) as [<- | Nd]; [reflexivity |].
  destruct (String.eqb_spec "index" i) as [<- | Ni]; cbn [negb andb].
  - unfold rename. cbn [labels records map]. rewrite Hr. reflexivity.
  - destruct (String.eqb_spec i "index") as [E | _]; [congruence | reflexivity].
Qed.

Lemma normalize_step2 (i : string) (cols : list ycol) (R : list (list cell)) :
  String.eqb "close" i = false -> String.eqb "adj_close" i = false ->
  String.eqb i "adj_close" = false ->
  labels (if negb (mem "close" (i :: map normalize_label (map ycol_label cols)))
             && mem "adj_close" (i :: map normalize_label (map ycol_label cols))
          then rename "adj_close" "close"
                 (mkTable (i :: map normalize_label (map ycol_label cols)) R)
          else mkTable (i :: map normalize_label (map ycol_label cols)) R)
  = i :: map (label_out cols) cols.
Proof.
  intros E1 E2 E3.
  set (B := map normalize_label (map ycol_label cols)).
  assert (M1 : mem "close" (i :: B) = has_ycol Close cols).
  { unfold mem. cbn [existsb]. rewrite E1. apply mem_close_label. }
  assert (M2 : mem "adj_close" (i :: B) = has_ycol AdjClose cols).
  { unfold mem. cbn [existsb]. rewrite E2. apply mem_adj_close_label. }
  rewrite M1, M2.
  destruct (has_ycol Close cols) eqn:Hc; cbn [negb andb].
  - cbn [labels]. f_equal. apply label_out_plain. intros _. exact Hc.
  - destruct (has_ycol AdjClose cols) eqn:Ha; cbn [labels rename map].
    + rewrite E3. f_equal. apply label_out_renamed. exact Hc.
    + f_equal. apply label_out_plain. intros Hin.
      apply has_ycol_in in Hin. congruence.
Qed.

Lemma labels_normalize (hst : Hist) :
  labels (_normalize_columns hst)
  = index_out (index_name hst)
      :: map (label_out (hist_columns hst)) (hist_columns hst).
Proof.
  set (cols := hist_columns hst).
  set (B := map normalize_label (map ycol_label cols)).
  set (R := records (reset_index hst)).
  assert (Hdate : mem "date" B = false)
    by (apply no_base_label; intros y; destruct y; reflexivity).
  assert (Hindex : mem "index" B = false)
    by (apply no_base_label; intros y; destruct y; reflexivity).
  assert (Hren : map (fun l => if String.eqb l "index" then "date" else l) B = B)
    by apply rename_index_base.
  assert (Hshape : exists i0 : string,
             (i0 = "date" /\ index_name hst = IndexDate
              \/ i0 = "datetime" /\ index_name hst = IndexDatetime
              \/ i0 = "index" /\ index_name hst = IndexUnnamed)
             /\ _normalize_columns hst
                = (let out := if negb (mem "date" (i0 :: B)) && mem "index" (i0 :: B)
                              then rename "index" "date" (mkTable (i0 :: B) R)
                              else mkTable (i0 :: B) R in
                   if negb (mem "close" (labels out)) && mem "adj_close" (labels out)
                   then rename "adj_close" "close" out else out)).
  { unfold _normalize_columns, reset_index, B, R, cols.
    destruct (index_name hst); [exists "date" | exists "datetime" | exists "index"];
      (split; [tauto | reflexivity]). }
  destruct Hshape as (i0 & Hi0 & ->). cbv zeta.
  rewrite (normalize_step1 i0 B R Hdate Hindex Hren). cbn [labels].
  destruct Hi0 as [[-> ->] | [[-> ->] | [-> ->]]]; cbn [index_out];
    apply (normalize_step2 _ cols R); reflexivity.
Qed.

(** X1.  [_normalize_columns] puts the time index first, under the label
    date when the index is named Date or has no name and under datetime when
    it is named Datetime, then every provider column in its place under its
    lowercase snake-case name, except that Adj Close is labelled close when
    the frame has no Close column; no cell is changed. *)
Theorem normalize_columns_labels (hst : Hist) :
  labels (_normalize_columns hst)
  = index_out (index_name hst)
      :: map (label_out (hist_columns hst)) (hist_columns hst)
  /\ records (_normalize_columns hst)
     = map (fun b => CTime (bar_time b)
                       :: map (fun y => CNum (bar_val b y)) (hist_columns hst))
           (bars hst).
Proof.
  split; [apply labels_normalize | apply records_normalize].
Qed.

End NormalizeMore.


Section FetchMore.

Local Open Scope string_scope.

Lemma mem_in (c : string) (l : list string) : mem c l = true <-> In c l.
Proof.
  unfold mem. rewrite existsb_exists. split.
  - intros (x & Hin & E). apply String.eqb_eq in E. subst x. exact Hin.
  - intros Hin. exists c. split; [exact Hin | apply String.eqb_refl].
Qed.

Lemma has_column_in (c : string) (l : list string) :
  has_column c l = true <-> In c l.
Proof. apply mem_in. Qed.

Lemma in_add_column (c x : string) (cols : list string) :
  In c (add_column x cols) <-> In c cols \/ c = x.
Proof.
  unfold add_column. destruct (has_column x cols) eqn:E.
  - apply has_column_in in E. split; [tauto |].
    intros [H | ->]; assumption.
  - rewrite in_app_iff. cbn [In]. split.
    + intros [H | [<- | []]]; [left; exact H | right; reflexivity].
    + intros [H | ->]; [left; exact H | right; left; reflexivity].
Qed.

Lemma nodup_add_column (x : string) (cols : list string) :
  NoDup cols -> NoDup (add_column x cols).
Proof.
  intros H. unfold add_column. destruct (has_column x cols) eqn:E; [exact H |].
  assert (N : ~ In x cols).
  { intros Hin. apply has_column_in in Hin. congruence. }
  apply (NoDup_Add (Add_app x cols [])).
  rewrite app_nil_r. split; assumption.
Qed.

Lemma fold_add_columns_in (c : string) (xs acc : list string) :
  In c (fold_left (fun a x => add_column x a) xs acc) <-> In c acc \/ In c xs.
Proof.
  revert acc. induction xs as [| x xs IH]; intros acc; cbn [fold_left In].
  - tauto.
  - rewrite IH, in_add_column. split; intros H; intuition (subst; auto).
Qed.

Lemma fold_add_columns_nodup (xs acc : list string) :
  NoDup acc -> NoDup (fold_left (fun a x => add_column x a) xs acc).
Proof.
  revert acc. induction xs as [| x xs IH]; intros acc H; cbn [fold_left];
    [exact H | apply IH, nodup_add_column, H].
Qed.

Lemma concat_columns_aux (c : string) (frames : list Frame) (acc : list string) :
  In c (fold_left (fun acc f => fold_left (fun a x => add_column x a) (columns f) acc)
                  frames acc)
  <-> In c acc \/ exists f, In f frames /\ In c (columns f).
Proof.
  revert acc. induction frames as [| f fs IH]; intros acc; cbn [fold_left].
  - split; [tauto | intros [H | (f & [] & _)]; exact H].
  - rewrite IH, fold_add_columns_in. split.
    + intros [[H | H] | (g & Hg & Hc)].
      * left. exact H.
      * right. exists f. split; [left; reflexivity | exact H].
      * right. exists g. split; [right; exact Hg | exact Hc].
    + intros [H | (g & [<- | Hg] & Hc)].
      * left. left. exact H.
      * left. right. exact Hc.
      * right. exists g. split; assumption.
Qed.

(** The labels of a concatenation are the labels of its blocks. *)
Lemma concat_columns (c : string) (frames : list Frame) :
  In c (columns (concat frames)) <-> exists f, In f frames /\ In c (columns f).
Proof.
  unfold concat. cbn [columns]. rewrite concat_columns_aux. cbn [In]. tauto.
Qed.

Lemma concat_columns_nodup (frames : list Frame) : NoDup (columns (concat frames)).
Proof.
  unfold concat. cbn [columns].
  assert (H : forall fs acc, NoDup acc ->
            NoDup (fold_left (fun acc f => fold_left (fun a x => add_column x a)
                                                     (columns f) acc) fs acc)).
  { induction fs as [| f fs IH]; intros acc Hacc; cbn [fold_left];
      [exact Hacc | apply IH, fold_add_columns_nodup, Hacc]. }
  apply H. constructor.
Qed.

Lemma bool_eq_iff (a b : bool) : (a = true <-> b = true) -> a = b.
Proof.
  destruct a, b; intros [H1 H2]; try reflexivity.
  - symmetry. apply H1. reflexivity.
  - apply H2. reflexivity.
Qed.

Lemma existsb_pointwise_in (A : Type) (f g : A -> bool) (l : list A) :
  (forall x, In x l -> f x = g x) -> existsb f l = existsb g l.
Proof.
  induction l as [| x l IH]; intros H; [reflexivity |].
  cbn [existsb]. rewrite (H x (or_introl eq_refl)), IH; [reflexivity |].
  intros y Hy. apply H. right. exact Hy.
Qed.

Lemma mem_map_labels (c : string) (all cols : list ycol) :
  mem c (map (label_out all) cols)
  = existsb (fun y => String.eqb c (label_out all y)) cols.
Proof.
  unfold mem. induction cols as [| y cols IH]; [reflexivity |].
  cbn [map existsb]. rewrite IH. reflexivity.
Qed.

Lemma mem_label_plain (c : string) (y0 : ycol) (cols : list ycol) :
  (forall y, String.eqb c (label_out cols y) = ycol_eqb y0 y) ->
  mem c (map (label_out cols) cols) = has_ycol y0 cols.
Proof.
  intros H. rewrite mem_map_labels. apply existsb_pointwise. exact H.
Qed.

Lemma mem_label_close (cols : list ycol) :
  mem "close" (map (label_out cols) cols)
  = has_ycol Close cols || has_ycol AdjClose cols.
Proof.
  rewrite mem_map_labels. destruct (has_ycol Close cols) eqn:Hc; cbn [orb].
  - transitivity (has_ycol Close cols); [| exact Hc]. apply existsb_pointwise.
    intros y. destruct y; try reflexivity. cbn [label_out]. rewrite Hc. reflexivity.
  - apply existsb_pointwise_in. intros y Hy.
    destruct y; try reflexivity.
    + apply has_ycol_in in Hy. congruence.
    + cbn [label_out]. rewrite Hc. reflexivity.
Qed.

Ltac plain_label :=
  let y := fresh "y" in
  intros y; destruct y; try reflexivity; cbn [label_out];
  match goal with |- context [has_ycol Close ?l] => destruct (has_ycol Close l) end;
  reflexivity.

(** The canonical labels of a normalized frame. *)
Lemma mem_normalized (hst : Hist) (c : string) :
  In c canonical -> mem c (labels (_normalize_columns hst)) = provides hst c.
Proof.
  intros Hc. rewrite labels_normalize.
  unfold mem. cbn [existsb]. fold (mem c (map (label_out (hist_columns hst)) (hist_columns hst))).
  unfold canonical in Hc. cbn [In] in Hc.
  destruct Hc as [<- | [<- | [<- | [<- | [<- | [<- | []]]]]]]; unfold provides;
    cbv beta zeta;
    repeat match goal with
           | |- context [String.eqb ?a ?b] =>
               match a with String _ _ =>
                 match b with String _ _ =>
                   let v := eval vm_compute in (String.eqb a b) in
                   change (String.eqb a b) with v end end
           end; cbv iota.
  - replace (mem "date" (map (label_out (hist_columns hst)) (hist_columns hst)))
      with false.
    + destruct (index_name hst); reflexivity.
    + symmetry. rewrite mem_map_labels.
      induction (hist_columns hst) as [| y l IH] at 2; [reflexivity |].
      cbn [existsb]. rewrite IH, orb_false_r.
      destruct y; try reflexivity. cbn [label_out].
      destruct (has_ycol Close (hist_columns hst)); reflexivity.
  - replace (String.eqb "open" (index_out (index_name hst))) with false
      by (destruct (index_name hst); reflexivity).
    apply mem_label_plain. plain_label.
  - replace (String.eqb "high" (index_out (index_name hst))) with false
      by (destruct (index_name hst); reflexivity).
    apply mem_label_plain. plain_label.
  - replace (String.eqb "low" (index_out (index_name hst))) with false
      by (destruct (index_name hst); reflexivity).
    apply mem_label_plain. plain_label.
  - replace (String.eqb "close" (index_out (index_name hst))) with false
      by (destruct (index_name hst); reflexivity).
    apply mem_label_close.
  - replace (String.eqb "volume" (index_out (index_name hst))) with false
      by (destruct (index_name hst); reflexivity).
    apply mem_label_plain. plain_label.
Qed.

Lemma kept_provides (hst : Hist) : kept hst = filter (provides hst) canonical.
Proof. unfold kept. apply filter_ext_in. intros c Hc. apply mem_normalized, Hc. Qed.

Lemma provides_canonical (hst : Hist) (c : string) :
  provides hst c = true -> In c canonical.
Proof.
  unfold provides, canonical. cbv zeta. cbn [In].
  destruct (String.eqb_spec c "date"); [auto |].
  destruct (String.eqb_spec c "open"); [auto |].
  destruct (String.eqb_spec c "high"); [auto |].
  destruct (String.eqb_spec c "low"); [auto 6 |].
  destruct (String.eqb_spec c "close"); [auto 7 |].
  destruct (String.eqb_spec c "volume"); [auto 8 |].
  discriminate.
Qed.

Lemma mem_kept (hst : Hist) (c : string) : mem c (kept hst) = provides hst c.
Proof.
  apply bool_eq_iff. rewrite mem_in, kept_provides, filter_In.
  split; [tauto |]. intros H. split; [apply (provides_canonical hst), H | exact H].
Qed.

Lemma lookup_map (c : string) (lab : ycol -> string) (val : ycol -> cell)
      (cols : list ycol) :
  lookup c (map lab cols) (map val cols)
  = option_map val (find (fun y => String.eqb (lab y) c) cols).
Proof.
  induction cols as [| y cols IH]; [reflexivity |].
  cbn [map lookup find]. destruct (String.eqb (lab y) c); [reflexivity | exact IH].
Qed.

Lemma find_ycol (f : ycol -> bool) (y0 : ycol) (l : list ycol) :
  (forall y, In y l -> f y = ycol_eqb y0 y) ->
  find f l = if has_ycol y0 l then Some y0 else None.
Proof.
  unfold has_ycol. induction l as [| a l IH]; intros H; [reflexivity |].
  cbn [find existsb]. rewrite (H a (or_introl eq_refl)).
  destruct (ycol_eqb y0 a) eqn:E.
  - apply ycol_eqb_eq in E. subst a. reflexivity.
  - cbn [orb]. apply IH. intros y Hy. apply H. right. exact Hy.
Qed.

Lemma find_label_close (cols : list ycol) :
  find (fun y => String.eqb (label_out cols y) "close") cols
  = if has_ycol Close cols then Some Close
    else if has_ycol AdjClose cols then Some AdjClose else None.
Proof.
  destruct (has_ycol Close cols) eqn:Hc.
  - rewrite (find_ycol _ Close), Hc; [reflexivity |].
    intros y _. destruct y; try reflexivity. cbn [label_out]. rewrite Hc. reflexivity.
  - apply find_ycol. intros y Hy. destruct y; try reflexivity.
    + apply has_ycol_in in Hy. congruence.
    + cbn [label_out]. rewrite Hc. reflexivity.
Qed.

Ltac plain_find :=
  let y := fresh "y" in
  intros y _; destruct y; try reflexivity; cbn [label_out];
  match goal with |- context [has_ycol Close ?l] => destruct (has_ycol Close l) end;
  reflexivity.

Lemma tidy_row_vals (hst : Hist) (t : string) (b : Bar) (c : string) :
  vals (tidy_row (labels (_normalize_columns hst)) (kept hst) t (cells_of hst b)) c
  = cell_of hst b c.
Proof.
  unfold tidy_row, cells_of. cbn [vals]. rewrite mem_kept, labels_normalize.
  cbn [lookup]. rewrite lookup_map.
  unfold provides, cell_of. cbv zeta.
  destruct (String.eqb_spec c "date") as [-> | _].
  { destruct (index_name hst); reflexivity. }
  destruct (String.eqb_spec c "open") as [-> | _].
  { replace (String.eqb (index_out (index_name hst)) "open") with false
      by (destruct (index_name hst); reflexivity).
    rewrite (find_ycol _ Open) by plain_find.
    destruct (has_ycol Open (hist_columns hst)); reflexivity. }
  destruct (String.eqb_spec c "high") as [-> | _].
  { replace (String.eqb (index_out (index_name hst)) "high") with false
      by (destruct (index_name hst); reflexivity).
    rewrite (find_ycol _ High) by plain_find.
    destruct (has_ycol High (hist_columns hst)); reflexivity. }
  destruct (String.eqb_spec c "low") as [-> | _].
  { replace (String.eqb (index_out (index_name hst)) "low") with false
      by (destruct (index_name hst); reflexivity).
    rewrite (find_ycol _ Low) by plain_find.
    destruct (has_ycol Low (hist_columns hst)); reflexivity. }
  destruct (String.eqb_spec c "close") as [-> | _].
  { replace (String.eqb (index_out (index_name hst)) "close") with false
      by (destruct (index_name hst); reflexivity).
    rewrite find_label_close. unfold close_of.
    destruct (has_ycol Close (hist_columns hst)); [reflexivity |].
    destruct (has_ycol AdjClose (hist_columns hst)); reflexivity. }
  destruct (String.eqb_spec c "volume") as [-> | _].
  { replace (String.eqb (index_out (index_name hst)) "volume") with false
      by (destruct (index_name hst); reflexivity).
    rewrite (find_ycol _ Volume) by plain_find.
    destruct (has_ycol Volume (hist_columns hst)); reflexivity. }
  reflexivity.
Qed.

Lemma tidy_row_date (hst : Hist) (t : string) (b : Bar) :
  date (tidy_row (labels (_normalize_columns hst)) (kept hst) t (cells_of hst b))
  = date_of hst b.
Proof.
  unfold tidy_row, cells_of, date_of. cbn [date]. rewrite mem_kept, labels_normalize.
  unfold provides. cbv zeta. cbn [lookup].
  destruct (index_name hst); reflexivity.
Qed.

Lemma tidy_row_view (hst : Hist) (t : string) (b : Bar) :
  row_view (tidy_row (labels (_normalize_columns hst)) (kept hst) t (cells_of hst b))
  = bar_view hst t b.
Proof.
  unfold row_view, bar_view. rewrite tidy_row_date.
  f_equal. apply map_ext. intros c. apply tidy_row_vals.
Qed.

Lemma records_cells (hst : Hist) :
  records (_normalize_columns hst) = map (cells_of hst) (bars hst).
Proof. rewrite records_normalize. reflexivity. Qed.

End FetchMore.


Section FetchGeneric.

Local Open Scope string_scope.

Lemma provides_date (hst : Hist) :
  provides hst "date" = true <-> index_name hst <> IndexDatetime.
Proof.
  unfold provides. cbv zeta. change (String.eqb "date" "date") with true. cbv iota.
  destruct (index_name hst); split; intros H; try reflexivity; try discriminate.
  contradiction.
Qed.

Lemma has_ycol_low_code (hst : Hist) (y : ycol) :
  no_ohlcv hst = true -> (ycol_code y < 6)%nat -> has_ycol y (hist_columns hst) = false.
Proof.
  intros Hn Hy. destruct (has_ycol y (hist_columns hst)) eqn:E; [| reflexivity].
  apply has_ycol_in in E. unfold no_ohlcv in Hn.
  rewrite forallb_forall in Hn. apply Hn in E. apply Nat.leb_le in E. lia.
Qed.

Lemma kept_nil_iff (hst : Hist) :
  kept hst = [] <-> index_name hst = IndexDatetime /\ no_ohlcv hst = true.
Proof.
  rewrite kept_provides. split.
  - intros E.
    assert (F : forall c, In c canonical -> provides hst c = false).
    { intros c Hc. destruct (provides hst c) eqn:P; [| reflexivity].
      assert (Hin : In c (filter (provides hst) canonical))
        by (apply filter_In; split; assumption).
      rewrite E in Hin. destruct Hin. }
    split.
    + destruct (index_name hst) eqn:Ei; try reflexivity;
        specialize (F "date" (or_introl eq_refl)); unfold provides in F;
        rewrite Ei in F; discriminate F.
    + unfold no_ohlcv. apply forallb_forall. intros y Hy.
      apply has_ycol_in in Hy.
      assert (Fo := F "open"). assert (Fh := F "high"). assert (Fl := F "low").
      assert (Fc := F "close"). assert (Fv := F "volume").
      unfold provides, canonical in Fo, Fh, Fl, Fc, Fv. cbn in Fo, Fh, Fl, Fc, Fv.
      specialize (Fo ltac:(tauto)). specialize (Fh ltac:(tauto)).
      specialize (Fl ltac:(tauto)). specialize (Fc ltac:(tauto)).
      specialize (Fv ltac:(tauto)).
      apply orb_false_iff in Fc. destruct Fc as [Fc Fa].
      destruct y; try reflexivity; congruence.
  - intros [Ei Hn].
    assert (F : forall c, In c canonical -> provides hst c = false).
    { intros c Hc. unfold canonical in Hc. cbn [In] in Hc.
      destruct Hc as [<- | [<- | [<- | [<- | [<- | [<- | []]]]]]];
        unfold provides; cbn; rewrite ?Ei, ?(has_ycol_low_code hst _ Hn);
        try reflexivity; cbn; lia. }
    induction canonical as [| c l IH]; [reflexivity |].
    cbn [filter]. rewrite (F c (or_introl eq_refl)).
    apply IH. intros c' Hc'. apply F. right. exact Hc'.
Qed.

Lemma block_columns (norm : Table) (keep : list string) (t c : string) :
  In c (columns (block_of norm keep t)) <-> In c keep \/ c = "ticker".
Proof.
  unfold block_of. cbn [columns]. rewrite in_app_iff. cbn [In].
  split.
  - intros [H | [<- | []]]; [left; exact H | right; reflexivity].
  - intros [H | ->]; [left; exact H | right; left; reflexivity].
Qed.

Lemma in_kept (hst : Hist) (c : string) : In c (kept hst) <-> provides hst c = true.
Proof. rewrite <- mem_kept. symmetry. apply mem_in. Qed.


Lemma group_perm (T : string) (l l' : list Row) :
  Permutation l l' -> Permutation (group T l) (group T l').
Proof.
  unfold group. induction 1 as [| x l l' _ IH | x y l | l l' l'' _ IH1 _ IH2];
    cbn [filter].
  - constructor.
  - destruct (String.eqb (ticker x) T); [apply perm_skip |]; exact IH.
  - destruct (String.eqb (ticker x) T), (String.eqb (ticker y) T);
      try reflexivity. apply perm_swap.
  - etransitivity; eassumption.
Qed.

Lemma group_all (T : string) (l : list Row) :
  (forall r, In r l -> ticker r = T) -> group T l = l.
Proof.
  unfold group. induction l as [| x l IH]; intros H; [reflexivity |].
  cbn [filter]. rewrite (H x (or_introl eq_refl)), String.eqb_refl, IH;
    [reflexivity |]. intros r Hr. apply H. right. exact Hr.
Qed.

Lemma group_none (T : string) (l : list Row) :
  (forall r, In r l -> ticker r <> T) -> group T l = [].
Proof.
  unfold group. induction l as [| x l IH]; intros H; [reflexivity |].
  cbn [filter]. destruct (String.eqb_spec (ticker x) T) as [E | _].
  - exfalso. apply (H x (or_introl eq_refl)). exact E.
  - apply IH. intros r Hr. apply H. right. exact Hr.
Qed.

Lemma group_app (T : string) (l l' : list Row) :
  group T (l ++ l') = (group T l ++ group T l')%list.
Proof. apply filter_app. Qed.

End FetchGeneric.

Section FetchOutcome.

Local Open Scope string_scope.

Variable history : string -> string -> string -> bool -> Hist.
Variables period interval : string.
Variable auto_adjust : bool.

Let hist_of (t : string) : Hist := history t period interval auto_adjust.
Let blocks_of (t : string) : list Frame :=
  fetch_one history period interval auto_adjust [] t.
Let frames_of (tickers : list string) : list Frame :=
  fetched_frames history tickers period interval auto_adjust.

Lemma blocks_of_kept (t : string) :
  blocks_of t
  = match kept (hist_of t) with
    | [] => []
    | _ => [block_of (_normalize_columns (hist_of t)) (kept (hist_of t)) t]
    end.
Proof. reflexivity. Qed.

Lemma in_blocks_of (t : string) (f : Frame) :
  In f (blocks_of t)
  <-> kept (hist_of t) <> []
      /\ f = block_of (_normalize_columns (hist_of t)) (kept (hist_of t)) t.
Proof.
  rewrite blocks_of_kept. destruct (kept (hist_of t)) as [| k ks] eqn:E.
  - split; [intros [] | intros [H _]; congruence].
  - cbn [In]. split.
    + intros [<- | []]. split; [discriminate | reflexivity].
    + intros [_ ->]. left. reflexivity.
Qed.

Lemma in_frames_of (tickers : list string) (f : Frame) :
  In f (frames_of tickers)
  <-> exists t, In t tickers /\ kept (hist_of t) <> []
                /\ f = block_of (_normalize_columns (hist_of t)) (kept (hist_of t)) t.
Proof.
  unfold frames_of. rewrite fetched_frames_blocks, in_flat_map.
  split; intros (t & Ht & H); exists t; (split; [exact Ht |]);
    apply (in_blocks_of t f); exact H.
Qed.

(** The concatenation has a date column when some frame is dated. *)
Lemma concat_has_date (tickers : list string) :
  has_column "date" (columns (concat (frames_of tickers))) = true
  <-> exists t, In t tickers /\ index_name (hist_of t) <> IndexDatetime.
Proof.
  rewrite has_column_in, concat_columns. split.
  - intros (f & Hf & Hc). apply in_frames_of in Hf.
    destruct Hf as (t & Ht & _ & ->). exists t. split; [exact Ht |].
    apply block_columns in Hc. destruct Hc as [Hc | Hc]; [| discriminate Hc].
    apply provides_date, in_kept, Hc.
  - intros (t & Ht & Hi).
    assert (Hk : In "date" (kept (hist_of t))) by (apply in_kept, provides_date, Hi).
    eexists. split.
    + apply in_frames_of. exists t. split; [exact Ht |]. split; [| reflexivity].
      intros E. rewrite E in Hk. destruct Hk.
    + apply block_columns. left. exact Hk.
Qed.

Lemma concat_has_ticker (tickers : list string) :
  frames_of tickers <> [] ->
  has_column "ticker" (columns (concat (frames_of tickers))) = true.
Proof.
  intros Hne. apply has_column_in, concat_columns.
  destruct (frames_of tickers) as [| f fs] eqn:E; [congruence |].
  assert (Hf : In f (frames_of tickers)) by (rewrite E; left; reflexivity).
  rewrite <- E. exists f. split; [exact Hf |].
  apply in_frames_of in Hf. destruct Hf as (t & _ & _ & ->).
  apply block_columns. right. reflexivity.
Qed.

Lemma frames_of_nil_iff (tickers : list string) :
  frames_of tickers = []
  <-> forall t, In t tickers ->
        index_name (hist_of t) = IndexDatetime /\ no_ohlcv (hist_of t) = true.
Proof.
  split.
  - intros E t Ht. apply kept_nil_iff.
    destruct (kept (hist_of t)) as [| k ks] eqn:Ek; [reflexivity |].
    assert (Hin : In (block_of (_normalize_columns (hist_of t)) (kept (hist_of t)) t)
                     (frames_of tickers)).
    { apply in_frames_of. exists t. split; [exact Ht |]. split; [| reflexivity].
      rewrite Ek. discriminate. }
    rewrite E in Hin. destruct Hin.
  - intros H. destruct (frames_of tickers) as [| f fs] eqn:E; [reflexivity |].
    assert (Hf : In f (frames_of tickers)) by (rewrite E; left; reflexivity).
    apply in_frames_of in Hf. destruct Hf as (t & Ht & Hk & _).
    exfalso. apply Hk. apply kept_nil_iff. apply H. exact Ht.
Qed.

(** The four ways a fetch ends. *)
Lemma download_history_tidy_run (tickers : list string) (h : heap) :
  download_history_tidy history tickers period interval auto_adjust h
  = match frames_of tickers with
    | [] => (Raise (RuntimeError
               "No data returned from yfinance. Check tickers/period/interval."), h)
    | _ =>
        if has_column "date" (columns (concat (frames_of tickers)))
        then
          if one_zone (date_zones history tickers period interval auto_adjust)
          then (Ok (S (length h)),
                (h ++ [concat (frames_of tickers);
                       mkFrame (columns (concat (frames_of tickers)))
                               (sort_rows (rows (concat (frames_of tickers))))])%list)
          else (Raise (ValueError
                  "Tz-aware datetime.datetime cannot be converted to datetime64 unless utc=True"),
                (h ++ [concat (frames_of tickers)])%list)
        else (Raise (KeyError "date"), (h ++ [concat (frames_of tickers)])%list)
    end.
Proof.
  unfold download_history_tidy.
  fold (fetched_frames history tickers period interval auto_adjust).
  fold (frames_of tickers).
  destruct (frames_of tickers) as [| f fs] eqn:Ef; [reflexivity |].
  assert (Ht := concat_has_ticker tickers). rewrite Ef in Ht.
  specialize (Ht ltac:(discriminate)).
  set (frames := f :: fs) in *. clearbody frames. clear Ef f fs.
  unfold bind at 1. unfold alloc.
  unfold bind at 1. unfold getitem.
  rewrite (bind_ok _ _ _ _ _ _ _ (deref_run _ _ _ (nth_error_snoc h (concat frames)))).
  unfold bind at 1. unfold require_column at 1.
  destruct (has_column "date" (columns (concat frames))) eqn:Hd; [| reflexivity].
  unfold ret at 1. unfold ret at 1.
  unfold bind at 1. rewrite to_datetime_dates_run.
  fold (date_zones history tickers period interval auto_adjust).
  destruct (one_zone _); [| reflexivity].
  unfold bind at 1. unfold sort_values_ticker_date.
  rewrite (bind_ok _ _ _ _ _ _ _ (deref_run _ _ _ (nth_error_snoc h (concat frames)))).
  rewrite (bind_ok _ _ _ _ _ _ _ (require_column_run "ticker" _ _ Ht)).
  rewrite (bind_ok _ _ _ _ _ _ _ (require_column_run "date" _ _ Hd)).
  unfold bind, alloc, ret.
  rewrite length_app, <- app_assoc. cbn [length app].
  replace (length h + 1)%nat with (S (length h)) by lia. reflexivity.
Qed.

Lemma group_fetched_absent (T : string) (tickers : list string) :
  ~ In T tickers -> group T (flat_map rows (flat_map blocks_of tickers)) = [].
Proof.
  intros Hn. apply group_none. intros r Hr E.
  apply in_flat_map in Hr. destruct Hr as (f & Hf & Hr).
  apply in_flat_map in Hf. destruct Hf as (t & Ht & Hf).
  assert (Et : ticker r = t).
  { apply (blocks_of_ticker history period interval auto_adjust).
    apply in_flat_map. exists f. split; assumption. }
  apply Hn. congruence.
Qed.

Lemma group_fetched_present (T : string) (tickers : list string) :
  NoDup tickers -> In T tickers ->
  group T (flat_map rows (flat_map blocks_of tickers)) = flat_map rows (blocks_of T).
Proof.
  induction 1 as [| t ts Ht Hts IH]; intros Hin; [destruct Hin |].
  cbn [flat_map]. rewrite flat_map_app, group_app.
  destruct Hin as [-> | Hin].
  - rewrite (group_fetched_absent T ts Ht), app_nil_r.
    apply group_all. apply (blocks_of_ticker history period interval auto_adjust).
  - rewrite IH by exact Hin.
    rewrite group_none; [reflexivity |].
    intros r Hr E.
    apply (blocks_of_ticker history period interval auto_adjust) in Hr.
    apply Ht. congruence.
Qed.

Lemma blocks_of_views (t : string) :
  kept (hist_of t) <> [] ->
  map row_view (flat_map rows (blocks_of t))
  = map (bar_view (hist_of t) t) (bars (hist_of t)).
Proof.
  intros Hk. rewrite blocks_of_kept.
  destruct (kept (hist_of t)) as [| k ks] eqn:E; [congruence |].
  rewrite <- E. cbn [flat_map]. rewrite app_nil_r.
  unfold block_of. cbn [rows]. rewrite records_cells, !map_map.
  apply map_ext. intros b. apply tidy_row_view.
Qed.

Lemma blocks_of_skipped (t : string) :
  kept (hist_of t) = [] -> blocks_of t = [].
Proof. intros E. rewrite blocks_of_kept, E. reflexivity. Qed.

(** ** The zones of the dates *)

Lemma zone_eqb_eq (a b : option string) : zone_eqb a b = true <-> a = b.
Proof.
  destruct a as [x |], b as [y |]; cbn [zone_eqb];
    try (split; [discriminate | discriminate]); [| tauto].
  rewrite String.eqb_eq. split; [intros ->; reflexivity | intros E; congruence].
Qed.

Lemma one_zone_iff (l : list (option string)) :
  one_zone l = true <-> forall a b, In a l -> In b l -> a = b.
Proof.
  destruct l as [| z zs]; cbn [one_zone].
  - split; [intros _ a b [] | reflexivity].
  - rewrite forallb_forall. split.
    + intros H a b Ha Hb.
      assert (E : forall c, In c (z :: zs) -> z = c).
      { intros c [<- | Hc]; [reflexivity | apply zone_eqb_eq, H, Hc]. }
      rewrite <- (E a Ha), <- (E b Hb). reflexivity.
    + intros H c Hc. apply zone_eqb_eq. apply H; [left; reflexivity | right; exact Hc].
Qed.

Lemma zones_fold (tickers : list string) (acc : list (option string)) :
  fold_left (zones_one history period interval auto_adjust) tickers acc
  = (acc ++ flat_map (fun t => if provides (hist_of t) "date"
                               then map (fun _ => index_tz (hist_of t))
                                        (bars (hist_of t))
                               else []) tickers)%list.
Proof.
  revert acc. induction tickers as [| t ts IH]; intros acc; cbn [fold_left flat_map].
  - rewrite app_nil_r. reflexivity.
  - rewrite IH. unfold zones_one, block_zones.
    fold (hist_of t). fold (kept (hist_of t)). rewrite mem_kept.
    rewrite <- app_assoc. reflexivity.
Qed.

(** A zone is among the zones of the dates when a requested frame that
    brings dates is in it. *)
Lemma in_date_zones (tickers : list string) (z : option string) :
  In z (date_zones history tickers period interval auto_adjust)
  <-> exists t, In t tickers /\ index_name (hist_of t) <> IndexDatetime
                /\ bars (hist_of t) <> [] /\ z = index_tz (hist_of t).
Proof.
  unfold date_zones. rewrite zones_fold. cbn [app]. rewrite in_flat_map.
  split.
  - intros (t & Ht & Hz). exists t. split; [exact Ht |].
    destruct (provides (hist_of t) "date") eqn:P; [| destruct Hz].
    split; [apply provides_date, P |].
    apply in_map_iff in Hz. destruct Hz as (b & <- & Hb).
    split; [| reflexivity]. intros E. rewrite E in Hb. destruct Hb.
  - intros (t & Ht & Hi & Hb & ->). exists t. split; [exact Ht |].
    rewrite (proj2 (provides_date (hist_of t)) Hi).
    destruct (bars (hist_of t)) as [| b bs]; [congruence |]. left. reflexivity.
Qed.

Lemma one_zone_date_zones (tickers : list string) :
  one_zone (date_zones history tickers period interval auto_adjust) = true
  <-> one_time_zone history tickers period interval auto_adjust.
Proof.
  rewrite one_zone_iff. unfold one_time_zone. cbv zeta. split.
  - intros H t u Ht Hu It Bt Iu Bu.
    apply H; apply in_date_zones; [exists t | exists u]; auto.
  - intros H a b Ha Hb.
    apply in_date_zones in Ha. destruct Ha as (t & Ht & It & Bt & ->).
    apply in_date_zones in Hb. destruct Hb as (u & Hu & Iu & Bu & ->).
    apply H; assumption.
Qed.

End FetchOutcome.

Section FetchExtras.

Local Open Scope string_scope.

Variable history : string -> string -> string -> bool -> Hist.
Variables period interval : string.
Variable auto_adjust : bool.

(** X2.  For a provider whose frames have no column twice, a table that
    [download_history_tidy] returns has a date and a ticker column, no
    column twice, and no column outside date, open, high, low, close, volume
    and ticker: the provider's other columns (dividends, stock splits,
    capital gains, an adjusted close beside a close) never get through. *)
Theorem download_history_tidy_columns
        (tickers : list string) (h h' : heap) (r : ref) :
  distinct_columns history tickers period interval auto_adjust ->
  download_history_tidy history tickers period interval auto_adjust h = (Ok r, h') ->
  exists out : Frame,
    nth_error h' r = Some out
    /\ In "date" (columns out) /\ In "ticker" (columns out)
    /\ NoDup (columns out)
    /\ forall c, In c (columns out) ->
         In c ["date"; "open"; "high"; "low"; "close"; "volume"; "ticker"].
Proof.
  intros _ H. rewrite download_history_tidy_run in H.
  set (frames := fetched_frames history tickers period interval auto_adjust) in *.
  destruct frames as [| f fs] eqn:Ef; [discriminate H |]. rewrite <- Ef in *.
  destruct (has_column "date" (columns (concat frames))) eqn:Hd; [| discriminate H].
  destruct (one_zone _); [| discriminate H].
  assert (Er : r = S (length h)) by congruence.
  assert (Eh : h' = (h ++ [concat frames;
                           mkFrame (columns (concat frames))
                                   (sort_rows (rows (concat frames)))])%list)
    by congruence.
  subst r h'. eexists. split; [apply nth_error_snoc2 |]. cbn [columns].
  split; [apply has_column_in, Hd |].
  split.
  { apply has_column_in.
    apply (concat_has_ticker history period interval auto_adjust tickers).
    fold frames. rewrite Ef. discriminate. }
  split; [apply concat_columns_nodup |].
  intros c Hc. apply concat_columns in Hc. destruct Hc as (g & Hg & Hc).
  apply (in_frames_of history period interval auto_adjust) in Hg.
  destruct Hg as (t & _ & _ & ->).
  apply block_columns in Hc. destruct Hc as [Hc | ->].
  - apply in_kept, provides_canonical in Hc. unfold canonical in Hc.
    cbn [In] in *. tauto.
  - cbn [In]. tauto.
Qed.

(** X3.  For a provider whose frames have no column twice,
    [download_history_tidy] returns a table exactly when the frame of at
    least one requested ticker has its time index named Date or unnamed,
    and the requested frames that bring dates to the table are all in one
    time zone or all naive.  (When no frame is kept it raises RuntimeError,
    when every kept frame is indexed by Datetime KeyError, and when the
    dates are of two zones ValueError.) *)
Theorem download_history_tidy_returns_iff (tickers : list string) (h : heap) :
  distinct_columns history tickers period interval auto_adjust ->
  (exists (r : ref) (h' : heap),
      download_history_tidy history tickers period interval auto_adjust h = (Ok r, h'))
  <-> (exists t, In t tickers
                 /\ index_name (history t period interval auto_adjust) <> IndexDatetime)
      /\ one_time_zone history tickers period interval auto_adjust.
Proof.
  intros _. rewrite download_history_tidy_run.
  rewrite <- (concat_has_date history period interval auto_adjust tickers).
  rewrite <- (one_zone_date_zones history period interval auto_adjust tickers).
  set (frames := fetched_frames history tickers period interval auto_adjust).
  assert (Hnil : frames = [] -> has_column "date" (columns (concat frames)) = false).
  { intros ->. reflexivity. }
  destruct frames as [| f fs] eqn:Ef.
  - rewrite Hnil by reflexivity.
    split; [intros (r & h' & H) | intros [H _]]; discriminate.
  - rewrite <- Ef in *.
    destruct (has_column "date" (columns (concat frames)));
      [| split; [intros (r & h' & H) | intros [H _]]; discriminate].
    destruct (one_zone _).
    + split; [intros _; split; reflexivity | intros _; eauto].
    + split; [intros (r & h' & H) | intros [_ H]]; discriminate.
Qed.

(** X4.  For a provider whose frames have no column twice: when every
    requested ticker comes back indexed by Datetime and some frame has a
    price or volume column, [download_history_tidy] raises KeyError for
    date, after it has built the concatenation of the blocks. *)
Theorem download_history_tidy_intraday (tickers : list string) (h : heap) :
  distinct_columns history tickers period interval auto_adjust ->
  (forall t, In t tickers ->
     index_name (history t period interval auto_adjust) = IndexDatetime) ->
  (exists t, In t tickers /\ no_ohlcv (history t period interval auto_adjust) = false) ->
  download_history_tidy history tickers period interval auto_adjust h
  = (Raise (KeyError "date"),
     (h ++ [concat (fetched_frames history tickers period interval auto_adjust)])%list).
Proof.
  intros _ Hall (t & Ht & Hp). rewrite download_history_tidy_run.
  set (frames := fetched_frames history tickers period interval auto_adjust).
  assert (Hne : frames <> []).
  { intros E.
    destruct (proj1 (frames_of_nil_iff history period interval auto_adjust tickers)
                    E t Ht) as [_ E'].
    congruence. }
  assert (Hd : has_column "date" (columns (concat frames)) = false).
  { destruct (has_column "date" (columns (concat frames))) eqn:Hd; [| reflexivity].
    destruct (proj1 (concat_has_date history period interval auto_adjust tickers) Hd)
      as (u & Hu & Hi).
    exfalso. apply Hi, Hall, Hu. }
  rewrite Hd. destruct frames; [congruence | reflexivity].
Qed.

(** X5.  For a provider whose frames have no column twice: in the table
    that [download_history_tidy] returns for pairwise distinct tickers, a
    requested ticker has one row per bar of its frame,
    showing the time of the bar as date (no date when the index is named
    Datetime) and the provider's open, high, low, close and volume, the
    close being the adjusted close when the frame has no close, and a
    column the frame lacks being absent; a ticker whose frame is indexed by
    Datetime and has no such column has no rows, nor has a ticker that was
    not requested. *)
Theorem download_history_tidy_rows
        (tickers : list string) (h h' : heap) (r : ref) :
  distinct_columns history tickers period interval auto_adjust ->
  NoDup tickers ->
  download_history_tidy history tickers period interval auto_adjust h = (Ok r, h') ->
  exists out : Frame,
    nth_error h' r = Some out
    /\ forall T : string,
         let hst := history T period interval auto_adjust in
         (~ In T tickers -> group T (rows out) = [])
         /\ (In T tickers -> index_name hst = IndexDatetime -> no_ohlcv hst = true ->
             group T (rows out) = [])
         /\ (In T tickers -> index_name hst <> IndexDatetime \/ no_ohlcv hst = false ->
             Permutation (map row_view (group T (rows out)))
                         (map (bar_view hst T) (bars hst))).
Proof.
  intros _ Hnd H.
  destruct (download_history_tidy_inv history period interval auto_adjust
              tickers h h' r H) as (_ & -> & ->).
  eexists. split; [apply nth_error_snoc2 |]. intros T hst. cbn [rows].
  unfold concat at 1 2 3. cbn [rows].
  rewrite (fetched_frames_blocks history period interval auto_adjust).
  assert (Hp : forall l, Permutation (group T (sort_rows l)) (group T l))
    by (intros l; apply group_perm, sort_rows_perm).
  split; [| split].
  - intros Hn. apply Permutation_nil. symmetry.
    etransitivity; [apply Hp |].
    rewrite (group_fetched_absent history period interval auto_adjust T tickers Hn).
    reflexivity.
  - intros Hin Hi Hn. apply Permutation_nil. symmetry.
    etransitivity; [apply Hp |].
    rewrite (group_fetched_present history period interval auto_adjust T tickers Hnd Hin).
    rewrite (blocks_of_skipped history period interval auto_adjust);
      [reflexivity |].
    apply (proj2 (kept_nil_iff hst)). split; [exact Hi | exact Hn].
  - intros Hin Hk.
    etransitivity; [apply Permutation_map, Hp |].
    rewrite (group_fetched_present history period interval auto_adjust T tickers Hnd Hin).
    rewrite (blocks_of_views history period interval auto_adjust); [reflexivity |].
    intros E. destruct (proj1 (kept_nil_iff hst) E) as [E1 E2].
    destruct Hk as [Hk | Hk]; congruence.
Qed.

End FetchExtras.

Section FetchWitnesses.

Local Open Scope string_scope.

Lemma download_history_tidy_columns_witness :
  exists out : Frame,
    nth_error (snd (download_history_tidy provider_one_bar ["X"] "1y" "1d" true [])) 1
    = Some out
    /\ In "date" (columns out) /\ In "ticker" (columns out)
    /\ NoDup (columns out)
    /\ forall c, In c (columns out) ->
         In c ["date"; "open"; "high"; "low"; "close"; "volume"; "ticker"].
Proof.
  apply (download_history_tidy_columns provider_one_bar "1y" "1d" true ["X"] []).
  - intros t _. repeat constructor; cbn; intuition discriminate.
  - reflexivity.
Defined.

Lemma download_history_tidy_returns_iff_witness :
  exists (r : ref) (h' : heap),
    download_history_tidy provider_one_bar ["X"; "Y"] "1y" "1d" true [] = (Ok r, h').
Proof.
  apply (download_history_tidy_returns_iff provider_one_bar "1y" "1d" true
           ["X"; "Y"] []).
  - intros t _. repeat constructor; cbn; intuition discriminate.
  - split.
    + exists "X". split; [left; reflexivity | discriminate].
    + intros t u _ _. cbv zeta. intros _ _ _ _. reflexivity.
Defined.

(** Two symbols whose bars are dated in two time zones: the dates of the
    concatenation cannot be made one datetime column, and the fetch raises
    ValueError after it has built the concatenation. *)
Example fetch_of_two_zones_raises :
  exists msg : string,
    download_history_tidy provider_two_zones ["AAPL"; "VOD.L"] "1y" "1d" true []
    = (Raise (ValueError msg),
       [concat (fetched_frames provider_two_zones ["AAPL"; "VOD.L"] "1y" "1d" true)]).
Proof. eexists. vm_compute. reflexivity. Qed.

Lemma download_history_tidy_intraday_witness :
  download_history_tidy provider_intraday ["X"] "5d" "1h" true []
  = (Raise (KeyError "date"),
     [concat (fetched_frames provider_intraday ["X"] "5d" "1h" true)]).
Proof.
  apply (download_history_tidy_intraday provider_intraday "5d" "1h" true ["X"] []).
  - intros t _. repeat constructor; cbn; intuition discriminate.
  - intros t _. reflexivity.
  - exists "X". split; [left; reflexivity | reflexivity].
Defined.

Lemma download_history_tidy_rows_witness :
  exists out : Frame,
    nth_error (snd (download_history_tidy provider_one_bar ["X"; "Y"] "1y" "1d" true []))
              1 = Some out
    /\ forall T : string,
         let hst := provider_one_bar T "1y" "1d" true in
         (~ In T ["X"; "Y"] -> group T (rows out) = [])
         /\ (In T ["X"; "Y"] -> index_name hst = IndexDatetime -> no_ohlcv hst = true ->
             group T (rows out) = [])
         /\ (In T ["X"; "Y"] -> index_name hst <> IndexDatetime \/ no_ohlcv hst = false ->
             Permutation (map row_view (group T (rows out)))
                         (map (bar_view hst T) (bars hst))).
Proof.
  apply (download_history_tidy_rows provider_one_bar "1y" "1d" true ["X"; "Y"] []).
  - intros t _. repeat constructor; cbn; intuition discriminate.
  - repeat constructor; cbn; intuition discriminate.
  - reflexivity.
Defined.

End FetchWitnesses.


(* ================================================================== *)
(** * The transforms on incomplete tables, and applied twice *)
(* ================================================================== *)

Section TransformErrors.

Local Open Scope string_scope.

Lemma bind_raise (A B : Type) (m : M A) (k : A -> M B) (h h' : heap) (e : exn) :
  m h = (Raise e, h') -> bind m k h = (Raise e, h').
Proof. intros H. unfold bind. rewrite H. reflexivity. Qed.

Lemma require_column_fail (c : string) (t : Frame) (h : heap) :
  has_column c (columns t) = false -> require_column c t h = (Raise (KeyError c), h).
Proof. intros H. unfold require_column. rewrite H. reflexivity. Qed.

Lemma sort_values_fail (h : heap) (r : ref) (t : Frame) :
  nth_error h r = Some t ->
  has_column "ticker" (columns t) && has_column "date" (columns t) = false ->
  exists c : string,
    sort_values_ticker_date r h = (Raise (KeyError c), h)
    /\ (c = "ticker" \/ c = "date")
    /\ has_column c (columns t) = false.
Proof.
  intros H Hc. unfold sort_values_ticker_date.
  rewrite (bind_ok _ _ _ _ _ _ _ (deref_run _ _ _ H)).
  destruct (has_column "ticker" (columns t)) eqn:Ht.
  - cbn [andb] in Hc.
    rewrite (bind_ok _ _ _ _ _ _ _ (require_column_run _ _ _ Ht)).
    exists "date". split; [| split; [right; reflexivity | exact Hc]].
    apply bind_raise, require_column_fail, Hc.
  - exists "ticker". split; [| split; [left; reflexivity | exact Ht]].
    apply bind_raise, require_column_fail, Ht.
Qed.

Lemma getitem_fail (h : heap) (r : ref) (t : Frame) (c : string) :
  nth_error h r = Some t -> has_column c (columns t) = false ->
  getitem r c h = (Raise (KeyError c), h).
Proof.
  intros H Hc. unfold getitem.
  rewrite (bind_ok _ _ _ _ _ _ _ (deref_run _ _ _ H)).
  apply bind_raise, require_column_fail, Hc.
Qed.

(** [compute_volatility] on a table that has its sort keys and the returns
    or the closes. *)
Lemma compute_volatility_run_ready (w : nat) (h : heap) (r : ref) (t : Frame) :
  nth_error h r = Some t -> volatility_ready t = true ->
  compute_volatility r w h
  = (Ok (S (length h)),
     (h ++ [mkFrame (columns t) (sort_rows (rows t)); volatility_frame w t])%list).
Proof.
  intros H Hr. unfold volatility_ready in Hr.
  apply andb_true_iff in Hr. destruct Hr as [Hr Hc].
  apply andb_true_iff in Hr. destruct Hr as [Ht Hd].
  destruct (has_column "daily_return" (columns t)) eqn:Hp.
  - set (s := mkFrame (columns t) (sort_rows (rows t))).
    unfold compute_volatility, volatility_frame. rewrite Hp.
    rewrite (bind_ok _ _ _ _ _ _ _ (sort_values_run _ _ _ H Ht Hd)). fold s.
    rewrite (bind_ok _ _ _ _ _ _ _ (copy_run _ _ _ (nth_error_snoc h s))).
    rewrite length_app, <- app_assoc. simpl.
    replace (length h + 1)%nat with (S (length h)) by lia.
    pose proof (nth_error_snoc2 h s s) as H1.
    rewrite (bind_ok _ _ _ _ _ _ _ (contains_run _ _ _ "daily_return" H1)).
    change (columns s) with (columns t). rewrite Hp.
    rewrite (bind_ok _ _ (ret tt) _ _ _ tt eq_refl).
    rewrite (bind_ok _ _ _ _ _ _ _ (get_tickers_run _ _ _ H1 Ht)).
    rewrite (bind_ok _ _ _ _ _ _ _ (getitem_run _ _ _ _ H1 Hp)).
    rewrite (bind_ok _ _ _ _ _ _ _
               (setitem_run _ _ _ (vol_column w) _ H1
                  (length_with_volatility_series w (rows s)))).
    rewrite update_last2. reflexivity.
  - cbn [orb] in Hc. apply compute_volatility_run; [exact H |].
    unfold is_tidy. rewrite Ht, Hd, Hc. reflexivity.
Qed.

End TransformErrors.

Section TransformExtras.

Local Open Scope string_scope.

Lemma volatility_ready_columns (t : Frame) :
  volatility_ready t = true ->
  has_column "ticker" (columns t) = true
  /\ has_column "date" (columns t) = true
  /\ (has_column "daily_return" (columns t) = true
      \/ has_column "close" (columns t) = true).
Proof.
  unfold volatility_ready. rewrite !andb_true_iff, orb_true_iff. tauto.
Qed.

Lemma volatility_frame_keys (w : nat) (t : Frame) :
  map key_of (rows (volatility_frame w t)) = map key_of (sort_rows (rows t)).
Proof.
  unfold volatility_frame, with_volatility, with_daily_return.
  destruct (has_column "daily_return" (columns t)); cbn [rows];
    rewrite !map_key_assign; auto using length_with_volatility_series, length_pct_series.
Qed.

Lemma volatility_frame_sorted (w : nat) (t : Frame) :
  StronglySorted key_le (rows (volatility_frame w t)).
Proof.
  apply (sorted_same_keys (sort_rows (rows t))).
  - symmetry. apply volatility_frame_keys.
  - apply sort_rows_sorted.
Qed.

Lemma volatility_frame_ready (w : nat) (t : Frame) :
  volatility_ready t = true -> volatility_ready (volatility_frame w t) = true.
Proof.
  intros H. destruct (volatility_ready_columns t H) as (Ht & Hd & _).
  destruct (volatility_frame_columns w t) as [Hr _].
  unfold volatility_ready. rewrite Hr. cbn [orb]. rewrite andb_true_r.
  unfold volatility_frame.
  destruct (has_column "daily_return" (columns t)); cbn [columns];
    apply andb_true_intro; split; repeat apply has_column_add_other; assumption.
Qed.

Lemma compute_volatility_returns_ready (w : nat) (t : Frame) :
  volatility_ready t = true ->
  returns_to (fun r => compute_volatility r w) t (volatility_frame w t).
Proof.
  intros Hr h r H. eexists. eexists.
  split; [apply compute_volatility_run_ready; eassumption |].
  apply nth_error_snoc2.
Qed.

(** Computing the volatility of a table that has it writes the same
    values again. *)
Lemma with_volatility_fixpoint (w : nat) (l : list Row) :
  same_rows (with_volatility w (with_volatility w l)) (with_volatility w l).
Proof.
  set (out := with_volatility w l).
  assert (Et : tickers_of out = tickers_of l)
    by (apply tickers_of_assign, length_with_volatility_series).
  assert (Ed : column "daily_return" out = column "daily_return" l).
  { apply column_assign_other; [| apply length_with_volatility_series].
    intros E. apply (vol_column_not_daily_return w). symmetry. exact E. }
  assert (Ev : column (vol_column w) out
               = mul_scalar (groupby_rolling_std w (tickers_of l)
                                                 (column "daily_return" l)) sqrt_252)
    by (apply column_assign_same, length_with_volatility_series).
  unfold with_volatility at 1. fold out. rewrite Et, Ed, <- Ev.
  apply same_rows_assign_own.
Qed.

(** X6.  [compute_returns] returns exactly when its input has the columns
    ticker, date and close; otherwise it raises KeyError for a column the
    input lacks, and every object that was in the store is as it was. *)
Theorem compute_returns_missing_column (h : heap) (r : ref) (t : Frame) :
  nth_error h r = Some t ->
  (is_tidy t = true ->
   exists (r' : ref) (h' : heap), compute_returns r h = (Ok r', h'))
  /\ (is_tidy t = false ->
      exists (c : string) (h' : heap),
        compute_returns r h = (Raise (KeyError c), h')
        /\ In c ["ticker"; "date"; "close"]
        /\ has_column c (columns t) = false
        /\ store_preserved h h').
Proof.
  intros H. split.
  - intros Ht. eexists. eexists. apply compute_returns_run; eassumption.
  - intros Hn. unfold is_tidy in Hn.
    destruct (has_column "ticker" (columns t) && has_column "date" (columns t))
      eqn:Hk.
    + cbn [andb] in Hn. apply andb_true_iff in Hk. destruct Hk as [Ht Hd].
      set (s := mkFrame (columns t) (sort_rows (rows t))).
      exists "close", (h ++ [s; s])%list.
      split; [| split; [cbn; tauto | split; [exact Hn | apply store_preserved_app]]].
      unfold compute_returns.
      rewrite (bind_ok _ _ _ _ _ _ _ (sort_values_run _ _ _ H Ht Hd)). fold s.
      rewrite (bind_ok _ _ _ _ _ _ _ (copy_run _ _ _ (nth_error_snoc h s))).
      rewrite length_app, <- app_assoc. simpl.
      replace (length h + 1)%nat with (S (length h)) by lia.
      pose proof (nth_error_snoc2 h s s) as H1.
      rewrite (bind_ok _ _ _ _ _ _ _ (get_tickers_run _ _ _ H1 Ht)).
      apply bind_raise. apply (getitem_fail _ _ s); [exact H1 | exact Hn].
    + destruct (sort_values_fail h r t H Hk) as (c & E & Hin & Hc).
      exists c, h. split; [apply bind_raise, E |].
      split; [| split; [exact Hc | intros q _; reflexivity]].
      cbn [In]. destruct Hin as [-> | ->]; auto.
Qed.

Lemma compute_returns_missing_column_witness :
  exists (c : string) (h' : heap),
    compute_returns 0 [mkFrame ["date"; "ticker"] []] = (Raise (KeyError c), h')
    /\ In c ["ticker"; "date"; "close"]
    /\ has_column c ["date"; "ticker"] = false
    /\ store_preserved [mkFrame ["date"; "ticker"] []] h'.
Proof.
  apply (proj2 (compute_returns_missing_column
                  [mkFrame ["date"; "ticker"] []] 0 (mkFrame ["date"; "ticker"] [])
                  eq_refl)).
  reflexivity.
Defined.

(** X7.  [compute_volatility] returns exactly when its input has the
    columns ticker and date and one of daily_return and close; otherwise it
    raises KeyError for a column the input lacks, and every object that was
    in the store is as it was. *)
Theorem compute_volatility_missing_column
        (w : nat) (h : heap) (r : ref) (t : Frame) :
  nth_error h r = Some t ->
  (volatility_ready t = true ->
   exists (r' : ref) (h' : heap), compute_volatility r w h = (Ok r', h'))
  /\ (volatility_ready t = false ->
      exists (c : string) (h' : heap),
        compute_volatility r w h = (Raise (KeyError c), h')
        /\ In c ["ticker"; "date"; "close"]
        /\ has_column c (columns t) = false
        /\ store_preserved h h').
Proof.
  intros H. split.
  - intros Ht. eexists. eexists. apply compute_volatility_run_ready; eassumption.
  - intros Hn. unfold volatility_ready in Hn.
    destruct (has_column "ticker" (columns t) && has_column "date" (columns t))
      eqn:Hk.
    + cbn [andb] in Hn. apply andb_true_iff in Hk. destruct Hk as [Ht Hd].
      apply orb_false_iff in Hn. destruct Hn as [Hp Hc].
      set (s := mkFrame (columns t) (sort_rows (rows t))).
      exists "close", (h ++ [s; s])%list.
      split; [| split; [cbn; tauto | split; [exact Hc | apply store_preserved_app]]].
      unfold compute_volatility.
      rewrite (bind_ok _ _ _ _ _ _ _ (sort_values_run _ _ _ H Ht Hd)). fold s.
      rewrite (bind_ok _ _ _ _ _ _ _ (copy_run _ _ _ (nth_error_snoc h s))).
      rewrite length_app, <- app_assoc. simpl.
      replace (length h + 1)%nat with (S (length h)) by lia.
      pose proof (nth_error_snoc2 h s s) as H1.
      rewrite (bind_ok _ _ _ _ _ _ _ (contains_run _ _ _ "daily_return" H1)).
      change (columns s) with (columns t). rewrite Hp.
      apply bind_raise.
      rewrite (bind_ok _ _ _ _ _ _ _ (get_tickers_run _ _ _ H1 Ht)).
      apply bind_raise. apply (getitem_fail _ _ s); [exact H1 | exact Hc].
    + destruct (sort_values_fail h r t H Hk) as (c & E & Hin & Hc).
      exists c, h. split; [apply bind_raise, E |].
      split; [| split; [exact Hc | intros q _; reflexivity]].
      cbn [In]. destruct Hin as [-> | ->]; auto.
Qed.

Lemma compute_volatility_missing_column_witness :
  exists (c : string) (h' : heap),
    compute_volatility 0 20 [mkFrame ["date"; "ticker"] []] = (Raise (KeyError c), h')
    /\ In c ["ticker"; "date"; "close"]
    /\ has_column c ["date"; "ticker"] = false
    /\ store_preserved [mkFrame ["date"; "ticker"] []] h'.
Proof.
  apply (proj2 (compute_volatility_missing_column
                  20 [mkFrame ["date"; "ticker"] []] 0 (mkFrame ["date"; "ticker"] [])
                  eq_refl)).
  reflexivity.
Defined.

(** X8.  On a table that has a daily_return column, [compute_volatility]
    never reads the closes: it returns the sorted rows with every column but
    the volatility as it was, daily_return included, and in each ticker's
    group the volatility is the rolling standard deviation of the
    daily_return cells that were given, times the square root of 252. *)
Theorem compute_volatility_given_returns
        (w : nat) (h : heap) (r : ref) (t : Frame) :
  nth_error h r = Some t ->
  has_column "ticker" (columns t) = true ->
  has_column "date" (columns t) = true ->
  has_column "daily_return" (columns t) = true ->
  exists out : Frame,
    compute_volatility r w h
    = (Ok (S (length h)),
       (h ++ [mkFrame (columns t) (sort_rows (rows t)); out])%list)
    /\ columns out = add_column (vol_column w) (columns t)
    /\ map key_of (rows out) = map key_of (sort_rows (rows t))
    /\ (forall c, c <> vol_column w ->
          column c (rows out) = column c (sort_rows (rows t)))
    /\ forall T : string,
         column (vol_column w) (group T (rows out))
         = mul_scalar
             (rolling_std w (column "daily_return" (group T (sort_rows (rows t)))))
             sqrt_252.
Proof.
  intros H Ht Hd Hp. exists (volatility_frame w t).
  split.
  { apply compute_volatility_run_ready; [exact H |].
    unfold volatility_ready. rewrite Ht, Hd, Hp. reflexivity. }
  split; [unfold volatility_frame; rewrite Hp; reflexivity |].
  split; [apply volatility_frame_keys |].
  split.
  - intros c Hc. unfold volatility_frame. rewrite Hp. cbn [rows].
    unfold with_volatility.
    apply column_assign_other; [exact Hc | apply length_with_volatility_series].
  - intros T. rewrite volatility_frame_group.
    unfold volatility_frame. rewrite Hp. cbn [rows].
    rewrite with_volatility_other; [reflexivity |].
    intros E. apply (vol_column_not_daily_return w). symmetry. exact E.
Qed.

Lemma compute_volatility_given_returns_witness :
  exists out : Frame,
    compute_volatility 0 20 [returns_only]
    = (Ok (S (length [returns_only])),
       ([returns_only]
          ++ [mkFrame (columns returns_only) (sort_rows (rows returns_only)); out])%list)
    /\ columns out = add_column (vol_column 20) (columns returns_only)
    /\ map key_of (rows out) = map key_of (sort_rows (rows returns_only))
    /\ (forall c, c <> vol_column 20 ->
          column c (rows out) = column c (sort_rows (rows returns_only)))
    /\ forall T : string,
         column (vol_column 20) (group T (rows out))
         = mul_scalar
             (rolling_std 20 (column "daily_return"
                                     (group T (sort_rows (rows returns_only)))))
             sqrt_252.
Proof.
  apply (compute_volatility_given_returns 20 [returns_only] 0 returns_only);
    reflexivity.
Defined.

(** X9.  Applying [compute_volatility] with the same window to the table it
    returned gives a table with the same columns, the same rows in the same
    order and the same cell in every column. *)
Theorem compute_volatility_idempotent (w : nat) (t : Frame) :
  volatility_ready t = true ->
  exists out1 out2 : Frame,
    returns_to (fun r => compute_volatility r w) t out1
    /\ returns_to (fun r => compute_volatility r w) out1 out2
    /\ columns out2 = columns out1
    /\ same_rows (rows out2) (rows out1).
Proof.
  intros Hr. exists (volatility_frame w t), (volatility_frame w (volatility_frame w t)).
  split; [apply compute_volatility_returns_ready, Hr |].
  split; [apply compute_volatility_returns_ready, volatility_frame_ready, Hr |].
  destruct (volatility_frame_columns w t) as [Hd Hv].
  pose proof (volatility_frame_sorted w t) as Hs.
  assert (Eo : exists l, rows (volatility_frame w t) = with_volatility w l).
  { unfold volatility_frame.
    destruct (has_column "daily_return" (columns t)); cbn [rows]; eauto. }
  set (out1 := volatility_frame w t) in *.
  unfold volatility_frame. rewrite Hd. cbn [columns rows].
  split; [apply add_column_present, Hv |].
  rewrite (sort_rows_id _ Hs).
  destruct Eo as (l & ->). apply with_volatility_fixpoint.
Qed.

Lemma compute_volatility_idempotent_witness :
  volatility_ready three_closes = true
  /\ exists out1 out2 : Frame,
       returns_to (fun r => compute_volatility r 20) three_closes out1
       /\ returns_to (fun r => compute_volatility r 20) out1 out2
       /\ same_rows (rows out2) (rows out1).
Proof.
  split; [reflexivity |].
  destruct (compute_volatility_idempotent 20 three_closes eq_refl)
    as (o1 & o2 & H1 & H2 & _ & H3).
  exists o1, o2. split; [exact H1 | split; [exact H2 | exact H3]].
Defined.

End TransformExtras.


(* ================================================================== *)
(** * The cached pipeline *)
(* ================================================================== *)

Section PipelineFacts.

Local Open Scope string_scope.

Variable history : string -> string -> string -> bool -> Hist.

Lemma fetched_columns_canonical (tickers : list string) (period interval : string)
      (adj : bool) (c : string) :
  In c (columns (concat (fetched_frames history tickers period interval adj))) ->
  In c ["date"; "open"; "high"; "low"; "close"; "volume"; "ticker"].
Proof.
  intros Hc. apply concat_columns in Hc. destruct Hc as (g & Hg & Hc).
  apply (in_frames_of history period interval adj) in Hg.
  destruct Hg as (t & _ & _ & ->).
  apply block_columns in Hc. destruct Hc as [Hc | ->].
  - apply in_kept, provides_canonical in Hc. unfold canonical in Hc.
    cbn [In] in *. tauto.
  - cbn [In]. tauto.
Qed.

Lemma add_column_absent (c : string) (cols : list string) :
  ~ In c cols -> add_column c cols = (cols ++ [c])%list.
Proof.
  intros H. unfold add_column.
  destruct (has_column c cols) eqn:E; [| reflexivity].
  apply has_column_in in E. contradiction.
Qed.

(** What a fetch that returns leaves in the store. *)
Lemma download_history_tidy_ok (tickers : list string) (period interval : string)
      (adj : bool) (h h0 : heap) (r0 : ref) (fetched : Frame) :
  download_history_tidy history tickers period interval adj h = (Ok r0, h0) ->
  nth_error h0 r0 = Some fetched ->
  has_column "ticker" (columns fetched) = true
  /\ has_column "date" (columns fetched) = true
  /\ StronglySorted key_le (rows fetched)
  /\ (forall c, In c (columns fetched) ->
        In c ["date"; "open"; "high"; "low"; "close"; "volume"; "ticker"])
  /\ length h0 = S r0.
Proof.
  intros H Hf. rewrite download_history_tidy_run in H.
  set (frames := fetched_frames history tickers period interval adj) in *.
  destruct frames as [| f fs] eqn:Ef; [discriminate H |]. rewrite <- Ef in *.
  destruct (has_column "date" (columns (concat frames))) eqn:Hd; [| discriminate H].
  destruct (one_zone _); [| discriminate H].
  assert (Er : r0 = S (length h)) by congruence.
  assert (Eh : h0 = (h ++ [concat frames;
                           mkFrame (columns (concat frames))
                                   (sort_rows (rows (concat frames)))])%list)
    by congruence.
  subst r0 h0. rewrite nth_error_snoc2 in Hf.
  assert (Efe : fetched = mkFrame (columns (concat frames))
                                  (sort_rows (rows (concat frames)))) by congruence.
  subst fetched. cbn [columns rows].
  split.
  { apply (concat_has_ticker history period interval adj tickers).
    fold frames. rewrite Ef. discriminate. }
  split; [exact Hd |].
  split; [apply sort_rows_sorted |].
  split; [apply fetched_columns_canonical |].
  rewrite length_app. cbn [length]. lia.
Qed.

(** X10.  For a provider whose frames have no column twice: when the fetch
    returns a table with a close column, [_cached_fetch] computes, without changing that table, a table with the
    same rows in the same order and the same cells, and three more columns
    after the fetched ones: in each ticker's group daily_return is the
    percentage change of the closes, cum_return the running product of the
    gross returns minus one, and vol_20d_ann the 20-row rolling standard
    deviation of daily_return times the square root of 252. *)
Theorem cached_fetch_pipeline
        (tickers_key interval : string) (h h0 : heap) (r0 : ref) (fetched : Frame) :
  distinct_columns history (PyStr.split "," tickers_key) "12mo" interval true ->
  download_history_tidy history (PyStr.split "," tickers_key) "12mo" interval true h
  = (Ok r0, h0) ->
  nth_error h0 r0 = Some fetched ->
  has_column "close" (columns fetched) = true ->
  exists (r : ref) (h' : heap) (out : Frame),
    fetch_body history (tickers_key, interval) h = (Ok r, h')
    /\ nth_error h' r = Some out
    /\ store_preserved h0 h'
    /\ columns out
       = (columns fetched ++ ["daily_return"; "cum_return"; "vol_20d_ann"])%list
    /\ map key_of (rows out) = map key_of (rows fetched)
    /\ (forall c, c <> "daily_return" -> c <> "cum_return" -> c <> "vol_20d_ann" ->
          column c (rows out) = column c (rows fetched))
    /\ forall T : string,
         column "daily_return" (group T (rows out))
         = pct_change (column "close" (group T (rows fetched)))
         /\ column "cum_return" (group T (rows out))
            = sub_scalar
                (cumprod (radd one (column "daily_return" (group T (rows out))))) one
         /\ column "vol_20d_ann" (group T (rows out))
            = mul_scalar
                (rolling_std 20 (column "daily_return" (group T (rows out)))) sqrt_252.
Proof.
  intros _ H Hf Hc.
  destruct (download_history_tidy_ok _ _ _ _ _ _ _ _ H Hf)
    as (Ht & Hd & Hs & Hcols & _).
  assert (Htidy : is_tidy fetched = true)
    by (unfold is_tidy; rewrite Ht, Hd, Hc; reflexivity).
  set (rf := returns_frame fetched).
  set (out := volatility_frame 20 rf).
  set (h1 := (h0 ++ [mkFrame (columns fetched) (sort_rows (rows fetched)); rf])%list).
  assert (E : fetch_body history (tickers_key, interval) h
              = (Ok (S (length h1)),
                 (h1 ++ [mkFrame (columns rf) (sort_rows (rows rf)); out])%list)).
  { unfold fetch_body.
    rewrite (bind_ok _ _ _ _ _ _ _ H).
    rewrite (bind_ok _ _ _ _ _ _ _ (compute_returns_run h0 r0 fetched Hf Htidy)).
    fold rf. fold h1.
    assert (H1 : nth_error h1 (S (length h0)) = Some rf) by apply nth_error_snoc2.
    rewrite (bind_ok _ _ _ _ _ _ _
               (compute_volatility_run 20 h1 _ rf H1 (returns_frame_tidy _ Htidy))).
    reflexivity. }
  assert (Erf : rows rf = with_cum_return (with_daily_return (rows fetched))).
  { unfold rf, returns_frame. cbn [rows]. rewrite (sort_rows_id _ Hs). reflexivity. }
  assert (Hrd : has_column "daily_return" (columns rf) = true)
    by (apply has_column_add_other, has_column_add_same).
  assert (Eout : rows out = with_volatility 20 (rows rf)).
  { unfold out, volatility_frame. rewrite Hrd. cbn [rows].
    apply f_equal. apply sort_rows_id. apply (returns_frame_sorted fetched). }
  assert (Nv : forall c, c <> "vol_20d_ann" -> c <> vol_column 20)
    by (intros c Hn; exact Hn).
  exists (S (length h1)), (h1 ++ [mkFrame (columns rf) (sort_rows (rows rf)); out])%list, out.
  split; [exact E |].
  split; [apply nth_error_snoc2 |].
  split.
  { unfold h1. rewrite <- app_assoc. apply store_preserved_app. }
  split.
  { unfold out, volatility_frame. rewrite Hrd. cbn [columns].
    unfold rf, returns_frame. cbn [columns].
    assert (N : forall c, In c ["daily_return"; "cum_return"; "vol_20d_ann"] ->
                          ~ In c (columns fetched)).
    { intros c Hin Hc'. apply Hcols in Hc'. cbn [In] in Hin, Hc'.
      destruct Hin as [<- | [<- | [<- | []]]];
        repeat destruct Hc' as [Hc' | Hc']; try discriminate Hc'; exact Hc'. }
    rewrite (add_column_absent "daily_return") by (apply N; cbn; tauto).
    rewrite (add_column_absent "cum_return").
    2:{ rewrite in_app_iff. intros [Hin | [Hin | []]];
          [revert Hin; apply N; cbn; tauto | discriminate Hin]. }
    change (vol_column 20) with "vol_20d_ann".
    rewrite add_column_absent.
    2:{ rewrite !in_app_iff. intros [[Hin | [Hin | []]] | [Hin | []]];
          [revert Hin; apply N; cbn; tauto | discriminate Hin | discriminate Hin]. }
    rewrite <- !app_assoc. reflexivity. }
  split.
  { rewrite Eout. unfold with_volatility.
    rewrite map_key_assign by apply length_with_volatility_series.
    rewrite Erf. unfold with_cum_return, with_daily_return.
    rewrite !map_key_assign; auto using length_cum_series, length_pct_series. }
  split.
  { intros c N1 N2 N3. rewrite Eout. unfold with_volatility.
    rewrite column_assign_other;
      [| apply Nv, N3 | apply length_with_volatility_series].
    rewrite Erf. unfold with_cum_return, with_daily_return.
    rewrite !column_assign_other; auto using length_cum_series, length_pct_series. }
  intros T.
  assert (Ed : column "daily_return" (group T (rows out))
               = column "daily_return" (group T (rows rf))).
  { rewrite Eout. apply with_volatility_other. discriminate. }
  split; [| split].
  - rewrite Ed. unfold rf. rewrite (returns_group_daily fetched T).
    rewrite (returns_group_other fetched T "close") by discriminate.
    rewrite (sort_rows_id _ Hs). reflexivity.
  - rewrite Ed. rewrite Eout.
    rewrite with_volatility_other by discriminate.
    apply (returns_group_cum fetched T).
  - apply (volatility_frame_group 20 T rf).
Qed.

End PipelineFacts.

Section PipelineWitness.

Local Open Scope string_scope.

Lemma one_bar_distinct :
  distinct_columns provider_one_bar (PyStr.split "," "X,Y") "12mo" "1d" true.
Proof. intros t _. repeat constructor; cbn; intuition discriminate. Qed.

Lemma cached_fetch_pipeline_witness :
  exists (r : ref) (h' : heap) (out : Frame),
    fetch_body provider_one_bar ("X,Y", "1d") [] = (Ok r, h')
    /\ nth_error h' r = Some out
    /\ columns out
       = ["date"; "open"; "high"; "low"; "close"; "volume"; "ticker";
          "daily_return"; "cum_return"; "vol_20d_ann"].
Proof.
  destruct (cached_fetch_pipeline provider_one_bar "X,Y" "1d" []
              (snd (download_history_tidy provider_one_bar ["X"; "Y"] "12mo" "1d" true []))
              1
              (mkFrame ["date"; "open"; "high"; "low"; "close"; "volume"; "ticker"]
                       (rows (concat (fetched_frames provider_one_bar ["X"; "Y"]
                                                     "12mo" "1d" true))))
              one_bar_distinct eq_refl eq_refl eq_refl)
    as (r & h' & out & E & Hn & _ & Hc & _).
  exists r, h', out. split; [exact E | split; [exact Hn | exact Hc]].
Defined.

End PipelineWitness.


(* ================================================================== *)
(** * The date filter and the KPI values *)
(* ================================================================== *)

Section DashboardFacts.

Local Open Scope string_scope.

Lemma date_leb_refl (d : option Z) : date_leb d d = true.
Proof. destruct d; cbn; [apply Z.leb_refl | reflexivity]. Qed.

Lemma filter_sorted (A : Type) (R : A -> A -> Prop) (p : A -> bool) (l : list A) :
  StronglySorted R l -> StronglySorted R (filter p l).
Proof.
  induction 1 as [| x l Hs IH Hall]; cbn [filter]; [constructor |].
  destruct (p x); [| exact IH].
  constructor; [exact IH |].
  apply Forall_forall. intros y Hy. apply filter_In in Hy.
  rewrite Forall_forall in Hall. apply Hall, Hy.
Qed.

Lemma iloc_last_snoc (A : Type) (l : list A) (x : A) :
  iloc_last (l ++ [x]) = Some x.
Proof.
  unfold iloc_last. rewrite map_app. cbn [map]. apply last_last.
Qed.

Lemma iloc_last_some (A : Type) (l : list A) (x : A) :
  iloc_last l = Some x -> exists front, l = (front ++ [x])%list.
Proof.
  destruct l as [| a l] using rev_ind; [discriminate |].
  rewrite iloc_last_snoc. intros E. exists l. congruence.
Qed.

Lemma iloc_last_nonempty (A : Type) (l : list A) :
  l <> [] -> exists x, iloc_last l = Some x.
Proof.
  destruct l as [| a l] using rev_ind; [congruence |].
  intros _. exists a. apply iloc_last_snoc.
Qed.

Lemma iloc_last_map (A B : Type) (f : A -> B) (l : list A) :
  iloc_last (map f l) = option_map f (iloc_last l).
Proof.
  destruct l as [| a l] using rev_ind; [reflexivity |].
  rewrite map_app. cbn [map]. rewrite !iloc_last_snoc. reflexivity.
Qed.

(** The last row of a table in date order is the latest. *)
Lemma sorted_last_latest (l front : list Row) (x : Row) :
  StronglySorted date_le l -> l = (front ++ [x])%list ->
  forall y, In y l -> date_le y x.
Proof.
  intros Hs -> y Hy. induction front as [| a front IH]; cbn [app] in *.
  - destruct Hy as [<- | []]. apply date_leb_refl.
  - inversion Hs as [| ? ? Hs' Hall]; subst.
    destruct Hy as [<- | Hy]; [| apply IH; assumption].
    rewrite Forall_forall in Hall. apply Hall.
    apply in_or_app. right. left. reflexivity.
Qed.

End DashboardFacts.

Section DashboardExtras.

Local Open Scope string_scope.

Variable history : string -> string -> string -> bool -> Hist.

(** X11.  Once [_cached_fetch] has returned a table for a key, a call with
    that key on the resulting cache returns the very same table object
    without running the body: whatever the provider would answer now, and
    whatever the store holds, nothing is fetched and nothing is stored. *)
Theorem cached_fetch_hit_is_stale
        (history' : string -> string -> string -> bool -> Hist)
        (tk iv : string) (c c' : fetch_cache) (h h' h2 : heap) (v : ref) :
  _cached_fetch history tk iv c h = ((Ok v, c'), h') ->
  exists c'' : fetch_cache,
    _cached_fetch history' tk iv c' h2 = ((Ok v, c''), h2)
    /\ keys_of c'' = (tk, iv) :: keys_of (Functools.remove key_eqb (tk, iv) c').
Proof.
  intros H.
  assert (Hf : Functools.find key_eqb (tk, iv) c' = Some v).
  { unfold _cached_fetch, Functools.lru_call in H.
    destruct (Functools.find key_eqb (tk, iv) c) as [v0 |] eqn:Ef.
    - injection H as E1 E2 E3. subst. unfold Functools.find. cbn [List.find fst snd].
      rewrite key_eqb_refl. reflexivity.
    - destruct (fetch_body history (tk, iv) h) as [[v0 | e] h1] eqn:Eb;
        [| discriminate H].
      injection H as E1 E2 E3. subst. unfold maxsize. cbn [firstn].
      unfold Functools.find. cbn [List.find fst snd].
      rewrite key_eqb_refl. reflexivity. }
  unfold _cached_fetch, Functools.lru_call. rewrite Hf.
  eexists. split; reflexivity.
Qed.

End DashboardExtras.

Section DateFilter.

Local Open Scope string_scope.

Variable to_datetime : string -> result (option Z).

(** X12.  The date filter of [update_main] does nothing unless both dates
    are given: the cached table itself is used.  When both are given and
    parse to instants, it builds a new table with the same columns that
    holds, in their order, exactly the rows dated from start to end, ends
    included; rows without a date are dropped, and every object in the
    store, the cached table too, is as it was. *)
Theorem date_filter_keeps_range
        (start_date end_date : option string) (long : ref) (h : heap) (t : Frame) :
  nth_error h long = Some t ->
  has_column "date" (columns t) = true ->
  (truthy start_date && truthy end_date = false ->
   date_filter to_datetime start_date end_date long h = (Ok long, h))
  /\ (forall (s e : string) (lo hi : Z),
        start_date = Some s -> end_date = Some e ->
        truthy start_date && truthy end_date = true ->
        to_datetime s = Ok (Some lo) -> to_datetime e = Ok (Some hi) ->
        exists out : Frame,
          date_filter to_datetime start_date end_date long h
          = (Ok (length h), (h ++ [out])%list)
          /\ columns out = columns t
          /\ rows out
             = filter (fun r => match date r with
                                | Some z => (lo <=? z)%Z && (z <=? hi)%Z
                                | None => false
                                end) (rows t)
          /\ (forall r, In r (rows out)
                        <-> In r (rows t)
                            /\ exists z, date r = Some z /\ (lo <= z <= hi)%Z)
          /\ (StronglySorted key_le (rows t) -> StronglySorted key_le (rows out))
          /\ store_preserved h (h ++ [out])%list).
Proof.
  intros H Hd. split.
  - intros Hn. unfold date_filter.
    destruct start_date as [s |], end_date as [e |]; try reflexivity.
    rewrite Hn. reflexivity.
  - intros s e lo hi -> -> Htr Hs He.
    set (p := fun r : Row => match date r with
                             | Some z => (lo <=? z)%Z && (z <=? hi)%Z
                             | None => false
                             end).
    exists (mkFrame (columns t) (filter p (rows t))).
    split.
    { unfold date_filter. rewrite Htr.
      rewrite (bind_ok _ _ _ _ _ _ _ (deref_run _ _ _ H)).
      rewrite (bind_ok _ _ _ _ _ _ _ (require_column_run _ _ _ Hd)).
      unfold bind at 1. rewrite Hs.
      rewrite (bind_ok _ _ _ _ _ _ _ (require_column_run _ _ _ Hd)).
      unfold bind at 1. rewrite He.
      unfold alloc. do 3 f_equal. f_equal.
      apply filter_ext. intros r. unfold p, ge_ts, le_ts.
      destruct (date r); reflexivity. }
    cbn [columns rows].
    split; [reflexivity |]. split; [reflexivity |].
    split.
    { intros r. rewrite filter_In. unfold p. split.
      - intros [Hin Hp]. split; [exact Hin |].
        destruct (date r) as [z |]; [| discriminate Hp].
        exists z. split; [reflexivity |].
        apply andb_true_iff in Hp. destruct Hp as [H1 H2].
        apply Z.leb_le in H1. apply Z.leb_le in H2. lia.
      - intros [Hin (z & -> & Hz)]. split; [exact Hin |].
        apply andb_true_iff. split; apply Z.leb_le; lia. }
    split; [apply filter_sorted | apply store_preserved_app].
Qed.

End DateFilter.

Section Kpis.

Local Open Scope string_scope.

(** X13.  On a table in (ticker, date) order the KPI block reads the
    price from the latest row of the first selected ticker that has a
    close, and the cumulative return from that same row, whatever it holds;
    the price is a dash exactly when the ticker has no row with a close; the
    volatility shown is never a missing value. *)
Theorem kpi_values_latest (long : Frame) (pick : string) :
  has_column "ticker" (columns long) = true ->
  has_column "close" (columns long) = true ->
  StronglySorted key_le (rows long) ->
  exists k : kpis,
    kpi_values long pick = Ok k
    /\ match last_close k with
       | None =>
           last_cum k = None
           /\ forall r, In r (rows long) -> ticker r = pick ->
                        isna (vals r "close") = true
       | Some x =>
           notna x = true
           /\ exists r : Row,
                In r (rows long) /\ ticker r = pick /\ vals r "close" = x
                /\ (forall r', In r' (rows long) -> ticker r' = pick ->
                       notna (vals r' "close") = true -> date_le r' r)
                /\ (has_column "cum_return" (columns long) = true ->
                    last_cum k = Some (vals r "cum_return"))
       end
    /\ forall x, last_vol k = Some x -> notna x = true.
Proof.
  intros Ht Hc Hs. unfold kpi_values. rewrite Ht, Hc. cbn [negb].
  eexists. split; [reflexivity |]. cbn [last_close last_cum last_vol].
  set (sub := priced_rows long pick).
  assert (Hin : forall r, In r sub
                          <-> In r (rows long) /\ ticker r = pick
                              /\ notna (vals r "close") = true).
  { intros r. unfold sub, priced_rows. rewrite !filter_In, String.eqb_eq. tauto. }
  assert (Hsub : StronglySorted date_le sub).
  { unfold sub, priced_rows. apply filter_sorted.
    apply (group_date_sorted pick (rows long) Hs). }
  split.
  - destruct sub as [| a l] eqn:Es.
    + cbn [negb]. rewrite andb_false_r. split; [reflexivity |].
      intros r Hr Hp. destruct (isna (vals r "close")) eqn:E; [reflexivity |].
      exfalso. apply (proj2 (Hin r)). split; [exact Hr |]. split; [exact Hp |].
      unfold notna. rewrite E. reflexivity.
    + rewrite <- Es in *. cbn [negb]. rewrite andb_true_r.
      destruct (iloc_last_nonempty _ sub) as (r & Er); [rewrite Es; discriminate |].
      unfold column. rewrite !iloc_last_map, Er. cbn [option_map].
      destruct (iloc_last_some _ sub r Er) as (front & Ef).
      assert (Hr : In r sub) by (rewrite Ef; apply in_or_app; right; left; reflexivity).
      apply Hin in Hr. destruct Hr as (Hr1 & Hr2 & Hr3).
      split; [exact Hr3 |]. exists r.
      split; [exact Hr1 |]. split; [exact Hr2 |]. split; [reflexivity |].
      split.
      * intros r' H1 H2 H3. apply (sorted_last_latest sub front r Hsub Ef).
        apply Hin. tauto.
      * intros ->. reflexivity.
  - intros x Hx.
    destruct (has_column "vol_20d_ann" (columns long)
              && existsb notna (column "vol_20d_ann" sub)); [| discriminate Hx].
    apply iloc_last_some in Hx. destruct Hx as (front & Ef).
    assert (Hi : In x (filter notna (column "vol_20d_ann" sub)))
      by (rewrite Ef; apply in_or_app; right; left; reflexivity).
    apply filter_In in Hi. apply Hi.
Qed.

End Kpis.

Section DashboardWitnesses.

Local Open Scope string_scope.

Lemma cached_fetch_hit_is_stale_witness :
  exists c'' : fetch_cache,
    _cached_fetch provider_without_data "X" "1d"
                  (snd (fst (_cached_fetch provider_one_bar "X" "1d" [] []))) []
    = ((Ok 5, c''), [])
    /\ keys_of c''
       = ("X", "1d")
           :: keys_of (Functools.remove key_eqb ("X", "1d")
                         (snd (fst (_cached_fetch provider_one_bar "X" "1d" [] [])))).
Proof.
  apply (cached_fetch_hit_is_stale provider_one_bar provider_without_data "X" "1d" []
           _ [] (snd (_cached_fetch provider_one_bar "X" "1d" [] [])) [] 5).
  reflexivity.
Defined.

Lemma date_filter_keeps_range_witness :
  exists out : Frame,
    date_filter day_number (Some "1") (Some "2") 0 [three_closes]
    = (Ok (length [three_closes]), ([three_closes] ++ [out])%list)
    /\ columns out = columns three_closes
    /\ rows out
       = filter (fun r => match date r with
                          | Some z => (1 <=? z)%Z && (z <=? 2)%Z
                          | None => false
                          end) (rows three_closes).
Proof.
  destruct (proj2 (date_filter_keeps_range day_number (Some "1") (Some "2") 0
                     [three_closes] three_closes eq_refl eq_refl)
                  "1" "2" 1%Z 2%Z eq_refl eq_refl eq_refl eq_refl eq_refl)
    as (out & E & Ec & Er & _).
  exists out. split; [exact E | split; [exact Ec | exact Er]].
Defined.

Lemma kpi_values_latest_witness :
  exists k : kpis,
    kpi_values three_closes "X" = Ok k
    /\ match last_close k with
       | None =>
           last_cum k = None
           /\ forall r, In r (rows three_closes) -> ticker r = "X" ->
                        isna (vals r "close") = true
       | Some x =>
           notna x = true
           /\ exists r : Row,
                In r (rows three_closes) /\ ticker r = "X" /\ vals r "close" = x
                /\ (forall r', In r' (rows three_closes) -> ticker r' = "X" ->
                       notna (vals r' "close") = true -> date_le r' r)
                /\ (has_column "cum_return" (columns three_closes) = true ->
                    last_cum k = Some (vals r "cum_return"))
       end
    /\ forall x, last_vol k = Some x -> notna x = true.
Proof.
  apply (kpi_values_latest three_closes "X"); [reflexivity | reflexivity |].
  repeat constructor.
Defined.

End DashboardWitnesses.


(* ================================================================== *)
(** * to_long *)
(* ================================================================== *)

Section ToLongFacts.

Local Open Scope string_scope.

Import ToLong.

Variable A : Type.
Variable of_str : string -> A.
Variable to_datetime : list A -> result (list A).

Lemma names_normalized (df : DataFrame A) :
  names (normalized df) = map lower_snake (names (cols df)).
Proof. unfold normalized, names. rewrite !map_map. reflexivity. Qed.

Lemma mem_names_get (k : string) (cs : list (string * list A)) :
  mem k (names cs) = match get k cs with Some _ => true | None => false end.
Proof.
  unfold mem, names, get. induction cs as [| c cs IH]; [reflexivity |].
  cbn [map existsb find]. rewrite String.eqb_sym.
  destruct (String.eqb (fst c) k); [reflexivity | exact IH].
Qed.

Lemma labelled_nodup (k : string) (cs : list (string * list A)) :
  NoDup (names cs) ->
  labelled k cs = match get k cs with Some x => [(k, x)] | None => [] end.
Proof.
  unfold labelled, get, names. induction cs as [| [l x] cs IH]; intros Hnd;
    [reflexivity |].
  cbn [map fst] in Hnd. apply NoDup_cons_iff in Hnd. destruct Hnd as [Hl Hnd].
  cbn [filter find fst]. destruct (String.eqb_spec l k) as [-> | N].
  - cbn [option_map snd]. f_equal.
    assert (E : forall cs' : list (string * list A), ~ In k (map fst cs') ->
              filter (fun c => String.eqb (fst c) k) cs' = []).
    { induction cs' as [| [l' x'] cs' IH']; intros Hn; [reflexivity |].
      cbn [filter fst]. destruct (String.eqb_spec l' k) as [-> | _].
      - exfalso. apply Hn. left. reflexivity.
      - apply IH'. intros Hin. apply Hn. right. exact Hin. }
    apply E, Hl.
  - apply IH, Hnd.
Qed.

Lemma get_app_ticker (k : string) (cs : list (string * list A)) (x : list A) :
  get k (cs ++ [("ticker", x)])
  = match get k cs with
    | Some y => Some y
    | None => if String.eqb "ticker" k then Some x else None
    end.
Proof.
  unfold get. induction cs as [| c cs IH]; cbn [app find fst].
  - destruct (String.eqb "ticker" k); reflexivity.
  - destruct (String.eqb (fst c) k); [reflexivity | exact IH].
Qed.

(** Selecting the labels that are there selects what every label finds. *)
Lemma select_present (cs : list (string * list A)) (ks : list string) :
  NoDup (names cs) ->
  flat_map (fun k => labelled k cs) (filter (fun c => mem c (names cs)) ks)
  = flat_map (fun k => match get k cs with Some x => [(k, x)] | None => [] end) ks.
Proof.
  intros Hnd. induction ks as [| k ks IH]; [reflexivity |].
  cbn [filter flat_map]. rewrite mem_names_get.
  destruct (get k cs) as [x |] eqn:E.
  - cbn [flat_map]. rewrite IH, (labelled_nodup k cs Hnd), E. reflexivity.
  - exact IH.
Qed.

Lemma forallb_need (cs : list (string * list A)) :
  forallb (fun n => mem n (names cs)) need = true
  <-> forall n, In n need -> In n (names cs).
Proof.
  rewrite forallb_forall. split; intros H n Hn; apply mem_in, H, Hn.
Qed.

Lemma get_some_in (k : string) (cs : list (string * list A)) (x : list A) :
  get k cs = Some x -> In k (names cs).
Proof.
  intros E. apply mem_in. rewrite mem_names_get, E. reflexivity.
Qed.

(** A call that returns has found the five required columns. *)
Lemma to_long_ok_need (df out : DataFrame A) :
  to_long of_str to_datetime df = Ok out ->
  forall n, In n need -> In n (names (normalized df)).
Proof.
  unfold to_long. rewrite <- names_normalized.
  destruct (forallb (fun n => mem n (names (normalized df))) need) eqn:E;
    [| discriminate].
  intros _. apply forallb_need, E.
Qed.

(** X14.  [to_long] checks for the five columns date, open, high, low and
    close, under their lowercase snake-case labels (a label is not
    stripped), before anything else: when one is missing it raises its
    ValueError whatever the frame holds and whatever the date parser would
    do, and it returns only when all five are there; ticker and volume are
    not required. *)
Theorem to_long_requires_ohlc (df : DataFrame A) :
  ((exists n, In n need /\ ~ In n (map lower_snake (names (cols df)))) ->
   to_long of_str to_datetime df
   = Raise (ValueError
              "to_long expected OHLC columns. Prefer download_history_tidy()."))
  /\ (forall out : DataFrame A,
        to_long of_str to_datetime df = Ok out ->
        forall n, In n need -> In n (map lower_snake (names (cols df)))).
Proof.
  unfold to_long. rewrite <- names_normalized.
  destruct (forallb (fun n => mem n (names (normalized df))) need) eqn:E.
  - split.
    + intros (n & Hn & Hnot). exfalso. apply Hnot.
      apply (proj1 (forallb_need _) E n Hn).
    + intros _ _. apply forallb_need, E.
  - split; [reflexivity | discriminate].
Qed.

(** The frame [to_long] builds around the parsed dates [d']. *)
Lemma to_long_run (df : DataFrame A) (d o hi lo c : list A) :
  NoDup (names (normalized df)) ->
  get "date" (normalized df) = Some d ->
  get "open" (normalized df) = Some o ->
  get "high" (normalized df) = Some hi ->
  get "low" (normalized df) = Some lo ->
  get "close" (normalized df) = Some c ->
  to_long of_str to_datetime df
  = match to_datetime d with
    | Ok d' =>
        Ok (mkDataFrame (nrows df)
              (("date", d')
                 :: ("ticker", match get "ticker" (normalized df) with
                               | Some t => t
                               | None => repeat (of_str "TICKER") (nrows df)
                               end)
                 :: ("open", o) :: ("high", hi) :: ("low", lo) :: ("close", c)
                 :: match get "volume" (normalized df) with
                    | Some v => [("volume", v)]
                    | None => []
                    end))
    | Raise e => Raise e
    end.
Proof.
  intros Hnd Hd Ho Hh Hl Hc.
  unfold to_long. rewrite <- names_normalized.
  assert (Hneed : forallb (fun n => mem n (names (normalized df))) need = true).
  { apply forallb_need. intros n Hn. unfold need in Hn. cbn [In] in Hn.
    destruct Hn as [<- | [<- | [<- | [<- | [<- | []]]]]];
      eapply get_some_in; eassumption. }
  rewrite Hneed. cbn [negb]. fold (normalized df).
  set (n0 := normalized df) in *.
  set (tk := repeat (of_str "TICKER") (nrows df)).
  set (out := if mem "ticker" (names n0) then n0 else (n0 ++ [("ticker", tk)])%list).
  assert (Hnd2 : NoDup (names out)).
  { unfold out. destruct (mem "ticker" (names n0)) eqn:Em; [exact Hnd |].
    unfold names. rewrite map_app. cbn [map fst].
    apply (NoDup_Add (Add_app "ticker" (map fst n0) [])).
    rewrite app_nil_r. split; [exact Hnd |].
    intros Hin. apply mem_in in Hin. unfold names in Em. congruence. }
  assert (Hget : forall k, k <> "ticker" -> get k out = get k n0).
  { intros k Hk. unfold out. destruct (mem "ticker" (names n0)); [reflexivity |].
    rewrite get_app_ticker. destruct (get k n0); [reflexivity |].
    destruct (String.eqb_spec "ticker" k) as [E | _]; [congruence | reflexivity]. }
  assert (Hgt : get "ticker" out
                = Some match get "ticker" n0 with Some t => t | None => tk end).
  { unfold out. rewrite mem_names_get.
    destruct (get "ticker" n0) as [t |] eqn:Et; [exact Et |].
    rewrite get_app_ticker, Et. reflexivity. }
  rewrite (select_present out long_columns Hnd2).
  unfold long_columns. cbn [flat_map].
  rewrite Hgt, !Hget, Hd, Ho, Hh, Hl, Hc by discriminate.
  destruct (get "volume" n0) as [v |]; cbn [app labelled filter fst String.eqb
    Ascii.eqb Bool.eqb]; destruct (to_datetime d); reflexivity.
Qed.

Lemma get_present (k : string) (cs : list (string * list A)) :
  In k (names cs) -> exists x, get k cs = Some x.
Proof.
  intros H. apply mem_in in H. rewrite mem_names_get in H.
  destruct (get k cs) as [x |]; [eauto | discriminate H].
Qed.

(** X15.  On a frame whose normalized labels are pairwise distinct and
    that has the five required columns, [to_long] returns, when the dates
    parse, a frame of the same length whose columns are date, ticker, open,
    high, low, close and, if the input has one, volume, in this order
    whatever the order of the input: the parsed dates, the input's ticker
    column or else the constant TICKER, and the input's columns as they
    were; every other column is dropped. *)
Theorem to_long_shape (df : DataFrame A) (d d' o hi lo c : list A) :
  NoDup (names (normalized df)) ->
  get "date" (normalized df) = Some d ->
  get "open" (normalized df) = Some o ->
  get "high" (normalized df) = Some hi ->
  get "low" (normalized df) = Some lo ->
  get "close" (normalized df) = Some c ->
  to_datetime d = Ok d' ->
  to_long of_str to_datetime df
  = Ok (mkDataFrame (nrows df)
          (("date", d')
             :: ("ticker", match get "ticker" (normalized df) with
                           | Some t => t
                           | None => repeat (of_str "TICKER") (nrows df)
                           end)
             :: ("open", o) :: ("high", hi) :: ("low", lo) :: ("close", c)
             :: match get "volume" (normalized df) with
                | Some v => [("volume", v)]
                | None => []
                end)).
Proof.
  intros Hnd Hd Ho Hh Hl Hc Ht.
  rewrite (to_long_run df d o hi lo c Hnd Hd Ho Hh Hl Hc), Ht. reflexivity.
Qed.

(** X16.  [to_long] is idempotent on frames whose normalized labels are
    pairwise distinct, provided parsing dates that are already parsed
    changes nothing: applied to the frame it returned, it returns that
    frame again. *)
Theorem to_long_idempotent (df out : DataFrame A) :
  NoDup (names (normalized df)) ->
  (forall d d', to_datetime d = Ok d' -> to_datetime d' = Ok d') ->
  to_long of_str to_datetime df = Ok out ->
  to_long of_str to_datetime out = Ok out.
Proof.
  intros Hnd Hfix H.
  assert (Hneed : forall n, In n need -> In n (names (normalized df))).
  { apply (to_long_ok_need df out H). }
  destruct (get_present "date" _ (Hneed "date" ltac:(cbn; tauto))) as (d & Hd).
  destruct (get_present "open" _ (Hneed "open" ltac:(cbn; tauto))) as (o & Ho).
  destruct (get_present "high" _ (Hneed "high" ltac:(cbn; tauto))) as (hi & Hh).
  destruct (get_present "low" _ (Hneed "low" ltac:(cbn; tauto))) as (lo & Hl).
  destruct (get_present "close" _ (Hneed "close" ltac:(cbn; tauto))) as (c & Hc).
  rewrite (to_long_run df d o hi lo c Hnd Hd Ho Hh Hl Hc) in H.
  destruct (to_datetime d) as [d' |] eqn:Ht; [| discriminate H].
  apply Hfix in Ht.
  assert (Eo : out = mkDataFrame (nrows df)
              (("date", d')
                 :: ("ticker", match get "ticker" (normalized df) with
                               | Some t => t
                               | None => repeat (of_str "TICKER") (nrows df)
                               end)
                 :: ("open", o) :: ("high", hi) :: ("low", lo) :: ("close", c)
                 :: match get "volume" (normalized df) with
                    | Some v => [("volume", v)]
                    | None => []
                    end)) by congruence.
  set (tk := match get "ticker" (normalized df) with
             | Some t => t
             | None => repeat (of_str "TICKER") (nrows df)
             end) in *.
  clearbody tk. clear H Hd Ho Hh Hl Hc Hneed Hnd.
  destruct (get "volume" (normalized df)) as [v |]; subst out;
    unfold to_long; vm_compute; rewrite Ht; reflexivity.
Qed.

End ToLongFacts.

Section ToLongWitnesses.

Local Open Scope string_scope.

Import ToLong.

Lemma to_long_requires_ohlc_witness :
  to_long (fun _ => 0) (fun d => Ok d) no_close_sample
  = Raise (ValueError
             "to_long expected OHLC columns. Prefer download_history_tidy().").
Proof.
  apply (proj1 (to_long_requires_ohlc nat (fun _ => 0) (fun d => Ok d) no_close_sample)).
  exists "close". split; [cbn; tauto |].
  vm_compute. intuition discriminate.
Defined.

Lemma to_long_shape_witness :
  to_long (fun _ => 0) (fun d => Ok d) wide_sample
  = Ok (mkDataFrame 2
          [("date", [1; 2]); ("ticker", [0; 0]); ("open", [5; 6]);
           ("high", [7; 8]); ("low", [9; 10]); ("close", [3; 4])]).
Proof.
  apply (to_long_shape nat (fun _ => 0) (fun d => Ok d) wide_sample
           [1; 2] [1; 2] [5; 6] [7; 8] [9; 10] [3; 4]); try reflexivity.
  vm_compute. repeat constructor; cbn; intuition discriminate.
Defined.

Lemma to_long_idempotent_witness :
  to_long (fun _ => 0) (fun d => Ok d)
          (mkDataFrame 2
             [("date", [1; 2]); ("ticker", [0; 0]); ("open", [5; 6]);
              ("high", [7; 8]); ("low", [9; 10]); ("close", [3; 4])])
  = Ok (mkDataFrame 2
          [("date", [1; 2]); ("ticker", [0; 0]); ("open", [5; 6]);
           ("high", [7; 8]); ("low", [9; 10]); ("close", [3; 4])]).
Proof.
  apply (to_long_idempotent nat (fun _ => 0) (fun d => Ok d) wide_sample).
  - vm_compute. repeat constructor; cbn; intuition discriminate.
  - intros d d' E. congruence.
  - reflexivity.
Defined.

End ToLongWitnesses.
